(** * Brand sponsorship ROI analysis: a shallow embedding of [backend/app.py]

    The development follows the layout of the Python module:
    - [PyStr]: the few [str] methods the brand filter relies on;
    - [BrandClassifier]: [is_valid_brand] and [categorize_sponsorship_placement];
    - the data carried between the stages (appearances, per-brand metrics,
      per-video analyses);
    - [JobTracker]: the [AnalysisStatus] registry;
    - the single-video pipeline [analyze_video_with_progress];
    - the temporal merge [combine_video_analyses];
    - the parallel driver [analyze_multiple_videos_with_progress];
    - the validation and aggregation loops of the synchronous endpoint
      [analyze_video].

    Modelling conventions.
    - Python numbers ([int] and [float]) that carry seconds, minutes and scores
      are rationals ([Q]); counters are integers ([Z]).  Sums, differences,
      products and the quotient [sum / len] are the exact ones; the rounding
      error of binary floating point is not modelled.
    - A detection is a record of optional fields, one per key the code reads:
      a key that is present holds a value of the type the schema gives it.
    - A falsy entry of [individual_analyses] (the empty dict) is [None].
    - A Python [dict] whose iteration order is observable (Python keeps
      insertion order) is an association list in insertion order.
    - A raised exception is the [Raise] branch of the result type [Py]; a
      [try/except] is a [match] on it.
    - The remote collaborators (the vision service, the scoring service) are
      inputs of a run: what they answered, or that they raised. *)

From Stdlib Require Import List String Ascii Bool Arith ZArith QArith Qround Lia.
From Stdlib Require Import DecimalString Permutation Sorted.
Import ListNotations.

Local Open Scope string_scope.

(** ** The [str] methods used by the brand filter (ASCII strings) *)

Module PyStr.

Definition is_upper (c : ascii) : bool :=
  let n := nat_of_ascii c in (65 <=? n)%nat && (n <=? 90)%nat.

Definition lower_char (c : ascii) : ascii :=
  if is_upper c then ascii_of_nat (nat_of_ascii c + 32) else c.

(** [s.lower()] *)
Fixpoint lower (s : string) : string :=
  match s with
  | EmptyString => EmptyString
  | String c s' => String (lower_char c) (lower s')
  end.

(** [c.isspace()] on the ASCII range *)
Definition is_space (c : ascii) : bool :=
  let n := nat_of_ascii c in
  ((9 <=? n)%nat && (n <=? 13)%nat) || ((28 <=? n)%nat && (n <=? 32)%nat).

Fixpoint lstrip (s : string) : string :=
  match s with
  | EmptyString => EmptyString
  | String c s' => if is_space c then lstrip s' else s
  end.

(** drops the trailing white space: a character is kept when something
    non-blank follows it or it is itself non-blank *)
Fixpoint rstrip (s : string) : string :=
  match s with
  | EmptyString => EmptyString
  | String c s' =>
      match rstrip s' with
      | EmptyString => if is_space c then EmptyString else String c EmptyString
      | r => String c r
      end
  end.

(** [s.strip()] *)
Definition strip (s : string) : string := rstrip (lstrip s).

(** [s.split()]: maximal runs of non-blank characters.  [cur] is the word
    being read, in reverse. *)
Fixpoint rev_string (acc s : string) : string :=
  match s with
  | EmptyString => acc
  | String c s' => rev_string (String c acc) s'
  end.

Definition flush (cur : string) (ws : list string) : list string :=
  match cur with
  | EmptyString => ws
  | _ => rev_string EmptyString cur :: ws
  end.

Fixpoint split_aux (s cur : string) : list string :=
  match s with
  | EmptyString => flush cur []
  | String c s' =>
      if is_space c then flush cur (split_aux s' EmptyString)
      else split_aux s' (String c cur)
  end.

Definition split (s : string) : list string := split_aux s EmptyString.

(** [needle in hay] *)
Fixpoint contains (needle hay : string) : bool :=
  prefix needle hay ||
  match hay with
  | EmptyString => false
  | String _ hay' => contains needle hay'
  end.

(** [s.endswith(suffix)] *)
Fixpoint endswith (s suffix : string) : bool :=
  String.eqb s suffix ||
  match s with
  | EmptyString => false
  | String _ s' => endswith s' suffix
  end.

(** [w[0].isupper()] for a word produced by [split] (never empty) *)
Definition first_isupper (w : string) : bool :=
  match w with
  | EmptyString => false
  | String c _ => is_upper c
  end.

(** [x in xs] for a list of strings *)
Definition mem (x : string) (xs : list string) : bool :=
  existsb (String.eqb x) xs.

End PyStr.

(** ** BrandClassifier *)

Module BrandClassifier.
Import PyStr.

Definition non_brand_keywords : list string :=
  [ "high school"; "college"; "university"; "team"; "football"; "basketball";
    "baseball"; "soccer"; "athletics"; "sports"; "club"; "academy"; "institute";
    "school"; "district"; "county"; "city"; "state"; "national"; "tournament";
    "championship"; "league"; "division"; "conference"; "guy"; "john"; "mike";
    "david"; "robert"; "james"; "william"; "richard"; "charles"; "joe" ].

Definition educational_suffixes : list string :=
  [ "College"; "University"; "School"; "Academy"; "Institute" ].

Definition person_first_names : list string :=
  [ "guy"; "john"; "mike"; "david"; "robert" ].

Definition generic_places : list string :=
  [ "berkeley"; "cambridge"; "oxford"; "stanford" ].

Definition known_brands : list string :=
  [ "ford"; "nike"; "adidas"; "coca-cola"; "pepsi"; "honda"; "toyota";
    "microsoft"; "apple"; "google"; "amazon"; "walmart"; "target";
    "hon-dah"; "hondah" ].

(** the [First Last] test of lines 156-160 *)
Definition looks_like_person (words : list string) : bool :=
  match words with
  | [w0; w1] =>
      first_isupper w0 && first_isupper w1 &&
      existsb (fun w => mem (lower w) person_first_names) words
  | _ => false
  end.

(** the keyword loop of lines 163-166 *)
Definition hits_keyword (brand_lower : string) : bool :=
  existsb (fun keyword => contains keyword brand_lower) non_brand_keywords.

(** the test of line 188 *)
Definition hits_known_brand (brand_lower : string) : bool :=
  existsb (fun known_brand => contains known_brand brand_lower) known_brands.

Definition is_valid_brand (brand_name : string) : bool :=
  let brand_name := strip brand_name in
  let words := split brand_name in
  if looks_like_person words then false
  else
    let brand_lower := lower brand_name in
    if hits_keyword brand_lower then false
    else if existsb (fun suffix => endswith brand_name suffix) educational_suffixes
    then false
    else if (List.length words =? 1)%nat && mem brand_lower generic_places then false
    else if contains "outdoor sport" brand_lower
            && negb (existsb (fun bad_word => contains bad_word brand_lower)
                             ["school"; "college"; "university"])
    then true
    else if hits_known_brand brand_lower then true
    else true.

Definition ad_placement_types : list string :=
  [ "digital_overlay"; "ctv_ad"; "overlay_ad"; "squeeze_ad"; "commercial" ].

Definition in_game_placement_types : list string :=
  [ "logo"; "jersey_sponsor"; "stadium_signage"; "product_placement";
    "audio_mention" ].

Definition categorize_sponsorship_placement (placement_type context : string)
  : string :=
  if mem placement_type ad_placement_types then "ad_placement"
  else if mem placement_type in_game_placement_types then "in_game_placement"
  else if mem context ["commercial"] then "ad_placement"
  else "in_game_placement".

End BrandClassifier.

(** ** Exceptions and numbers *)

(** The outcome of a Python call: a value, or a raised exception with its
    [str(e)]. *)
Inductive Py (A : Type) : Type :=
| Return (a : A)
| Raise (msg : string).
Arguments Return {A} a.
Arguments Raise {A} msg.

Definition bind {A B : Type} (m : Py A) (k : A -> Py B) : Py B :=
  match m with
  | Return a => k a
  | Raise msg => Raise msg
  end.

Notation "x <- m ;; k" := (bind m (fun x => k))
  (at level 61, m at next level, right associativity).

Fixpoint mapM {A B : Type} (f : A -> Py B) (l : list A) : Py (list B) :=
  match l with
  | [] => Return []
  | a :: l' => b <- f a ;; bs <- mapM f l' ;; Return (b :: bs)
  end.

Module Num.
Local Open Scope Q_scope.

Definition Qltb (x y : Q) : bool := negb (Qle_bool y x).

Definition Qsum (l : list Q) : Q := fold_left Qplus l 0.

(** [sum(l) / len(l)], the quotient taken by [np.mean] and by the merge *)
Definition mean (l : list Q) : Q := Qsum l / inject_Z (Z.of_nat (List.length l)).

(** [int(x)]: truncation towards zero *)
Definition py_int (x : Q) : Z := Z.quot (Qnum x) (Zpos (Qden x)).

(** [round(x)] to an integer, ties to the even neighbour *)
Definition round_half_even (x : Q) : Z :=
  let f := Qfloor x in
  let twice := 2 * (x - inject_Z f) in
  if Qltb twice 1 then f
  else if Qltb 1 twice then (f + 1)%Z
  else if Z.even f then f else (f + 1)%Z.

(** [round(x, 1)] and [round(x, 2)], taken on the exact value.  Python
    rounds the binary float, which at a decimal tie lies on one side or the
    other of it; no statement depends on which way a tie goes. *)
Definition round1 (x : Q) : Q := inject_Z (round_half_even (x * 10)) / 10.
Definition round2 (x : Q) : Q := inject_Z (round_half_even (x * 100)) / 100.
End Num.

(** ** Data carried between the stages *)

(** One detection, a JSON object.  [None] is an absent key; the keys outside
    the ten of the [BrandAppearance] schema are kept by name in [extra]
    (no code path reads their values). *)
Record Appearance : Type := mkAppearance {
  timeline : option (list Q);
  brand : option string;
  type_ : option string;
  sponsorship_category : option string;
  location : option (list Q);
  prominence : option string;
  context : option string;
  description : option string;
  sentiment_context : option string;
  viewer_attention : option string;
  extra : list string
}.

Definition set_timeline (a : Appearance) (t : list Q) : Appearance :=
  mkAppearance (Some t) (brand a) (type_ a) (sponsorship_category a) (location a)
    (prominence a) (context a) (description a) (sentiment_context a)
    (viewer_attention a) (extra a).

Definition set_sponsorship_category (a : Appearance) (c : string) : Appearance :=
  mkAppearance (timeline a) (brand a) (type_ a) (Some c) (location a)
    (prominence a) (context a) (description a) (sentiment_context a)
    (viewer_attention a) (extra a).

(** [d.get(key, default)] on an optional field *)
Definition get {A : Type} (o : option A) (default : A) : A :=
  match o with Some v => v | None => default end.

(** [d.get(key) == value] *)
Definition is_ (o : option string) (value : string) : bool :=
  match o with Some v => String.eqb v value | None => false end.

(** The pydantic model [BrandAppearance] (lines 101-117): construction either
    returns the record that [model_dump] gives back (the ten schema fields,
    keys outside the schema dropped) or raises. *)
Module BrandAppearanceModel.
Import PyStr.

Definition types : list string :=
  [ "logo"; "jersey_sponsor"; "stadium_signage"; "digital_overlay";
    "audio_mention"; "product_placement"; "commercial"; "ctv_ad";
    "overlay_ad"; "squeeze_ad" ].
Definition categories : list string := [ "ad_placement"; "in_game_placement" ].
Definition prominences : list string := [ "primary"; "secondary"; "background" ].
Definition contexts : list string :=
  [ "game_action"; "replay"; "celebration"; "interview"; "crowd_shot";
    "commercial"; "transition" ].
Definition sentiments : list string := [ "positive"; "neutral"; "negative" ].
Definition attentions : list string := [ "high"; "medium"; "low" ].

Definition literal (o : option string) (allowed : list string) : bool :=
  match o with Some v => mem v allowed | None => false end.

Definition min_length (o : option string) (n : nat) : bool :=
  match o with Some v => (n <=? String.length v)%nat | None => false end.

(** [min_items=2, max_items=2] and the [validate_timeline] validator *)
Definition timeline_ok (o : option (list Q)) : bool :=
  match o with
  | Some [t0; t1] => negb (Qle_bool t1 t0)
  | _ => false
  end.

Definition location_ok (o : option (list Q)) : bool :=
  match o with
  | None => true
  | Some l => (List.length l =? 4)%nat
  end.

Definition valid (a : Appearance) : bool :=
  timeline_ok (timeline a) && min_length (brand a) 1 &&
  literal (type_ a) types && literal (sponsorship_category a) categories &&
  location_ok (location a) && literal (prominence a) prominences &&
  literal (context a) contexts && min_length (description a) 10 &&
  literal (sentiment_context a) sentiments &&
  literal (viewer_attention a) attentions.

Definition model_dump (a : Appearance) : Appearance :=
  mkAppearance (timeline a) (brand a) (type_ a) (sponsorship_category a)
    (location a) (prominence a) (context a) (description a)
    (sentiment_context a) (viewer_attention a) [].

Definition validate (a : Appearance) : Py Appearance :=
  if valid a then Return (model_dump a)
  else Raise "validation error for BrandAppearance".
End BrandAppearanceModel.

(** The enrichment payload, as far as [estimate_social_engagement] reads it. *)
Record RoiProjection : Type := mkRoi {
  overall_roi_rating : option Q;
  estimated_impressions : option Z
}.

Record Insights : Type := mkInsights {
  placement_effectiveness_score : option Q;
  roi_projection : option RoiProjection;
  engagement_potential : option Q   (* [scoring_factors.engagement_potential] *)
}.

Record Breakdown : Type := mkBreakdown {
  count : Z;
  exposure_time : Q;
  percentage_of_total : Q
}.

(** One entry of [brand_metrics], per video or combined.  The merged entry has
    no [sentiment_label] key until the averaging branch sets it, and never an
    [ai_insights] key. *)
Record BrandMetric : Type := mkBrandMetric {
  bm_brand : string;
  total_exposure_time : Q;
  total_appearances : Z;
  contextual_value_score : Q;
  high_impact_moments : Z;
  sentiment_score : Q;
  sentiment_label : option string;
  avg_prominence : Q;
  avg_viewer_attention : Q;
  contexts : list string;
  estimated_social_mentions : Z;
  ai_insights : option Insights;
  appearances : list Appearance;
  sb_ad_placements : Breakdown;
  sb_in_game_placements : Breakdown;
  ad_placements : list Appearance;
  in_game_placements : list Appearance
}.

Record Summary : Type := mkSummary {
  video_duration_minutes : Q;
  total_brands_detected : Z;
  total_brand_appearances : Z;
  brands_analyzed : list string
}.

(** The [data] of a completed single-video job *)
Record Analysis : Type := mkAnalysis {
  summary : Summary;
  brand_metrics : list BrandMetric;
  raw_detections : list Appearance;
  video_id : string
}.

Record VideoInfo : Type := mkVideoInfo {
  vi_video_id : string;
  vi_filename : string;
  vi_duration_minutes : Q;
  start_time_seconds : Q;
  end_time_seconds : Q
}.

Record CombinedSummary : Type := mkCombinedSummary {
  total_videos : nat;
  combined_duration_minutes : Q;
  cs_total_brands_detected : nat;
  cs_total_brand_appearances : Z;
  top_performing_brand : option string;
  top_brand_score : Q;
  videos_analyzed : list VideoInfo
}.

(** What [combine_video_analyses] returns.  A falsy entry of
    [individual_analyses] (the empty dict) is [None]. *)
Record Combined : Type := mkCombined {
  combined_summary : CombinedSummary;
  combined_brand_metrics : list BrandMetric;
  c_raw_detections : list Appearance;
  individual_analyses : list (option Analysis);
  c_video_ids : list string
}.

(** ** Dictionaries in insertion order *)

Module PyDict.
Definition dict (V : Type) : Type := list (string * V).

(** [d.get(k)] *)
Fixpoint lookup {V : Type} (k : string) (d : dict V) : option V :=
  match d with
  | [] => None
  | (k', v) :: d' => if String.eqb k' k then Some v else lookup k d'
  end.

(** [d[k] = v]: an existing key keeps its place, a new key goes last *)
Fixpoint assign {V : Type} (k : string) (v : V) (d : dict V) : dict V :=
  match d with
  | [] => [(k, v)]
  | (k', v') :: d' =>
      if String.eqb k' k then (k, v) :: d' else (k', v') :: assign k v d'
  end.

(** [del d[k]] for each key that [drop] selects *)
Definition remove_if {V : Type} (drop : string -> V -> bool) (d : dict V) : dict V :=
  filter (fun kv => negb (drop (fst kv) (snd kv))) d.

Definition keys {V : Type} (d : dict V) : list string := map fst d.
Definition values {V : Type} (d : dict V) : list V := map snd d.
End PyDict.
Import PyDict.

(** ** JobTracker: the class [AnalysisStatus] (lines 50-93) *)

Inductive Status : Type := pending | processing | completed | failed.

Inductive Payload : Type :=
| SingleVideo (a : Analysis)
| MultiVideo (c : Combined).

Record Job : Type := mkJob {
  status : Status;
  progress : Z;
  message : string;
  stage : option string;
  details : option string;
  brands_found : list string;
  data : option Payload;
  error : option string;
  created_at : nat;
  updated_at : nat
}.

(** The [updates] argument of [update_job]: the keys it carries. *)
Record Updates : Type := mkUpdates {
  u_status : option Status;
  u_stage : option string;
  u_progress : option Z;
  u_message : option string;
  u_details : option string;
  u_brands_found : option (list string);
  u_data : option Payload;
  u_error : option string
}.

Module JobTracker.

(** [statuses] and a logical clock standing for [datetime.now()]; the lock
    makes each method one atomic step. *)
Record AnalysisStatus : Type := mkAnalysisStatus {
  statuses : dict Job;
  clock : nat
}.

Definition init : AnalysisStatus := mkAnalysisStatus [] 0.

Definition new_job (now : nat) : Job :=
  mkJob pending 0 "Analysis queued" None None [] None None now now.

Definition create_job (job_id : string) (self : AnalysisStatus) : AnalysisStatus :=
  mkAnalysisStatus (assign job_id (new_job (clock self)) (statuses self))
                   (S (clock self)).

(** [job.update(updates)] followed by the refresh of [updated_at] *)
Definition apply_updates (u : Updates) (now : nat) (j : Job) : Job :=
  mkJob (get (u_status u) (status j))
        (get (u_progress u) (progress j))
        (get (u_message u) (message j))
        (match u_stage u with Some s => Some s | None => stage j end)
        (match u_details u with Some s => Some s | None => details j end)
        (get (u_brands_found u) (brands_found j))
        (match u_data u with Some p => Some p | None => data j end)
        (match u_error u with Some e => Some e | None => error j end)
        (created_at j)
        now.

Definition update_job (job_id : string) (u : Updates) (self : AnalysisStatus)
  : AnalysisStatus :=
  match lookup job_id (statuses self) with
  | Some j =>
      mkAnalysisStatus (assign job_id (apply_updates u (clock self) j) (statuses self))
                       (S (clock self))
  | None => self
  end.

Definition get_job (job_id : string) (self : AnalysisStatus) : option Job :=
  lookup job_id (statuses self).

(** [cleanup_old_jobs]: [hours] is counted in clock ticks *)
Definition cleanup_old_jobs (hours : nat) (self : AnalysisStatus) : AnalysisStatus :=
  let cutoff := (clock self - hours)%nat in
  mkAnalysisStatus
    (remove_if (fun _ j => (created_at j <? cutoff)%nat) (statuses self))
    (clock self).

(** a run of [update_job] calls on one job *)
Definition run_updates (job_id : string) (us : list Updates) (self : AnalysisStatus)
  : AnalysisStatus :=
  fold_left (fun st u => update_job job_id u st) us self.

End JobTracker.
Import JobTracker.

(** ** The scoring collaborator and the helpers around it *)

(** The JSON the scoring service answers with, as far as it is read. *)
Record AiAnalysis : Type := mkAiAnalysis {
  ai_placement_effectiveness_score : option Q;
  ai_roi_projection : option RoiProjection;
  ai_audience_reach : option Q            (* [roi_assessment.audience_reach] *)
}.

(** What happens inside [calculate_ai_contextual_score] once it talks to the
    outside: an answer, no API key configured, or an exception. *)
Inductive ScoreReply : Type :=
| Answered (ai : AiAnalysis)
| Unconfigured
| Failed (msg : string).

(** The remote collaborators of one single-video run. *)
Record Collaborators : Type := mkCollaborators {
  (** [client.analyze] and the extraction of the JSON array from its text:
      the parsed list ([[]] when no array is found or it does not decode),
      or the exception of the call *)
  client_analyze : Py (list Appearance);
  (** [system_metadata.duration], when it could be retrieved *)
  system_duration : option Q;
  (** the scoring service, per brand *)
  scoring : string -> list Appearance -> ScoreReply
}.

(** The two shapes [calculate_ai_contextual_score] returns: the pair
    [(score, ai_analysis)] and, when no API key is configured, a bare dict of
    default values (lines 840-848). *)
Inductive ScoreReturn : Type :=
| ScorePair (score : Q) (ai_insights : Insights)
| DefaultDict.

Module Scoring.
Import Num.
Local Open Scope Q_scope.

Definition empty_insights : Insights := mkInsights None None None.

Definition clamp_0_10 (x : Q) : Q :=
  (* max(0.0, min(10.0, x)) *)
  let m := if Qle_bool x 10 then x else 10 in
  if Qle_bool m 0 then 0 else m.

Definition calculate_ai_contextual_score
    (reply : ScoreReply) (brand_data : list Appearance) : Py ScoreReturn :=
  match brand_data with
  | [] => Return (ScorePair 0 empty_insights)
  | _ =>
      match reply with
      | Answered ai =>
          let placement_score := get (ai_placement_effectiveness_score ai) 50 in
          let score := clamp_0_10 (placement_score / 10) in
          Return (ScorePair score
                    (mkInsights (ai_placement_effectiveness_score ai)
                                (ai_roi_projection ai)
                                (Some (get (ai_audience_reach ai) 5))))
      | Unconfigured => Return DefaultDict
      | Failed msg =>
          Raise ("AI analysis is required for comprehensive brand placement insights. Error: "
                 ++ msg)
      end
  end.

(** [contextual_score, ai_insights = calculate_ai_contextual_score(...)] *)
Definition unpack (r : ScoreReturn) : Py (Q * Insights) :=
  match r with
  | ScorePair s i => Return (s, i)
  | DefaultDict => Raise "too many values to unpack (expected 2)"
  end.

Definition context_bonus (c : string) : Q :=
  if String.eqb c "celebration" then 2000
  else if String.eqb c "game_action" then 1500
  else if String.eqb c "replay" then 1000
  else if String.eqb c "interview" then 750
  else if String.eqb c "goal" then 2500
  else if String.eqb c "scoring" then 2000
  else 0.

(** lines 1008-1060.  The sum is the exact one: where it lies within the
    rounding error of an integer, the float that the code truncates may fall
    on the other side of it, and [int] then gives the neighbouring integer. *)
Definition estimate_social_engagement
    (brand_data : list Appearance) (ai_insights : Insights) : Py Z :=
  match brand_data with
  | [] => Return 0%Z
  | _ =>
      match placement_effectiveness_score ai_insights, roi_projection ai_insights with
      | None, None =>
          Raise ("AI analysis required for social engagement metrics: "
                 ++ "AI insights required for accurate social engagement estimation")
      | pes, roi =>
          let effectiveness_score := get pes 50 / 10 in
          let roi_rating :=
            get (match roi with Some r => overall_roi_rating r | None => None end) 5 in
          let engagement_potential :=
            get (engagement_potential ai_insights) effectiveness_score in
          let base_engagement := 1000 in
          let ai_multiplier := effectiveness_score / 10 + roi_rating / 10 in
          let ai_boosted_engagement :=
            base_engagement * ai_multiplier * (engagement_potential / 10) in
          let total_engagement :=
            fold_left (fun acc appearance =>
                         acc + context_bonus (get (context appearance) ""))
                      brand_data ai_boosted_engagement in
          Return (py_int total_engagement)
      end
  end.
End Scoring.

(** ** The single-video pipeline [analyze_video_with_progress] (lines 1127-1499) *)

Module SingleVideo.
Import PyStr BrandClassifier Num Scoring.
Local Open Scope Q_scope.

(** the per-brand accumulator of lines 1316-1325 *)
Record BrandData : Type := mkBrandData {
  bd_appearances : list Appearance;
  bd_total_exposure_time : Q;
  bd_contexts : dict Z;                   (* a [Counter] *)
  bd_high_impact_moments : Z;
  bd_ad_placements : list Appearance;
  bd_in_game_placements : list Appearance;
  bd_ad_placement_time : Q;
  bd_in_game_placement_time : Q
}.

Definition new_brand_data : BrandData := mkBrandData [] 0 [] 0 [] [] 0 0.

(** lines 1352-1354 *)
Definition high_impact (appearance : Appearance) : bool :=
  mem (get (context appearance) "unknown") ["celebration"; "interview"; "commercial"]
  || is_ (prominence appearance) "primary"
  || is_ (viewer_attention appearance) "high".

(** [timeline[1] - timeline[0]] when [len(timeline) >= 2] *)
Definition exposure_of (appearance : Appearance) : option Q :=
  match get (timeline appearance) [0; 0] with
  | t0 :: t1 :: _ => Some (t1 - t0)
  | _ => None
  end.

(** lines 1309-1313 *)
Definition ensure_category (appearance : Appearance) : Appearance :=
  match sponsorship_category appearance with
  | Some _ => appearance
  | None =>
      set_sponsorship_category appearance
        (categorize_sponsorship_placement (get (type_ appearance) "")
                                          (get (context appearance) ""))
  end.

Definition count_up (c : string) (counter : dict Z) : dict Z :=
  assign c (get (lookup c counter) 0%Z + 1)%Z counter.

(** lines 1327-1355, on the entry of the brand *)
Definition record_appearance (appearance : Appearance) (d : BrandData) : BrandData :=
  let is_ad := is_ (sponsorship_category appearance) "ad_placement" in
  let exposure := exposure_of appearance in
  let ctx := get (context appearance) "unknown" in
  mkBrandData
    (bd_appearances d ++ [appearance])
    (match exposure with Some e => bd_total_exposure_time d + e
                       | None => bd_total_exposure_time d end)
    (count_up ctx (bd_contexts d))
    (if high_impact appearance then (bd_high_impact_moments d + 1)%Z
     else bd_high_impact_moments d)
    (if is_ad then bd_ad_placements d ++ [appearance] else bd_ad_placements d)
    (if is_ad then bd_in_game_placements d else bd_in_game_placements d ++ [appearance])
    (match exposure with
     | Some e => if is_ad then bd_ad_placement_time d + e else bd_ad_placement_time d
     | None => bd_ad_placement_time d end)
    (match exposure with
     | Some e => if is_ad then bd_in_game_placement_time d
                 else bd_in_game_placement_time d + e
     | None => bd_in_game_placement_time d end).

(** one turn of the loop of line 1303 *)
Definition process_appearance (brand_data : dict BrandData) (appearance : Appearance)
  : dict BrandData :=
  let brand_name := strip (get (brand appearance) "") in
  if String.eqb brand_name "" || negb (is_valid_brand brand_name) then brand_data
  else
    let appearance := ensure_category appearance in
    let entry := get (lookup brand_name brand_data) new_brand_data in
    assign brand_name (record_appearance appearance entry) brand_data.

Definition collect_brand_data (brand_appearances : list Appearance) : dict BrandData :=
  fold_left process_appearance brand_appearances [].

Definition prominence_score (app : Appearance) : Q :=
  if is_ (prominence app) "primary" then 1
  else if is_ (prominence app) "secondary" then 6 # 10
  else 3 # 10.

Definition attention_score (app : Appearance) : Q :=
  if is_ (viewer_attention app) "high" then 1
  else if is_ (viewer_attention app) "medium" then 6 # 10
  else 3 # 10.

Definition mean_or_half (l : list Q) : Q :=
  match l with [] => 1 # 2 | _ => mean l end.

Definition percentage (part total : Q) : Q :=
  if Qltb 0 total then round1 (part / total * 100) else 0.

Definition len {A : Type} (l : list A) : Z := Z.of_nat (List.length l).

(** the body of the [try] of lines 1371-1450 *)
Definition brand_metric_of (w : Collaborators) (video_duration : Q)
    (brand_name : string) (d : BrandData) : Py BrandMetric :=
  let avg_sentiment := 8 # 10 in
  r <- calculate_ai_contextual_score (scoring w brand_name (bd_appearances d))
                                     (bd_appearances d) ;;
  p <- unpack r ;;
  let '(contextual_score, ai_insights) := p in
  social_engagement <- estimate_social_engagement (bd_appearances d) ai_insights ;;
  let avg_prominence := mean_or_half (map prominence_score (bd_appearances d)) in
  let avg_attention := mean_or_half (map attention_score (bd_appearances d)) in
  Return (mkBrandMetric
    brand_name
    (round2 (bd_total_exposure_time d))
    (len (bd_appearances d))
    (round1 contextual_score)
    (bd_high_impact_moments d)
    (round2 avg_sentiment)
    (Some (if Qltb (6 # 10) avg_sentiment then "positive" else "neutral")%string)
    (round2 avg_prominence)
    (round2 avg_attention)
    (keys (bd_contexts d))
    social_engagement
    (Some ai_insights)
    (bd_appearances d)
    (mkBreakdown (len (bd_ad_placements d)) (round2 (bd_ad_placement_time d))
                 (percentage (bd_ad_placement_time d) (bd_total_exposure_time d)))
    (mkBreakdown (len (bd_in_game_placements d)) (round2 (bd_in_game_placement_time d))
                 (percentage (bd_in_game_placement_time d) (bd_total_exposure_time d)))
    (bd_ad_placements d)
    (bd_in_game_placements d)).

(** the [except] of lines 1451-1454 *)
Definition brand_metric_or_fail (w : Collaborators) (video_duration : Q)
    (kv : string * BrandData) : Py BrandMetric :=
  match brand_metric_of w video_duration (fst kv) (snd kv) with
  | Return m => Return m
  | Raise brand_error =>
      Raise ("AI analysis is required for brand metrics. Error: " ++ brand_error)
  end.

Definition compute_brand_metrics (w : Collaborators) (video_duration : Q)
    (brand_data : dict BrandData) : Py (list BrandMetric) :=
  mapM (brand_metric_or_fail w video_duration) brand_data.

Definition str_nat (n : nat) : string := NilEmpty.string_of_uint (Nat.to_uint n).

Definition progress_update (stage : string) (progress : Z) (message details : string)
  : Updates :=
  mkUpdates (Some processing) (Some stage) (Some progress) (Some message)
            (Some details) None None None.

Definition with_brands_found (u : Updates) (brands : list string) : Updates :=
  mkUpdates (u_status u) (u_stage u) (u_progress u) (u_message u) (u_details u)
            (Some brands) (u_data u) (u_error u).

(** the update of the [except] at lines 1495-1499 *)
Definition failed_update (e : string) : Updates :=
  mkUpdates (Some failed) None None (Some "Analysis failed") None None None (Some e).

(** the update of lines 1480-1491 *)
Definition completed_update (payload : Analysis) : Updates :=
  mkUpdates (Some completed) None (Some 100%Z) (Some "Analysis complete!") None None
            (Some (SingleVideo payload)) None.

Definition video_duration_of (w : Collaborators) : Q :=
  match system_duration w with
  | Some d => if Qeq_bool d 0 then 300 else d
  | None => 300
  end.

Definition summary_of (video_duration : Q) (brand_data : dict BrandData)
    (brands_to_analyze : list string) : Summary :=
  mkSummary (round1 (video_duration / 60))
            (len brand_data)
            (fold_left Z.add (map (fun d => len (bd_appearances d)) (values brand_data)) 0%Z)
            brands_to_analyze.

(** The [update_job] calls of one run, in program order.  Every statement
    of the function sits inside its [try]; an exception ends the run with
    [failed_update]. *)
Definition analyze_video_with_progress_updates
    (w : Collaborators) (video_id : string) (selected_brands : list string)
  : list Updates :=
  let brands_to_analyze := selected_brands in
  [ progress_update "initialization" 0 "Starting video analysis..."
      "Initializing TwelveLabs connection";
    with_brands_found
      (progress_update "brand_detection" 25
         ("Focusing on " ++ str_nat (List.length brands_to_analyze) ++ " selected brands")
         (String.concat ", " (firstn 5 brands_to_analyze)
          ++ (if (5 <? List.length brands_to_analyze)%nat then "..." else "")))
      brands_to_analyze;
    progress_update "brand_analysis" 30 "Analyzing brand appearances..."
      "Scanning for logos, mentions, and placements";
    progress_update "brand_analysis" 35 "Analyzing video with multimodal AI..."
      "Detecting brands, logos, and sponsorship content" ]
  ++
  match client_analyze w with
  | Raise e => [ failed_update e ]
  | Return brand_appearances =>
      [ progress_update "brand_analysis" 50 "Processing AI response..."
          "Extracting brand detection data";
        progress_update "processing" 60 "Processing brand appearances..."
          ("Analyzing " ++ str_nat (List.length brand_appearances) ++ " detections") ]
      ++
      let video_duration := video_duration_of w in
      let brand_data := collect_brand_data brand_appearances in
      [ progress_update "metrics" 75 "Calculating brand metrics..."
          "Computing exposure scores and insights" ]
      ++
      match compute_brand_metrics w video_duration brand_data with
      | Raise e => [ failed_update e ]
      | Return brand_metrics =>
          [ progress_update "finalizing" 90 "Generating insights..."
              "Creating executive summary";
            completed_update
              (mkAnalysis (summary_of video_duration brand_data brands_to_analyze)
                          brand_metrics
                          (flat_map bd_appearances (values brand_data))
                          video_id) ]
      end
  end.

(** what a run publishes: the [data] of the last update, or the exception
    that reaches the outer [except] *)
Definition outcome (w : Collaborators) (video_id : string)
    (selected_brands : list string) : Py Analysis :=
  brand_appearances <- client_analyze w ;;
  let video_duration := video_duration_of w in
  let brand_data := collect_brand_data brand_appearances in
  brand_metrics <- compute_brand_metrics w video_duration brand_data ;;
  Return (mkAnalysis (summary_of video_duration brand_data selected_brands)
                     brand_metrics
                     (flat_map bd_appearances (values brand_data))
                     video_id).

Definition analyze_video_with_progress
    (w : Collaborators) (video_id job_id : string) (selected_brands : list string)
    (tracker : AnalysisStatus) : AnalysisStatus :=
  run_updates job_id (analyze_video_with_progress_updates w video_id selected_brands)
              tracker.
End SingleVideo.

(** ** TemporalMerger: [combine_video_analyses] (lines 1656-1868) *)

Fixpoint foldM {A B : Type} (f : B -> A -> Py B) (l : list A) (acc : B) : Py B :=
  match l with
  | [] => Return acc
  | a :: l' => acc' <- f acc a ;; foldM f l' acc'
  end.

Module TemporalMerger.
Import Num.
Local Open Scope Q_scope.

(** The copy with the shifted timeline (lines 1683-1690 and the three
    sibling loops).  A one-element timeline is truthy and its index 1 is
    out of range. *)
Definition offset_timeline (cumulative_duration_seconds : Q) (detection : Appearance)
  : Py Appearance :=
  match timeline detection with
  | None | Some [] => Return detection
  | Some [_] => Raise "list index out of range"
  | Some (t0 :: t1 :: _) =>
      Return (set_timeline detection [ t0 + cumulative_duration_seconds;
                                       t1 + cumulative_duration_seconds ])
  end.

(** lines 1712-1730 *)
Definition new_combined (brand_name : string) : BrandMetric :=
  mkBrandMetric brand_name 0 0 0 0 0 None 0 0 [] 0 None []
                (mkBreakdown 0 0 0) (mkBreakdown 0 0 0) [] [].

(** [s.update(l)] on a set.  The order in which [list(s)] yields the
    elements later is not fixed by Python; first-seen order is one such
    order, and nothing is stated about it. *)
Definition set_update (s l : list string) : list string :=
  fold_left (fun s c => if PyStr.mem c s then s else (s ++ [c])%list) l s.

Definition add_breakdown (c b : Breakdown) : Breakdown :=
  mkBreakdown (count c + count b)%Z (exposure_time c + exposure_time b)
              (percentage_of_total c).

(** lines 1733-1787: the entry of the brand takes in one per-video entry *)
Definition absorb (cumulative_duration_seconds : Q)
    (combined brand_metric : BrandMetric) : Py BrandMetric :=
  offset_appearances <-
    mapM (offset_timeline cumulative_duration_seconds) (appearances brand_metric) ;;
  offset_ad_placements <-
    mapM (offset_timeline cumulative_duration_seconds) (ad_placements brand_metric) ;;
  offset_in_game_placements <-
    mapM (offset_timeline cumulative_duration_seconds) (in_game_placements brand_metric) ;;
  Return (mkBrandMetric
     (bm_brand combined)
     (total_exposure_time combined + total_exposure_time brand_metric)
     (total_appearances combined + total_appearances brand_metric)%Z
     (contextual_value_score combined)
     (high_impact_moments combined + high_impact_moments brand_metric)%Z
     (sentiment_score combined)
     (sentiment_label combined)
     (avg_prominence combined)
     (avg_viewer_attention combined)
     (set_update (contexts combined) (contexts brand_metric))
     (estimated_social_mentions combined + estimated_social_mentions brand_metric)%Z
     (ai_insights combined)
     (appearances combined ++ offset_appearances)
     (add_breakdown (sb_ad_placements combined) (sb_ad_placements brand_metric))
     (add_breakdown (sb_in_game_placements combined)
                    (sb_in_game_placements brand_metric))
     (ad_placements combined ++ offset_ad_placements)
     (in_game_placements combined ++ offset_in_game_placements)).

(** one turn of the loop of line 1709 *)
Definition merge_brand_metric (cumulative_duration_seconds : Q)
    (combined_brand_metrics : dict BrandMetric) (brand_metric : BrandMetric)
  : Py (dict BrandMetric) :=
  let brand_name := bm_brand brand_metric in
  let combined :=
    get (lookup brand_name combined_brand_metrics) (new_combined brand_name) in
  entry <- absorb cumulative_duration_seconds combined brand_metric ;;
  Return (assign brand_name entry combined_brand_metrics).

(** the locals of lines 1662-1667 *)
Record Acc : Type := mkAcc {
  acc_combined_brand_metrics : dict BrandMetric;
  acc_all_detections : list Appearance;
  acc_total_duration : Q;
  acc_total_brand_appearances : Z;
  acc_videos_analyzed : list VideoInfo;
  acc_cumulative_duration_seconds : Q
}.

Definition acc0 : Acc := mkAcc [] [] 0 0 [] 0.

(** one turn of the loop of line 1670 *)
Definition merge_analysis (acc : Acc) (analysis : option Analysis) : Py Acc :=
  match analysis with
  | None => Return acc
  | Some a =>
      let cumulative := acc_cumulative_duration_seconds acc in
      let video_duration_seconds := video_duration_minutes (summary a) * 60 in
      offset_detections <- mapM (offset_timeline cumulative) (raw_detections a) ;;
      combined <-
        foldM (merge_brand_metric cumulative) (brand_metrics a)
              (acc_combined_brand_metrics acc) ;;
      Return (mkAcc
        combined
        (acc_all_detections acc ++ offset_detections)
        (acc_total_duration acc + video_duration_minutes (summary a))
        (acc_total_brand_appearances acc + total_brand_appearances (summary a))%Z
        (acc_videos_analyzed acc ++
           [ mkVideoInfo (video_id a)
                         ("Video " ++ substring 0 8 (video_id a))
                         (video_duration_minutes (summary a))
                         cumulative
                         (cumulative + video_duration_seconds) ])
        (cumulative + video_duration_seconds))
  end.

(** the per-video entries of one brand, in the order the loops of lines
    1808-1810 visit them *)
Definition contributing (brand_name : string)
    (individual_analyses : list (option Analysis)) : list BrandMetric :=
  flat_map (fun analysis =>
              match analysis with
              | None => []
              | Some a => filter (fun b => String.eqb (bm_brand b) brand_name)
                                 (brand_metrics a)
              end)
           individual_analyses.

(** [sum(l) / len(l) if l else 0] *)
Definition mean_or_zero (l : list Q) : Q :=
  match l with [] => 0 | _ => mean l end.

(** lines 1822-1827 *)
Definition label_of (sentiment_score : Q) : string :=
  if Qltb (1 # 10) sentiment_score then "positive"
  else if Qltb sentiment_score (- (1 # 10)) then "negative"
  else "neutral".

Definition with_percentage (b : Breakdown) (total_exposure : Q) : Breakdown :=
  mkBreakdown (count b) (exposure_time b) (exposure_time b / total_exposure * 100).

(** the body of the loop of line 1795 *)
Definition finalize (individual_analyses : list (option Analysis))
    (brand_name : string) (metrics : BrandMetric) : BrandMetric :=
  let per_video := contributing brand_name individual_analyses in
  let averaged := (0 <? total_appearances metrics)%Z in
  let sentiment :=
    if averaged then mean_or_zero (map sentiment_score per_video)
    else sentiment_score metrics in
  let total_exposure := total_exposure_time metrics in
  mkBrandMetric
    (bm_brand metrics)
    (total_exposure_time metrics)
    (total_appearances metrics)
    (if averaged then mean_or_zero (map contextual_value_score per_video)
     else contextual_value_score metrics)
    (high_impact_moments metrics)
    sentiment
    (if averaged then Some (label_of sentiment) else sentiment_label metrics)
    (if averaged then mean_or_zero (map avg_prominence per_video)
     else avg_prominence metrics)
    (if averaged then mean_or_zero (map avg_viewer_attention per_video)
     else avg_viewer_attention metrics)
    (contexts metrics)
    (estimated_social_mentions metrics)
    (ai_insights metrics)
    (appearances metrics)
    (if Qltb 0 total_exposure
     then with_percentage (sb_ad_placements metrics) total_exposure
     else sb_ad_placements metrics)
    (if Qltb 0 total_exposure
     then with_percentage (sb_in_game_placements metrics) total_exposure
     else sb_in_game_placements metrics)
    (ad_placements metrics)
    (in_game_placements metrics).

(** [list.sort(key=total_exposure_time, reverse=True)]: stable, so entries
    with equal keys keep their order *)
Fixpoint insert_desc (m : BrandMetric) (l : list BrandMetric) : list BrandMetric :=
  match l with
  | [] => [m]
  | x :: l' =>
      if Qltb (total_exposure_time m) (total_exposure_time x)
      then x :: insert_desc m l'
      else m :: x :: l'
  end.

Definition sort_desc (l : list BrandMetric) : list BrandMetric :=
  fold_right insert_desc [] l.

Definition combine_video_analyses
    (individual_analyses : list (option Analysis)) (video_ids : list string)
  : Py Combined :=
  match individual_analyses with
  | [] => Raise "No successful analyses to combine"
  | _ =>
      acc <- foldM merge_analysis individual_analyses acc0 ;;
      let combined_brand_list :=
        sort_desc (map (fun kv => finalize individual_analyses (fst kv) (snd kv))
                       (acc_combined_brand_metrics acc)) in
      let top_brand := option_map bm_brand (hd_error combined_brand_list) in
      let top_brand_score :=
        match combined_brand_list with
        | m :: _ => contextual_value_score m
        | [] => 0
        end in
      Return (mkCombined
        (mkCombinedSummary (List.length video_ids)
                           (acc_total_duration acc)
                           (List.length combined_brand_list)
                           (acc_total_brand_appearances acc)
                           top_brand
                           top_brand_score
                           (acc_videos_analyzed acc))
        combined_brand_list
        (acc_all_detections acc)
        individual_analyses
        video_ids)
  end.
End TemporalMerger.

(** ** ParallelOrchestrator (lines 1543-1654) *)

Module ParallelOrchestrator.
Import Num SingleVideo TemporalMerger.
Local Open Scope Q_scope.

(** the dict [analyze_single_video_parallel] returns *)
Record UnitResult : Type := mkUnitResult {
  success : bool;
  r_data : option Analysis;
  r_error : option string;
  r_video_id : string
}.

(** The polling loop of lines 1554-1562 either returns on its first turn or,
    the job being touched by nobody else, never. *)
Inductive Polled : Type :=
| Finished (r : UnitResult)
| StillPolling.

Definition poll (video_id : string) (temp_status : option Job) : Polled :=
  match temp_status with
  | None =>
      (* [temp_status['status']] on [None]: caught at line 1564 *)
      Finished (mkUnitResult false None
                  (Some "'NoneType' object is not subscriptable") video_id)
  | Some j =>
      match status j with
      | completed =>
          Finished (mkUnitResult true
                      (match data j with Some (SingleVideo a) => Some a | _ => None end)
                      None video_id)
      | failed => Finished (mkUnitResult false None (error j) video_id)
      | _ => StillPolling
      end
  end.

Definition analyze_single_video_parallel
    (w : Collaborators) (video_id : string) (selected_brands : list string)
    (tracker : AnalysisStatus) : Polled * AnalysisStatus :=
  let temp_job_id := video_id ++ "-temp-" ++ str_nat (clock tracker) in
  let tracker := create_job temp_job_id tracker in
  let tracker := analyze_video_with_progress w video_id temp_job_id selected_brands tracker in
  (poll video_id (get_job temp_job_id tracker), tracker).

(** the dict a unit returns for a run that published [o] *)
Definition unit_result (video_id : string) (o : Py Analysis) : UnitResult :=
  match o with
  | Return a => mkUnitResult true (Some a) None video_id
  | Raise e => mkUnitResult false None (Some e) video_id
  end.

(** The futures in the order [as_completed] yields them: [order] lists the
    request indices by completion.  Each unit works on its own temporary
    job, so the units are run one after the other here. *)
Fixpoint as_completed (worlds : list Collaborators) (video_ids : list string)
    (selected_brands : list string) (order : list nat) (tracker : AnalysisStatus)
  : list Polled * AnalysisStatus :=
  match order with
  | [] => ([], tracker)
  | i :: order' =>
      match nth_error worlds i, nth_error video_ids i with
      | Some w, Some video_id =>
          let '(r, tracker) :=
            analyze_single_video_parallel w video_id selected_brands tracker in
          let '(rs, tracker) :=
            as_completed worlds video_ids selected_brands order' tracker in
          (r :: rs, tracker)
      | _, _ => as_completed worlds video_ids selected_brands order' tracker
      end
  end.

(** [future.result()] for every future; [None] when one never returns *)
Fixpoint results_of (ps : list Polled) : option (list UnitResult) :=
  match ps with
  | [] => Some []
  | Finished r :: ps' => option_map (cons r) (results_of ps')
  | StillPolling :: _ => None
  end.

Definition multi_update (stage : string) (progress : Z) (message details : string)
  : Updates :=
  mkUpdates (Some processing) (Some stage) (Some progress) (Some message)
            (Some details) None None None.

Definition multi_failed_update (e : string) : Updates :=
  mkUpdates (Some failed) None None (Some "Parallel multi-video analysis failed")
            None None None (Some e).

Definition multi_completed_update (n total : nat) (combined_result : Combined)
  : Updates :=
  mkUpdates (Some completed) None (Some 100%Z)
    (Some ("Parallel multi-video analysis completed successfully ("
           ++ str_nat n ++ "/" ++ str_nat total ++ " videos)"))
    None None (Some (MultiVideo combined_result)) None.

(** [int((completed_videos / total_videos) * 80)] *)
Definition progress_of (completed_videos total_videos : nat) : Z :=
  py_int (inject_Z (Z.of_nat completed_videos) / inject_Z (Z.of_nat total_videos) * 80).

(** the list built by line 1606, in completion order *)
Definition successful (results : list UnitResult) : list (option Analysis) :=
  flat_map (fun r => if success r then [r_data r] else []) results.

(** the updates of the loop of line 1598: [completed_videos] counts from
    [done + 1] *)
Fixpoint loop_updates (total_videos done : nat) (results : list UnitResult)
  : list Updates :=
  match results with
  | [] => []
  | r :: results' =>
      let completed_videos := S done in
      multi_update "brand_analysis" (progress_of completed_videos total_videos)
        ("Completed " ++ str_nat completed_videos ++ " of " ++ str_nat total_videos
         ++ " videos...")
        ("Last completed: " ++ r_video_id r)
      :: loop_updates total_videos completed_videos results'
  end.

(** The [update_job] calls of the driver, given what the futures returned
    in completion order. *)
Definition analyze_multiple_videos_with_progress_updates
    (video_ids : list string) (results : list UnitResult) : list Updates :=
  let total_videos := List.length video_ids in
  multi_update "initialization" 0
    ("Starting parallel analysis of " ++ str_nat total_videos ++ " videos...")
    "Initializing parallel multi-video analysis"
  ::
  match video_ids with
  | [] =>
      (* [ThreadPoolExecutor(max_workers=0)] *)
      [ multi_failed_update "max_workers must be greater than 0" ]
  | _ =>
      let individual_analyses := successful results in
      loop_updates total_videos 0 results
      ++
      [ multi_update "finalizing" 85 "Combining analysis results..."
          ("Merging data from " ++ str_nat (List.length individual_analyses)
           ++ " successfully analyzed videos") ]
      ++
      match combine_video_analyses individual_analyses video_ids with
      | Raise e => [ multi_failed_update e ]
      | Return combined_result =>
          [ multi_completed_update (List.length individual_analyses) total_videos
                                   combined_result ]
      end
  end.

(** The loop of line 1598 with its units, on the registry they share with
    the driver.  The units are run one after the other in the order in which
    they complete; each creates and fills its temporary job, and the driver
    reports on its own job when the future returns.  [None]: a unit that
    polls for ever. *)
Fixpoint run_units (worlds : list Collaborators) (video_ids : list string)
    (selected_brands : list string) (order : list nat) (job_id : string)
    (total_videos done : nat) (tracker : AnalysisStatus)
  : option (list UnitResult) * AnalysisStatus :=
  match order with
  | [] => (Some [], tracker)
  | i :: order' =>
      match nth_error worlds i, nth_error video_ids i with
      | Some w, Some video_id =>
          match analyze_single_video_parallel w video_id selected_brands tracker with
          | (Finished r, tracker) =>
              let completed_videos := S done in
              let tracker :=
                update_job job_id
                  (multi_update "brand_analysis"
                     (progress_of completed_videos total_videos)
                     ("Completed " ++ str_nat completed_videos ++ " of "
                      ++ str_nat total_videos ++ " videos...")
                     ("Last completed: " ++ video_id))
                  tracker in
              let '(rs, tracker) :=
                run_units worlds video_ids selected_brands order' job_id
                          total_videos completed_videos tracker in
              (option_map (cons r) rs, tracker)
          | (StillPolling, tracker) => (None, tracker)
          end
      | _, _ =>
          run_units worlds video_ids selected_brands order' job_id
                    total_videos done tracker
      end
  end.

(** The driver on the registry: its own [update_job] calls, and between
    them the units with their temporary jobs. *)
Definition analyze_multiple_videos_with_progress
    (worlds : list Collaborators) (video_ids : list string)
    (selected_brands : list string) (order : list nat) (job_id : string)
    (tracker : AnalysisStatus) : AnalysisStatus :=
  let total_videos := List.length video_ids in
  let tracker :=
    update_job job_id
      (multi_update "initialization" 0
         ("Starting parallel analysis of " ++ str_nat total_videos ++ " videos...")
         "Initializing parallel multi-video analysis")
      tracker in
  match video_ids with
  | [] =>
      update_job job_id (multi_failed_update "max_workers must be greater than 0")
                 tracker
  | _ =>
      match run_units worlds video_ids selected_brands order job_id
                      total_videos 0 tracker with
      | (None, tracker) => tracker
      | (Some results, tracker) =>
          let individual_analyses := successful results in
          let tracker :=
            update_job job_id
              (multi_update "finalizing" 85 "Combining analysis results..."
                 ("Merging data from " ++ str_nat (List.length individual_analyses)
                  ++ " successfully analyzed videos"))
              tracker in
          match combine_video_analyses individual_analyses video_ids with
          | Raise e => update_job job_id (multi_failed_update e) tracker
          | Return combined_result =>
              update_job job_id
                (multi_completed_update (List.length individual_analyses)
                                        total_videos combined_result)
                tracker
          end
      end
  end.
End ParallelOrchestrator.

(** ** The synchronous endpoint [analyze_video]: validation and aggregation
       (lines 2163-2276) *)

Module SyncEndpoint.
Import PyStr BrandClassifier Num SingleVideo.
Local Open Scope Q_scope.

(** One turn of the loop of line 2169: what is appended to [brand_data] and
    what is written to the log. *)
Definition validate_one (appearance : Appearance) : list Appearance * list string :=
  match BrandAppearanceModel.validate appearance with
  | Return validated_app => ([validated_app], [])
  | Raise val_err =>
      (match brand appearance, timeline appearance with
       | Some _, Some _ => [appearance]
       | _, _ => []
       end,
       ["Skipping invalid appearance: " ++ val_err])
  end.

(** lines 2168-2178: [brand_data] and the warnings logged *)
Fixpoint validate_appearances (raw_brand_data : list Appearance)
  : list Appearance * list string :=
  match raw_brand_data with
  | [] => ([], [])
  | appearance :: rest =>
      let '(kept, warned) := validate_one appearance in
      let '(brand_data, warnings) := validate_appearances rest in
      ((kept ++ brand_data)%list, (warned ++ warnings)%list)
  end.

(** the per-brand accumulator of lines 2220-2233 *)
Record BrandSummary : Type := mkBrandSummary {
  bs_appearances : list Appearance;
  bs_total_exposure_time : Q;
  bs_high_impact_moments : Z;
  bs_sentiment_scores : list Q;
  bs_prominence_scores : list Q;
  bs_contexts : list string;
  bs_viewer_attention_scores : list Q;
  bs_ad_placements : list Appearance;
  bs_in_game_placements : list Appearance;
  bs_ad_placement_time : Q;
  bs_in_game_placement_time : Q
}.

Definition new_brand_summary : BrandSummary :=
  mkBrandSummary [] 0 0 [] [] [] [] [] [] 0 0.

(** line 2260 *)
Definition high_impact (appearance : Appearance) : bool :=
  mem (get (context appearance) "unknown") ["celebration"; "replay"; "game_action"].

(** line 2244 *)
Definition exposure_of (appearance : Appearance) : option Q :=
  match timeline appearance with
  | Some [t0; t1] => Some (t1 - t0)
  | _ => None
  end.

Definition prominence_score (appearance : Appearance) : Q :=
  let prominence := get (prominence appearance) "secondary" in
  if String.eqb prominence "primary" then 1
  else if String.eqb prominence "secondary" then 1 # 2
  else if String.eqb prominence "background" then 2 # 10
  else 1 # 2.

Definition sentiment_score_of (appearance : Appearance) : Q :=
  let sentiment := get (sentiment_context appearance) "neutral" in
  if String.eqb sentiment "positive" then 1
  else if String.eqb sentiment "negative" then - (1)
  else 0.

Definition attention_score (appearance : Appearance) : Q :=
  let attention := get (viewer_attention appearance) "medium" in
  if String.eqb attention "high" then 1
  else if String.eqb attention "medium" then 6 # 10
  else if String.eqb attention "low" then 3 # 10
  else 6 # 10.

Definition record_appearance (appearance : Appearance) (s : BrandSummary)
  : BrandSummary :=
  let is_ad := is_ (sponsorship_category appearance) "ad_placement" in
  let exposure := exposure_of appearance in
  let ctx := get (context appearance) "unknown" in
  mkBrandSummary
    (bs_appearances s ++ [appearance])
    (match exposure with Some e => bs_total_exposure_time s + e
                       | None => bs_total_exposure_time s end)
    (if high_impact appearance then (bs_high_impact_moments s + 1)%Z
     else bs_high_impact_moments s)
    (bs_sentiment_scores s ++ [sentiment_score_of appearance])
    (bs_prominence_scores s ++ [prominence_score appearance])
    (if mem ctx (bs_contexts s) then bs_contexts s else bs_contexts s ++ [ctx])
    (bs_viewer_attention_scores s ++ [attention_score appearance])
    (if is_ad then bs_ad_placements s ++ [appearance] else bs_ad_placements s)
    (if is_ad then bs_in_game_placements s else bs_in_game_placements s ++ [appearance])
    (match exposure with
     | Some e => if is_ad then bs_ad_placement_time s + e else bs_ad_placement_time s
     | None => bs_ad_placement_time s end)
    (match exposure with
     | Some e => if is_ad then bs_in_game_placement_time s
                 else bs_in_game_placement_time s + e
     | None => bs_in_game_placement_time s end).

(** one turn of the loop of line 2209 *)
Definition summarize_appearance (brand_summary : dict BrandSummary)
    (appearance : Appearance) : dict BrandSummary :=
  let brand_name := get (brand appearance) "Unknown" in
  let appearance := ensure_category appearance in
  let entry := get (lookup brand_name brand_summary) new_brand_summary in
  assign brand_name (record_appearance appearance entry) brand_summary.

Definition summarize (brand_data : list Appearance) : dict BrandSummary :=
  fold_left summarize_appearance brand_data [].
End SyncEndpoint.

(** ** Upload filter: [allowed_file] (lines 135-137) *)

Module Uploads.
Import PyStr.

Definition ALLOWED_EXTENSIONS : list string :=
  [ "mp4"; "avi"; "mov"; "wmv"; "flv"; "webm"; "mkv" ].

(** [filename.rsplit('.', 1)[1]] when [filename] holds a dot: the text after
    the last one *)
Fixpoint after_last_dot (filename : string) : option string :=
  match filename with
  | EmptyString => None
  | String c rest =>
      match after_last_dot rest with
      | Some ext => Some ext
      | None => if Ascii.eqb c "."%char then Some rest else None
      end
  end.

Definition allowed_file (filename : string) : bool :=
  match after_last_dot filename with
  | Some ext => mem (lower ext) ALLOWED_EXTENSIONS
  | None => false
  end.

End Uploads.

(** ** Placement effectiveness: [calculate_placement_effectiveness]
       (lines 649-703) *)

Module Placement.
Import PyStr Num.
Local Open Scope Q_scope.

Record EngagementWindow : Type := mkWindow {
  time_range : Q * Q;
  ew_duration : Q;
  ew_type : string;
  quality : string;
  ew_context : string
}.

Record PlacementMetrics : Type := mkPlacementMetrics {
  optimal_placements : Z;
  suboptimal_placements : Z;
  missed_opportunities : list string;
  placement_score : Q;
  average_duration : Q;
  total_screen_time : Q;
  screen_time_percentage : Q;
  engagement_windows : list EngagementWindow;
  recommendations : list string
}.

Definition optimal_keywords : list string :=
  [ "goal"; "celebration"; "replay"; "highlight"; "scoring" ].

(** line 673 *)
Definition is_optimal (app : Appearance) : bool :=
  existsb (fun keyword => contains keyword (lower (get (description app) "")))
          optimal_keywords.

(** the locals the loop of line 666 updates *)
Record Tally : Type := mkTally {
  t_optimal : Z;
  t_suboptimal : Z;
  t_windows : list EngagementWindow
}.

(** one turn of the loop: only an appearance with a two-point timeline is
    counted *)
Definition tally_appearance (t : Tally) (app : Appearance) : Tally :=
  match timeline app with
  | Some [start_time; end_time] =>
      let optimal := is_optimal app in
      mkTally
        (if optimal then (t_optimal t + 1)%Z else t_optimal t)
        (if optimal then t_suboptimal t else (t_suboptimal t + 1)%Z)
        (t_windows t ++
           [ mkWindow (start_time, end_time) (end_time - start_time)
                      (get (type_ app) "unknown")
                      (if optimal then "optimal" else "suboptimal")
                      (get (context app) "unknown") ])
  | _ => t
  end.

(** [None] is the empty dict returned for an empty [brand_data] *)
Definition calculate_placement_effectiveness
    (brand_data : list Appearance) (video_duration : Q) : option PlacementMetrics :=
  match brand_data with
  | [] => None
  | _ =>
      let t := fold_left tally_appearance brand_data (mkTally 0 0 []) in
      let total_placements := (t_optimal t + t_suboptimal t)%Z in
      let durations := map ew_duration (t_windows t) in
      Some (mkPlacementMetrics
        (t_optimal t)
        (t_suboptimal t)
        []
        (if (0 <? total_placements)%Z
         then inject_Z (t_optimal t) / inject_Z total_placements * 100
         else 0)
        (match durations with [] => 0 | _ => mean durations end)
        (Qsum durations)
        (if Qltb 0 video_duration then Qsum durations / video_duration * 100 else 0)
        (t_windows t)
        [])
  end.

End Placement.

(** ** Observing a job through a run *)

Module Lifecycle.

(** the job as [get_job] shows it before the first call and after each
    [update_job] call *)
Fixpoint snapshots (job_id : string) (us : list Updates) (tracker : AnalysisStatus)
  : list (option Job) :=
  get_job job_id tracker ::
  match us with
  | [] => []
  | u :: us' => snapshots job_id us' (update_job job_id u tracker)
  end.

(** the job at the end of a run *)
Definition final (job_id : string) (us : list Updates) (tracker : AnalysisStatus)
  : option Job :=
  get_job job_id (run_updates job_id us tracker).

(** pending -> processing -> {completed | failed}; a processing job may be
    reported again as processing; nothing leaves a terminal status *)
Definition transition (s s' : Status) : bool :=
  match s, s' with
  | pending, processing
  | processing, processing
  | processing, completed
  | processing, failed => true
  | _, _ => false
  end.

Definition terminal (s : Status) : bool :=
  match s with completed | failed => true | _ => false end.

Definition step_ok (j j' : Job) : Prop :=
  transition (status j) (status j') = true /\ (progress j <= progress j')%Z.

(** the result payload and the error are unset before the terminal status,
    and exactly one of them is set in it *)
Definition state_ok (j : Job) : Prop :=
  match status j with
  | pending | processing => data j = None /\ error j = None
  | completed => data j <> None /\ error j = None
  | failed => data j = None /\ error j <> None
  end.

Fixpoint chain {A : Type} (R : A -> A -> Prop) (l : list A) : Prop :=
  match l with
  | x :: (y :: _) as l' => R x y /\ chain R l'
  | _ => True
  end.

(** the same run seen from the job alone: [now] is the clock at the first
    call *)
Fixpoint trace (us : list Updates) (now : nat) (j : Job) : list Job :=
  j ::
  match us with
  | [] => []
  | u :: us' => trace us' (S now) (apply_updates u now j)
  end.

Definition lifecycle (js : list Job) : Prop :=
  option_map status (hd_error js) = Some pending
  /\ chain step_ok js
  /\ Forall state_ok js
  /\ (exists j, last js j = j /\ In j js /\ terminal (status j) = true).

End Lifecycle.

(** ** The specification's wording of two rules *)

Module Spec.
Import SyncEndpoint.

(** "any appearance whose context is one of celebration, interview,
    commercial, or whose prominence is primary, or whose viewer_attention is
    high" *)
Definition high_impact_rule (a : Appearance) : bool :=
  (is_ (context a) "celebration" || is_ (context a) "interview"
   || is_ (context a) "commercial")
  || is_ (prominence a) "primary"
  || is_ (viewer_attention a) "high".

Definition count_high_impact (l : list Appearance) : Z :=
  Z.of_nat (List.length (filter high_impact_rule l)).

(** the rule the synchronous endpoint applies instead *)
Definition sync_high_impact_rule (a : Appearance) : bool :=
  is_ (context a) "celebration" || is_ (context a) "replay"
  || is_ (context a) "game_action".

(** a surfaced record is flagged when it carries a mark the raw record did
    not have: it differs from the raw record in some key or value *)
Definition flagged (raw out : Appearance) : Prop := out <> raw.

(** "a record that fails validation but has brand and timeline surfaces in
    the output, flagged" *)
Definition salvaged_records_are_flagged : Prop :=
  forall (raw_brand_data : list Appearance) (r : Appearance) (e : string),
    In r raw_brand_data ->
    BrandAppearanceModel.validate r = Raise e ->
    brand r <> None -> timeline r <> None ->
    exists out,
      In out (fst (validate_appearances raw_brand_data))
      /\ brand out = brand r /\ timeline out = timeline r
      /\ flagged r out.

End Spec.

(** ** Sample inputs *)

Module Sample.
Local Open Scope Q_scope.

Definition detection (b : string) (t0 t1 : Q) (ctx prom : string) : Appearance :=
  mkAppearance (Some [t0; t1]) (Some b) (Some "logo") (Some "in_game_placement") None
    (Some prom) (Some ctx) (Some "logo on the front of the jersey") (Some "positive")
    (Some "medium") [].

(** end before start: refused by [validate_timeline] *)
Definition reversed : Appearance := detection "Nike" 20 10 "game_action" "secondary".

Definition interview : Appearance := detection "Nike" 10 20 "interview" "primary".

Definition answer (placement_score : Q) : AiAnalysis :=
  mkAiAnalysis (Some placement_score) (Some (mkRoi (Some 6) None)) (Some 5).

(** a run in which both services answer *)
Definition world (detections : list Appearance) (duration placement_score : Q)
  : Collaborators :=
  mkCollaborators (Return detections) (Some duration)
                  (fun _ _ => Answered (answer placement_score)).

(** a run in which the scoring service raises *)
Definition world_no_scoring (detections : list Appearance) : Collaborators :=
  mkCollaborators (Return detections) (Some 600) (fun _ _ => Failed "timed out").

(** a run in which the vision service raises *)
Definition world_down : Collaborators :=
  mkCollaborators (Raise "connection refused") None (fun _ _ => Failed "timed out").

Definition failure (video_id : string) : ParallelOrchestrator.UnitResult :=
  ParallelOrchestrator.mkUnitResult false None (Some "connection refused") video_id.

Definition no_analysis : Analysis := mkAnalysis (mkSummary 0 0 0 []) [] [] "".

Definition published (o : Py Analysis) : Analysis :=
  match o with Return a => a | Raise _ => no_analysis end.

(** what the single-video pipeline publishes for three videos: Nike at
    [10,20] in a 600 s video scored 60, Nike at [5,15] in a 600 s video
    scored 80, and Adidas alone in a 300 s video *)
Definition video1 : Analysis :=
  Eval vm_compute in
    published (SingleVideo.outcome
                 (world [detection "Nike" 10 20 "game_action" "secondary"] 600 60)
                 "v1" ["Nike"]).

Definition video2 : Analysis :=
  Eval vm_compute in
    published (SingleVideo.outcome
                 (world [detection "Nike" 5 15 "replay" "primary"] 600 80)
                 "v2" ["Nike"]).

Definition video3 : Analysis :=
  Eval vm_compute in
    published (SingleVideo.outcome
                 (world [detection "Adidas" 30 45 "celebration" "primary"] 300 50)
                 "v3" ["Nike"]).

End Sample.

(** * Properties *)

(** ** Strings *)

Lemma prefix_iff (n h : string) :
  prefix n h = true <-> exists post, h = n ++ post.
Proof.
  revert h; induction n as [|c n IH]; intros h; simpl.
  - split; [intros _; now exists h | intros _; now destruct h].
  - destruct h as [|c' h].
    + split; [discriminate | intros [post H]; discriminate].
    + simpl. destruct (ascii_dec c c') as [->|Hne].
      * rewrite IH. split; intros [post H]; exists post.
        -- now rewrite H.
        -- now inversion H.
      * split; [discriminate | intros [post H]; inversion H; congruence].
Qed.

(** [contains] is Python's substring test. *)
Lemma contains_iff (n h : string) :
  PyStr.contains n h = true <-> exists pre post, h = pre ++ n ++ post.
Proof.
  induction h as [|c h IH]; cbn [PyStr.contains].
  - rewrite orb_false_r, prefix_iff. split.
    + intros [post H]. now exists "", post.
    + intros [pre [post H]]. destruct pre; [now exists post | discriminate].
  - rewrite orb_true_iff, prefix_iff, IH. split.
    + intros [[post H] | [pre [post H]]].
      * now exists "", post.
      * exists (String c pre), post. simpl. now rewrite H.
    + intros [pre [post H]]. destruct pre as [|c' pre]; simpl in H.
      * left. now exists post.
      * right. inversion H. now exists pre, post.
Qed.

(** ** BrandClassifier *)

Lemma hits_keyword_iff (s : string) :
  BrandClassifier.hits_keyword s = true <->
  exists keyword pre post,
    In keyword BrandClassifier.non_brand_keywords /\ s = pre ++ keyword ++ post.
Proof.
  unfold BrandClassifier.hits_keyword. rewrite existsb_exists. split.
  - intros [k [Hin Hc]]. apply contains_iff in Hc as [pre [post H]].
    now exists k, pre, post.
  - intros [k [pre [post [Hin H]]]]. exists k. split; [assumption|].
    apply contains_iff. now exists pre, post.
Qed.

(** The keyword loop comes before every accepting branch: once the lowered
    name holds a blocked keyword the answer is [False], whatever else the
    name holds. *)
Lemma keyword_hit_rejects (brand_name : string) :
  BrandClassifier.hits_keyword (PyStr.lower (PyStr.strip brand_name)) = true ->
  BrandClassifier.is_valid_brand brand_name = false.
Proof.
  intros H. unfold BrandClassifier.is_valid_brand.
  destruct (BrandClassifier.looks_like_person _); [reflexivity|].
  now rewrite H.
Qed.

(** C10. [is_valid_brand] rejects by substring: a name whose stripped,
    lowercased form holds a blocked keyword anywhere (not as a whole word)
    and holds no allow-listed brand is rejected. *)
Theorem is_valid_brand_rejects_keyword_substring
    (brand_name keyword pre post : string) :
  In keyword BrandClassifier.non_brand_keywords ->
  PyStr.lower (PyStr.strip brand_name) = pre ++ keyword ++ post ->
  BrandClassifier.hits_known_brand (PyStr.lower (PyStr.strip brand_name)) = false ->
  BrandClassifier.is_valid_brand brand_name = false.
Proof.
  intros Hin Hsub _. apply keyword_hit_rejects, hits_keyword_iff.
  now exists keyword, pre, post.
Qed.

(** "Allstate" holds "state" after "all" and is rejected. *)
Lemma is_valid_brand_rejects_Allstate :
  BrandClassifier.is_valid_brand "Allstate" = false.
Proof.
  apply (is_valid_brand_rejects_keyword_substring "Allstate" "state" "all" "").
  - simpl. tauto.
  - reflexivity.
  - reflexivity.
Defined.

Example is_valid_brand_State_Farm :
  BrandClassifier.is_valid_brand "State Farm" = false.
Proof. reflexivity. Qed.

(** The allow-list does not rescue a name that holds a keyword: the test of
    line 188 is only reached by names the keyword loop let through. *)
Example is_valid_brand_Microsoft_Teams :
  BrandClassifier.hits_known_brand (PyStr.lower (PyStr.strip "Microsoft Teams")) = true
  /\ BrandClassifier.is_valid_brand "Microsoft Teams" = false.
Proof. split; reflexivity. Qed.

Example is_valid_brand_Nike : BrandClassifier.is_valid_brand "Nike" = true.
Proof. reflexivity. Qed.

Example is_valid_brand_Ford : BrandClassifier.is_valid_brand "Ford" = true.
Proof. reflexivity. Qed.

Example is_valid_brand_high_school :
  BrandClassifier.is_valid_brand "Springfield High School" = false.
Proof. reflexivity. Qed.

Example split_words : PyStr.split "  State   Farm " = ["State"; "Farm"].
Proof. reflexivity. Qed.

Example strip_both_sides : PyStr.strip "  State  Farm  " = "State  Farm".
Proof. reflexivity. Qed.

Lemma categorize_commercial (context : string) :
  BrandClassifier.categorize_sponsorship_placement "commercial" context = "ad_placement".
Proof. reflexivity. Qed.

Lemma categorize_logo (context : string) :
  BrandClassifier.categorize_sponsorship_placement "logo" context = "in_game_placement".
Proof. reflexivity. Qed.

(** ** The result type *)

Lemma mapM_Raise {A B : Type} (f : A -> Py B) (l : list A) (a : A) (e : string) :
  In a l -> f a = Raise e -> exists e', mapM f l = Raise e'.
Proof.
  induction l as [|x l IH]; simpl; [contradiction|].
  intros [->|Hin] Hf.
  - rewrite Hf. simpl. now exists e.
  - destruct (f x); simpl; [|now eexists].
    destruct (IH Hin Hf) as [e' ->]. simpl. now exists e'.
Qed.

Lemma mapM_total {A B : Type} (f : A -> Py B) (l : list A) :
  (forall a, In a l -> exists b, f a = Return b) ->
  exists bs, mapM f l = Return bs.
Proof.
  induction l as [|x l IH]; simpl; intros H.
  - now exists [].
  - destruct (H x (or_introl eq_refl)) as [b ->].
    destruct IH as [bs ->]; [intros a Ha; apply H; now right|].
    simpl. now eexists.
Qed.

Lemma mapM_In {A B : Type} (f : A -> Py B) (l : list A) (bs : list B) (b : B) :
  mapM f l = Return bs -> In b bs -> exists a, In a l /\ f a = Return b.
Proof.
  revert bs; induction l as [|x l IH]; intros bs; simpl.
  - intros [= <-] [].
  - destruct (f x) as [b0|] eqn:Hx; simpl; [|discriminate].
    destruct (mapM f l) as [bs0|]; simpl; [|discriminate].
    intros [= <-] [<-|Hin].
    + exists x. now split; [left|].
    + destruct (IH _ eq_refl Hin) as [a [Ha Hf]]. exists a. now split; [right|].
Qed.

(** ** Dictionaries *)

Lemma lookup_assign_same {V : Type} (k : string) (v : V) (d : dict V) :
  lookup k (assign k v d) = Some v.
Proof.
  induction d as [|[k' v'] d IH]; simpl.
  - now rewrite String.eqb_refl.
  - destruct (String.eqb k' k) eqn:E; simpl.
    + now rewrite String.eqb_refl.
    + now rewrite E.
Qed.

Lemma lookup_assign_other {V : Type} (k k0 : string) (v : V) (d : dict V) :
  k0 <> k -> lookup k (assign k0 v d) = lookup k d.
Proof.
  intros Hne. induction d as [|[k' v'] d IH]; simpl.
  - apply String.eqb_neq in Hne. now rewrite Hne.
  - destruct (String.eqb k' k0) eqn:E; simpl.
    + apply String.eqb_eq in E. subst k'.
      apply String.eqb_neq in Hne. now rewrite Hne.
    + destruct (String.eqb k' k); [reflexivity | assumption].
Qed.

Lemma lookup_In {V : Type} (k : string) (v : V) (d : dict V) :
  lookup k d = Some v -> In (k, v) d.
Proof.
  induction d as [|[k' v'] d IH]; simpl; [discriminate|].
  destruct (String.eqb k' k) eqn:E.
  - apply String.eqb_eq in E. subst. intros [= ->]. now left.
  - intros H. right. now apply IH.
Qed.

(** every entry of [assign k v d] is [(k, v)] or an entry of [d] *)
Lemma In_assign {V : Type} (k : string) (v : V) (d : dict V) (kv : string * V) :
  In kv (assign k v d) -> kv = (k, v) \/ In kv d.
Proof.
  induction d as [|[k' v'] d IH]; simpl.
  - intros [<-|[]]. now left.
  - destruct (String.eqb k' k); simpl.
    + intros [<-|H]; [now left | right; now right].
    + intros [<-|H]; [right; now left|].
      destruct (IH H) as [->|H']; [now left | right; now right].
Qed.

(** a property of the entries that every turn of an accumulating loop
    keeps holds of the dictionary the loop builds *)
Lemma fold_left_invariant {A St : Type} (P : St -> Prop) (f : St -> A -> St)
    (l : list A) (s : St) :
  P s -> (forall s a, P s -> P (f s a)) -> P (fold_left f l s).
Proof.
  revert s; induction l as [|a l IH]; intros s Hs Hf; simpl; [assumption|].
  apply IH; [now apply Hf | assumption].
Qed.

(** ** JobTracker *)

Lemma get_job_create_job (job_id : string) (tracker : AnalysisStatus) :
  get_job job_id (create_job job_id tracker) = Some (new_job (clock tracker)).
Proof. apply lookup_assign_same. Qed.

Lemma get_job_update_job (job_id : string) (u : Updates) (tracker : AnalysisStatus) (j : Job) :
  get_job job_id tracker = Some j ->
  get_job job_id (update_job job_id u tracker) = Some (apply_updates u (clock tracker) j)
  /\ clock (update_job job_id u tracker) = S (clock tracker).
Proof.
  unfold get_job, update_job. intros ->. simpl. split; [apply lookup_assign_same | reflexivity].
Qed.

(** [update_job] on an unknown id changes nothing. *)
Lemma update_job_unknown (job_id : string) (u : Updates) (tracker : AnalysisStatus) :
  get_job job_id tracker = None -> update_job job_id u tracker = tracker.
Proof. unfold get_job, update_job. now intros ->. Qed.

Lemma snapshots_trace (job_id : string) (us : list Updates) :
  forall (tracker : AnalysisStatus) (j : Job),
    get_job job_id tracker = Some j ->
    Lifecycle.snapshots job_id us tracker = map Some (Lifecycle.trace us (clock tracker) j).
Proof.
  induction us as [|u us IH]; intros tracker j Hj; simpl.
  - now rewrite Hj.
  - rewrite Hj. f_equal.
    destruct (get_job_update_job job_id u tracker j Hj) as [Hget Hclock].
    rewrite (IH _ _ Hget). now rewrite Hclock.
Qed.

Lemma last_default {A : Type} (l : list A) (d d' : A) :
  l <> [] -> last l d = last l d'.
Proof.
  induction l as [|x l IH]; [congruence|]. intros _.
  destruct l as [|y l]; [reflexivity|].
  change (last (y :: l) d = last (y :: l) d'). now apply IH.
Qed.

Lemma trace_nonempty (us : list Updates) (now : nat) (j : Job) :
  Lifecycle.trace us now j <> [].
Proof. destruct us; discriminate. Qed.

Lemma last_trace_cons (u : Updates) (us : list Updates) (now : nat) (j : Job) :
  last (Lifecycle.trace (u :: us) now j) j =
  last (Lifecycle.trace us (S now) (apply_updates u now j)) (apply_updates u now j).
Proof.
  cbn [Lifecycle.trace].
  pose proof (trace_nonempty us (S now) (apply_updates u now j)) as Hne.
  destruct (Lifecycle.trace us (S now) (apply_updates u now j)) as [|x l] eqn:E;
    [congruence|].
  change (last (x :: l) j = last (x :: l) (apply_updates u now j)).
  now apply last_default.
Qed.

Lemma final_trace (job_id : string) (us : list Updates) :
  forall (tracker : AnalysisStatus) (j : Job),
    get_job job_id tracker = Some j ->
    Lifecycle.final job_id us tracker = Some (last (Lifecycle.trace us (clock tracker) j) j).
Proof.
  unfold Lifecycle.final, run_updates.
  induction us as [|u us IH]; intros tracker j Hj.
  - assumption.
  - destruct (get_job_update_job job_id u tracker j Hj) as [Hget Hclock].
    cbn [fold_left]. rewrite (IH _ _ Hget), Hclock.
    now rewrite last_trace_cons.
Qed.

(** *** The shape of a run: progress reports, then one terminal report *)

Definition is_progress (lo : Z) (u : Updates) (q : Z) : Prop :=
  u_status u = Some processing /\ u_progress u = Some q /\ (lo <= q)%Z
  /\ u_data u = None /\ u_error u = None.

Definition is_failure (u : Updates) : Prop :=
  u_status u = Some failed /\ u_progress u = None
  /\ u_data u = None /\ u_error u <> None.

Definition is_completion (lo : Z) (u : Updates) : Prop :=
  u_status u = Some completed
  /\ (exists q, u_progress u = Some q /\ (lo <= q)%Z)
  /\ u_data u <> None /\ u_error u = None.

Inductive run_shape : Z -> list Updates -> Prop :=
| shape_failure lo u : is_failure u -> run_shape lo [u]
| shape_completion lo u : is_completion lo u -> run_shape lo [u]
| shape_progress lo u q us :
    is_progress lo u q -> run_shape q us -> run_shape lo (u :: us).

Lemma run_shape_weaken (lo lo' : Z) (us : list Updates) :
  (lo' <= lo)%Z -> run_shape lo us -> run_shape lo' us.
Proof.
  intros Hle H. destruct H as [lo u Hu | lo u Hu | lo u q us Hu Hus].
  - now apply shape_failure.
  - apply shape_completion. destruct Hu as [H1 [[q [H2 H3]] H4]].
    split; [assumption|]. split; [exists q; split; [assumption | lia] | assumption].
  - apply (shape_progress lo' u q us); [|assumption].
    destruct Hu as [H1 [H2 [H3 H4]]]. repeat split; try tauto. lia.
Qed.

(** progress reports only, from [lo] up to [hi] *)
Inductive progress_run : Z -> list Updates -> Z -> Prop :=
| progress_nil lo : progress_run lo [] lo
| progress_cons lo u q us hi :
    is_progress lo u q -> progress_run q us hi -> progress_run lo (u :: us) hi.

Lemma run_shape_app (lo hi : Z) (us vs : list Updates) :
  progress_run lo us hi -> run_shape hi vs -> run_shape lo (us ++ vs).
Proof.
  intros Hus Hvs. induction Hus as [lo | lo u q us hi Hu Hus IH]; simpl.
  - assumption.
  - apply (shape_progress lo u q); [assumption | now apply IH].
Qed.

Lemma apply_progress (lo q : Z) (u : Updates) (now : nat) (j : Job) :
  is_progress lo u q ->
  status (apply_updates u now j) = processing
  /\ progress (apply_updates u now j) = q
  /\ data (apply_updates u now j) = data j
  /\ error (apply_updates u now j) = error j.
Proof.
  intros [H1 [H2 [_ [H3 H4]]]]. unfold apply_updates; simpl.
  now rewrite H1, H2, H3, H4.
Qed.

Lemma apply_failure (u : Updates) (now : nat) (j : Job) :
  is_failure u -> data j = None ->
  status (apply_updates u now j) = failed
  /\ progress (apply_updates u now j) = progress j
  /\ data (apply_updates u now j) = None
  /\ error (apply_updates u now j) <> None.
Proof.
  intros [H1 [H2 [H3 H4]]] Hd. unfold apply_updates; simpl.
  rewrite H1, H2, H3. repeat split; try assumption.
  destruct (u_error u); [discriminate | congruence].
Qed.

Lemma apply_completion (lo : Z) (u : Updates) (now : nat) (j : Job) :
  is_completion lo u -> error j = None ->
  status (apply_updates u now j) = completed
  /\ (lo <= progress (apply_updates u now j))%Z
  /\ data (apply_updates u now j) <> None
  /\ error (apply_updates u now j) = None.
Proof.
  intros [H1 [[q [H2 H2']] [H3 H4]]] He. unfold apply_updates; simpl.
  rewrite H1, H2, H4. repeat split; try assumption.
  destruct (u_data u); [discriminate | congruence].
Qed.

Lemma run_shape_trace (lo : Z) (us : list Updates) :
  run_shape lo us ->
  forall (now : nat) (j : Job),
    status j = processing -> (progress j <= lo)%Z -> data j = None -> error j = None ->
    Lifecycle.chain Lifecycle.step_ok (Lifecycle.trace us now j)
    /\ Forall Lifecycle.state_ok (Lifecycle.trace us now j)
    /\ (exists j', last (Lifecycle.trace us now j) j = j'
                   /\ In j' (Lifecycle.trace us now j)
                   /\ Lifecycle.terminal (status j') = true).
Proof.
  induction 1 as [lo u Hu | lo u Hu | lo u q us Hu Hus IH];
    intros now j Hs Hp Hd He;
    assert (Hj : Lifecycle.state_ok j) by (unfold Lifecycle.state_ok; now rewrite Hs).
  - destruct (apply_failure u now j Hu Hd) as [A1 [A2 [A3 A4]]].
    cbn [Lifecycle.trace Lifecycle.chain last].
    split; [|split].
    + split; [|exact I]. unfold Lifecycle.step_ok. rewrite Hs, A1, A2.
      split; [reflexivity | lia].
    + repeat constructor; [exact Hj|]. unfold Lifecycle.state_ok. now rewrite A1.
    + eexists. split; [reflexivity|]. split; [right; now left|]. now rewrite A1.
  - destruct (apply_completion lo u now j Hu He) as [A1 [A2 [A3 A4]]].
    cbn [Lifecycle.trace Lifecycle.chain last].
    split; [|split].
    + split; [|exact I]. unfold Lifecycle.step_ok. rewrite Hs, A1.
      split; [reflexivity | lia].
    + repeat constructor; [exact Hj|]. unfold Lifecycle.state_ok. now rewrite A1.
    + eexists. split; [reflexivity|]. split; [right; now left|]. now rewrite A1.
  - destruct (apply_progress lo q u now j Hu) as [A1 [A2 [A3 A4]]].
    assert (Hle : (lo <= q)%Z) by (destruct Hu as [_ [_ [H _]]]; exact H).
    destruct (IH (S now) (apply_updates u now j)) as [C [F [j' [L [I T]]]]];
      [assumption | lia | congruence | congruence |].
    rewrite last_trace_cons. cbn [Lifecycle.trace].
    split; [|split].
    + destruct us as [|u' us]; [inversion Hus|].
      cbn [Lifecycle.trace Lifecycle.chain] in *.
      split; [|exact C].
      unfold Lifecycle.step_ok. rewrite Hs, A1, A2. split; [reflexivity | lia].
    + constructor; [exact Hj | exact F].
    + exists j'. split; [assumption|]. split; [now right | assumption].
Qed.

(** A run that opens with a progress report on a fresh job goes through the
    whole life cycle. *)
Lemma fresh_run_lifecycle (u0 : Updates) (q : Z) (us : list Updates) (now t : nat) :
  is_progress 0 u0 q -> run_shape q us ->
  Lifecycle.lifecycle (Lifecycle.trace (u0 :: us) now (new_job t)).
Proof.
  intros Hu Hus.
  destruct (apply_progress 0 q u0 now (new_job t) Hu) as [A1 [A2 [A3 A4]]].
  assert (Hle : (0 <= q)%Z) by (destruct Hu as [_ [_ [H _]]]; exact H).
  destruct (run_shape_trace q us Hus (S now) (apply_updates u0 now (new_job t)))
    as [C [F [j' [L [I T]]]]]; [assumption | lia | now rewrite A3 | now rewrite A4 |].
  unfold Lifecycle.lifecycle. split; [reflexivity|].
  split; [|split].
  - cbn [Lifecycle.trace]. destruct us as [|u' us]; [inversion Hus|].
    cbn [Lifecycle.trace Lifecycle.chain] in *.
    split; [|exact C].
    unfold Lifecycle.step_ok. rewrite A1, A2. simpl. split; [reflexivity | lia].
  - cbn [Lifecycle.trace]. constructor; [|exact F].
    unfold Lifecycle.state_ok. simpl. now split.
  - exists j'. split; [|split; [cbn [Lifecycle.trace]; now right | assumption]].
    rewrite (last_default _ j' (new_job t)) by apply trace_nonempty.
    now rewrite last_trace_cons.
Qed.

(** ** Progress arithmetic of the parallel driver *)

Lemma py_int_nonneg (x : Q) : (0 <= x)%Q -> Num.py_int x = Qfloor x.
Proof.
  destruct x as [n d]. unfold Qle, Num.py_int, Qfloor; simpl. intros H.
  apply Z.quot_div_nonneg; lia.
Qed.

Definition ratio (k total : nat) : Q :=
  (inject_Z (Z.of_nat k) / inject_Z (Z.of_nat total) * 80)%Q.

Lemma inject_nat_pos (n : nat) : (0 < n)%nat -> (0 < inject_Z (Z.of_nat n))%Q.
Proof. intros H. change 0%Q with (inject_Z 0). rewrite <- Zlt_Qlt. lia. Qed.

Lemma ratio_nonneg (k total : nat) : (0 < total)%nat -> (0 <= ratio k total)%Q.
Proof.
  intros Ht. unfold ratio. apply Qmult_le_0_compat; [|discriminate].
  apply Qle_shift_div_l; [now apply inject_nat_pos|].
  rewrite Qmult_0_l. change 0%Q with (inject_Z 0). rewrite <- Zle_Qle. lia.
Qed.

Lemma ratio_mono (k k' total : nat) :
  (0 < total)%nat -> (k <= k')%nat -> (ratio k total <= ratio k' total)%Q.
Proof.
  intros Ht Hk. unfold ratio. apply Qmult_le_compat_r; [|discriminate].
  unfold Qdiv. apply Qmult_le_compat_r.
  - rewrite <- Zle_Qle. lia.
  - apply Qlt_le_weak, Qinv_lt_0_compat. now apply inject_nat_pos.
Qed.

Lemma ratio_le_80 (k total : nat) :
  (0 < total)%nat -> (k <= total)%nat -> (ratio k total <= 80)%Q.
Proof.
  intros Ht Hk. unfold ratio.
  setoid_replace (80 : Q) with (1 * 80)%Q at 2 by ring.
  apply Qmult_le_compat_r; [|discriminate].
  apply Qle_shift_div_r; [now apply inject_nat_pos|].
  rewrite Qmult_1_l. rewrite <- Zle_Qle. lia.
Qed.

Lemma progress_of_floor (k total : nat) :
  (0 < total)%nat -> ParallelOrchestrator.progress_of k total = Qfloor (ratio k total).
Proof. intros Ht. apply py_int_nonneg. now apply ratio_nonneg. Qed.

Lemma progress_of_mono (k k' total : nat) :
  (0 < total)%nat -> (k <= k')%nat ->
  (ParallelOrchestrator.progress_of k total <= ParallelOrchestrator.progress_of k' total)%Z.
Proof.
  intros Ht Hk. rewrite !progress_of_floor by assumption.
  apply Qfloor_resp_le. now apply ratio_mono.
Qed.

Lemma progress_of_le_80 (k total : nat) :
  (0 < total)%nat -> (k <= total)%nat ->
  (ParallelOrchestrator.progress_of k total <= 80)%Z.
Proof.
  intros Ht Hk. rewrite progress_of_floor by assumption.
  change 80%Z with (Qfloor (inject_Z 80)) at 1 || rewrite <- (Qfloor_Z 80).
  apply Qfloor_resp_le. now apply ratio_le_80.
Qed.

Lemma progress_of_nonneg (k total : nat) :
  (0 < total)%nat -> (0 <= ParallelOrchestrator.progress_of k total)%Z.
Proof.
  intros Ht. rewrite progress_of_floor by assumption.
  rewrite <- (Qfloor_Z 0). apply Qfloor_resp_le. now apply ratio_nonneg.
Qed.

(** ** The life cycle of a job (C7) *)

Ltac shape_progress_step :=
  eapply shape_progress;
  [ unfold is_progress; simpl; repeat split; try reflexivity; lia | ].

Ltac shape_failure_step :=
  apply shape_failure; unfold is_failure; simpl; repeat split; discriminate.

Ltac shape_completion_step :=
  apply shape_completion; unfold is_completion; simpl;
  split; [reflexivity|];
  split; [eexists; split; [reflexivity | lia]|];
  split; [discriminate | reflexivity].

Lemma single_video_shape (w : Collaborators) (video_id : string)
    (selected_brands : list string) :
  exists u0 us,
    SingleVideo.analyze_video_with_progress_updates w video_id selected_brands = u0 :: us
    /\ is_progress 0 u0 0 /\ run_shape 0 us.
Proof.
  unfold SingleVideo.analyze_video_with_progress_updates.
  eexists. eexists. split; [simpl; reflexivity|].
  split; [unfold is_progress; simpl; repeat split; lia|].
  do 3 shape_progress_step.
  destruct (client_analyze w) as [brand_appearances | e]; [|shape_failure_step].
  simpl. do 3 shape_progress_step.
  destruct (SingleVideo.compute_brand_metrics _ _ _) as [brand_metrics | e];
    [|shape_failure_step].
  shape_progress_step. shape_completion_step.
Qed.

Lemma loop_updates_progress (total : nat) (results : list ParallelOrchestrator.UnitResult) :
  (0 < total)%nat ->
  forall done,
    progress_run (ParallelOrchestrator.progress_of done total)
                 (ParallelOrchestrator.loop_updates total done results)
                 (ParallelOrchestrator.progress_of (done + List.length results) total).
Proof.
  intros Ht. induction results as [|r results IH]; intros done; simpl.
  - rewrite Nat.add_0_r. constructor.
  - eapply progress_cons.
    + unfold is_progress; simpl. repeat split.
      apply progress_of_mono; [assumption | lia].
    + replace (done + S (List.length results))%nat
        with (S done + List.length results)%nat by lia.
      apply IH.
Qed.

Lemma progress_of_0 (total : nat) : ParallelOrchestrator.progress_of 0 total = 0%Z.
Proof.
  unfold ParallelOrchestrator.progress_of, Num.py_int. simpl.
  destruct (Z.of_nat total); reflexivity.
Qed.

Lemma multi_video_shape (video_ids : list string)
    (results : list ParallelOrchestrator.UnitResult) :
  List.length results = List.length video_ids ->
  exists u0 us,
    ParallelOrchestrator.analyze_multiple_videos_with_progress_updates video_ids results
    = u0 :: us
    /\ is_progress 0 u0 0 /\ run_shape 0 us.
Proof.
  intros Hlen. unfold ParallelOrchestrator.analyze_multiple_videos_with_progress_updates.
  eexists. eexists. split; [reflexivity|].
  split; [unfold is_progress; simpl; repeat split; lia|].
  destruct video_ids as [|v video_ids]; [shape_failure_step|].
  set (total := List.length (v :: video_ids)) in *.
  assert (Ht : (0 < total)%nat) by (subst total; simpl; lia).
  rewrite <- (progress_of_0 total).
  eapply run_shape_app; [apply loop_updates_progress; assumption|].
  simpl Nat.add.
  apply (run_shape_weaken 80);
    [apply progress_of_le_80; [assumption | lia]|].
  shape_progress_step.
  destruct (TemporalMerger.combine_video_analyses _ _) as [c | e];
    [shape_completion_step | shape_failure_step].
Qed.

(** C7. Under the progress reports of either pipeline a job created by
    [create_job] goes pending -> processing -> completed or failed and stops
    there; its progress never decreases; the payload and the error are unset
    until the terminal report, which sets exactly one of them. *)
Theorem job_lifecycle
    (w : Collaborators) (video_id : string) (selected_brands : list string)
    (video_ids : list string) (results : list ParallelOrchestrator.UnitResult)
    (job_id : string) (tracker : AnalysisStatus) :
  List.length results = List.length video_ids ->
  (exists js,
     Lifecycle.snapshots job_id
       (SingleVideo.analyze_video_with_progress_updates w video_id selected_brands)
       (create_job job_id tracker) = map Some js
     /\ Lifecycle.lifecycle js)
  /\
  (exists js,
     Lifecycle.snapshots job_id
       (ParallelOrchestrator.analyze_multiple_videos_with_progress_updates video_ids results)
       (create_job job_id tracker) = map Some js
     /\ Lifecycle.lifecycle js).
Proof.
  intros Hlen. split.
  - destruct (single_video_shape w video_id selected_brands) as [u0 [us [-> [H0 Hs]]]].
    eexists. split.
    + apply snapshots_trace, get_job_create_job.
    + now apply (fresh_run_lifecycle u0 0).
  - destruct (multi_video_shape video_ids results Hlen) as [u0 [us [-> [H0 Hs]]]].
    eexists. split.
    + apply snapshots_trace, get_job_create_job.
    + now apply (fresh_run_lifecycle u0 0).
Qed.

(** ** How a run ends *)

Definition quiet (u : Updates) : Prop := u_data u = None /\ u_error u = None.

Lemma quiet_trace_last (us : list Updates) :
  Forall quiet us ->
  forall (now : nat) (j : Job),
    data j = None -> error j = None ->
    data (last (Lifecycle.trace us now j) j) = None
    /\ error (last (Lifecycle.trace us now j) j) = None.
Proof.
  induction 1 as [|u us [Hd He] Hus IH]; intros now j Dj Ej.
  - now split.
  - rewrite last_trace_cons. apply IH; unfold apply_updates; simpl.
    + now rewrite Hd.
    + now rewrite He.
Qed.

Lemma trace_last_snoc (us : list Updates) (u : Updates) :
  forall (now : nat) (j : Job),
    last (Lifecycle.trace (us ++ [u]) now j) j =
    apply_updates u (now + List.length us) (last (Lifecycle.trace us now j) j).
Proof.
  induction us as [|u' us IH]; intros now j.
  - simpl. now rewrite Nat.add_0_r.
  - change ((u' :: us) ++ [u])%list with (u' :: (us ++ [u]))%list.
    rewrite !last_trace_cons, IH. f_equal. simpl. lia.
Qed.

(** the job after a run of quiet reports closed by [u] *)
Lemma final_snoc (job_id : string) (us : list Updates) (u : Updates)
    (tracker : AnalysisStatus) :
  Forall quiet us ->
  exists now jp,
    Lifecycle.final job_id (us ++ [u]) (create_job job_id tracker)
    = Some (apply_updates u now jp)
    /\ data jp = None /\ error jp = None.
Proof.
  intros Hq.
  rewrite (final_trace job_id _ _ _ (get_job_create_job job_id tracker)).
  rewrite trace_last_snoc.
  eexists. eexists. split; [reflexivity|].
  now apply quiet_trace_last.
Qed.

Lemma loop_updates_quiet (total done : nat) (results : list ParallelOrchestrator.UnitResult) :
  Forall quiet (ParallelOrchestrator.loop_updates total done results).
Proof.
  revert done; induction results as [|r results IH]; intros done; simpl.
  - constructor.
  - constructor; [now split | apply IH].
Qed.

(** The single-video run ends completed with its payload, or failed with the
    message of the exception. *)
Lemma single_video_final (w : Collaborators) (video_id : string)
    (selected_brands : list string) (job_id : string) (tracker : AnalysisStatus) :
  exists j,
    Lifecycle.final job_id
      (SingleVideo.analyze_video_with_progress_updates w video_id selected_brands)
      (create_job job_id tracker) = Some j
    /\ match SingleVideo.outcome w video_id selected_brands with
       | Return a => status j = completed /\ data j = Some (SingleVideo a) /\ error j = None
       | Raise e => status j = failed /\ data j = None /\ error j = Some e
       end.
Proof.
  rewrite (final_trace job_id _ _ _ (get_job_create_job job_id tracker)).
  eexists. split; [reflexivity|].
  unfold SingleVideo.analyze_video_with_progress_updates, SingleVideo.outcome.
  destruct (client_analyze w) as [brand_appearances | e]; simpl.
  - destruct (SingleVideo.compute_brand_metrics _ _ _) as [brand_metrics | e]; simpl;
      repeat split; reflexivity.
  - repeat split; reflexivity.
Qed.

(** ** Enrichment failures (C5) *)

Lemma collect_brand_data_nonempty (brand_appearances : list Appearance)
    (brand_name : string) (d : SingleVideo.BrandData) :
  In (brand_name, d) (SingleVideo.collect_brand_data brand_appearances) ->
  SingleVideo.bd_appearances d <> [].
Proof.
  revert brand_name d. unfold SingleVideo.collect_brand_data.
  apply (fold_left_invariant
           (fun bd => forall k d, In (k, d) bd -> SingleVideo.bd_appearances d <> [])).
  - intros k d [].
  - intros bd a IH k d. unfold SingleVideo.process_appearance.
    destruct (_ || _); [apply IH|].
    intros Hin. apply In_assign in Hin as [[= _ ->] | Hin]; [|now apply (IH k)].
    simpl. intros H. now apply app_eq_nil in H as [_ H].
Qed.

Lemma brand_metric_needs_answer (w : Collaborators) (video_duration : Q)
    (brand_name : string) (d : SingleVideo.BrandData) :
  SingleVideo.bd_appearances d <> [] ->
  (forall ai, scoring w brand_name (SingleVideo.bd_appearances d) <> Answered ai) ->
  exists e, SingleVideo.brand_metric_or_fail w video_duration (brand_name, d) = Raise e.
Proof.
  intros Hne Hfail.
  unfold SingleVideo.brand_metric_or_fail, SingleVideo.brand_metric_of,
    Scoring.calculate_ai_contextual_score; simpl.
  destruct (SingleVideo.bd_appearances d) as [|a l] eqn:E; [congruence|].
  destruct (scoring w brand_name (a :: l)) as [ai | | msg] eqn:R.
  - now destruct (Hfail ai).
  - simpl. now eexists.
  - simpl. now eexists.
Qed.

(** C5. When the scoring service does not answer for one processed brand
    (it raises, or no API key is configured), no metrics are produced for any
    brand - in particular no score is made up for that brand - and the job
    ends failed, with an error message and no payload. *)
Theorem enrichment_failure_fails_analysis
    (w : Collaborators) (video_id : string) (selected_brands : list string)
    (job_id : string) (tracker : AnalysisStatus)
    (brand_appearances : list Appearance)
    (brand_name : string) (d : SingleVideo.BrandData) :
  client_analyze w = Return brand_appearances ->
  lookup brand_name (SingleVideo.collect_brand_data brand_appearances) = Some d ->
  (forall ai, scoring w brand_name (SingleVideo.bd_appearances d) <> Answered ai) ->
  (exists e,
     SingleVideo.compute_brand_metrics w (SingleVideo.video_duration_of w)
       (SingleVideo.collect_brand_data brand_appearances) = Raise e)
  /\
  (exists j e,
     Lifecycle.final job_id
       (SingleVideo.analyze_video_with_progress_updates w video_id selected_brands)
       (create_job job_id tracker) = Some j
     /\ status j = failed /\ error j = Some e /\ data j = None).
Proof.
  intros Hdetect Hlookup Hfail.
  apply lookup_In in Hlookup.
  assert (Hraise : exists e,
    SingleVideo.compute_brand_metrics w (SingleVideo.video_duration_of w)
      (SingleVideo.collect_brand_data brand_appearances) = Raise e).
  { destruct (brand_metric_needs_answer w (SingleVideo.video_duration_of w) brand_name d)
      as [e He]; [now apply (collect_brand_data_nonempty brand_appearances brand_name)
                 | assumption |].
    now apply (mapM_Raise _ _ (brand_name, d) e). }
  split; [exact Hraise|].
  destruct Hraise as [e He].
  destruct (single_video_final w video_id selected_brands job_id tracker) as [j [Hj Ho]].
  unfold SingleVideo.outcome in Ho. rewrite Hdetect in Ho. simpl in Ho.
  rewrite He in Ho. simpl in Ho.
  exists j, e. tauto.
Qed.

(** ** Nothing to combine (C2) *)

Lemma successful_none (results : list ParallelOrchestrator.UnitResult) :
  (forall r, In r results -> ParallelOrchestrator.success r = false) ->
  ParallelOrchestrator.successful results = [].
Proof.
  unfold ParallelOrchestrator.successful.
  induction results as [|r results IH]; intros H; simpl; [reflexivity|].
  rewrite (H r (or_introl eq_refl)). simpl. apply IH. intros r' Hr'. apply H. now right.
Qed.

(** C2. [combine_video_analyses] on an empty sequence raises; and when every
    unit of a multi-video job failed, the merge is called on the empty
    sequence and the job ends failed, with the error and no payload. *)
Theorem all_units_failed_fails_job
    (video_ids : list string) (results : list ParallelOrchestrator.UnitResult)
    (job_id : string) (tracker : AnalysisStatus) :
  (forall r, In r results -> ParallelOrchestrator.success r = false) ->
  TemporalMerger.combine_video_analyses [] video_ids
  = Raise "No successful analyses to combine"
  /\ TemporalMerger.combine_video_analyses (ParallelOrchestrator.successful results) video_ids
     = Raise "No successful analyses to combine"
  /\ (exists j e,
        Lifecycle.final job_id
          (ParallelOrchestrator.analyze_multiple_videos_with_progress_updates
             video_ids results)
          (create_job job_id tracker) = Some j
        /\ status j = failed /\ error j = Some e /\ data j = None
        /\ (video_ids <> [] -> e = "No successful analyses to combine")).
Proof.
  intros Hfail. rewrite (successful_none results Hfail).
  split; [reflexivity|]. split; [reflexivity|].
  unfold ParallelOrchestrator.analyze_multiple_videos_with_progress_updates.
  rewrite (successful_none results Hfail). cbn [TemporalMerger.combine_video_analyses].
  destruct video_ids as [|v video_ids].
  - set (u0 := ParallelOrchestrator.multi_update "initialization" 0 _ _).
    set (uf := ParallelOrchestrator.multi_failed_update _).
    destruct (final_snoc job_id [u0] uf tracker) as [now [jp [Hf [Hd He]]]].
    { repeat constructor. }
    change [u0; uf] with ([u0] ++ [uf])%list.
    rewrite Hf. eexists. eexists. split; [reflexivity|]. simpl.
    repeat split; [assumption | congruence].
  - set (u0 := ParallelOrchestrator.multi_update "initialization" 0 _ _).
    set (loop := ParallelOrchestrator.loop_updates _ 0 results).
    set (u85 := ParallelOrchestrator.multi_update "finalizing" 85 _ _).
    set (uf := ParallelOrchestrator.multi_failed_update _).
    destruct (final_snoc job_id (u0 :: loop ++ [u85]) uf tracker)
      as [now [jp [Hf [Hd He]]]].
    { constructor; [now split|]. apply Forall_app. split.
      - apply loop_updates_quiet.
      - repeat constructor. }
    replace (u0 :: loop ++ [u85] ++ [uf])%list with ((u0 :: loop ++ [u85]) ++ [uf])%list
      by (simpl; now rewrite <- app_assoc).
    rewrite Hf. eexists. eexists. split; [reflexivity|]. simpl.
    repeat split; assumption.
Qed.

(** ** High-impact moments (C8) *)

Lemma async_high_impact_is_rule (a : Appearance) :
  SingleVideo.high_impact a = Spec.high_impact_rule a.
Proof.
  unfold SingleVideo.high_impact, Spec.high_impact_rule, PyStr.mem, is_, get.
  destruct (context a) as [c|]; simpl; [|reflexivity].
  now rewrite orb_false_r, !orb_assoc.
Qed.

Lemma sync_high_impact_is_rule (a : Appearance) :
  SyncEndpoint.high_impact a = Spec.sync_high_impact_rule a.
Proof.
  unfold SyncEndpoint.high_impact, Spec.sync_high_impact_rule, PyStr.mem, is_, get.
  destruct (context a) as [c|]; simpl; [|reflexivity].
  now rewrite orb_false_r, !orb_assoc.
Qed.

Lemma count_snoc (rule : Appearance -> bool) (l : list Appearance) (a : Appearance) :
  Z.of_nat (List.length (filter rule (l ++ [a]))) =
  if rule a then (Z.of_nat (List.length (filter rule l)) + 1)%Z
  else Z.of_nat (List.length (filter rule l)).
Proof.
  rewrite filter_app, length_app. simpl. destruct (rule a); simpl; lia.
Qed.

Lemma async_high_impact_count (brand_appearances : list Appearance)
    (brand_name : string) (d : SingleVideo.BrandData) :
  In (brand_name, d) (SingleVideo.collect_brand_data brand_appearances) ->
  SingleVideo.bd_high_impact_moments d
  = Spec.count_high_impact (SingleVideo.bd_appearances d).
Proof.
  revert brand_name d. unfold SingleVideo.collect_brand_data.
  apply (fold_left_invariant
           (fun bd => forall k d, In (k, d) bd ->
              SingleVideo.bd_high_impact_moments d
              = Spec.count_high_impact (SingleVideo.bd_appearances d))).
  - intros k d [].
  - intros bd a IH k d. unfold SingleVideo.process_appearance.
    destruct (_ || _); [apply IH|].
    intros Hin. apply In_assign in Hin as [[= _ ->] | Hin]; [|now apply (IH k)].
    set (entry := get (lookup _ bd) SingleVideo.new_brand_data).
    assert (He : SingleVideo.bd_high_impact_moments entry
                 = Spec.count_high_impact (SingleVideo.bd_appearances entry)).
    { subst entry. destruct (lookup _ bd) as [d0|] eqn:L; simpl.
      - apply lookup_In in L. now apply (IH _ _ L).
      - reflexivity. }
    unfold Spec.count_high_impact in *. simpl.
    rewrite count_snoc, <- async_high_impact_is_rule, He.
    now destruct (SingleVideo.high_impact _).
Qed.

Lemma sync_high_impact_count (brand_data : list Appearance)
    (brand_name : string) (s : SyncEndpoint.BrandSummary) :
  In (brand_name, s) (SyncEndpoint.summarize brand_data) ->
  SyncEndpoint.bs_high_impact_moments s
  = Z.of_nat (List.length (filter Spec.sync_high_impact_rule
                                  (SyncEndpoint.bs_appearances s))).
Proof.
  revert brand_name s. unfold SyncEndpoint.summarize.
  apply (fold_left_invariant
           (fun bs => forall k s, In (k, s) bs ->
              SyncEndpoint.bs_high_impact_moments s
              = Z.of_nat (List.length (filter Spec.sync_high_impact_rule
                                              (SyncEndpoint.bs_appearances s))))).
  - intros k s [].
  - intros bs a IH k s. unfold SyncEndpoint.summarize_appearance.
    intros Hin. apply In_assign in Hin as [[= _ ->] | Hin]; [|now apply (IH k)].
    set (entry := get (lookup _ bs) SyncEndpoint.new_brand_summary).
    assert (He : SyncEndpoint.bs_high_impact_moments entry
                 = Z.of_nat (List.length (filter Spec.sync_high_impact_rule
                                                 (SyncEndpoint.bs_appearances entry)))).
    { subst entry. destruct (lookup _ bs) as [s0|] eqn:L; simpl.
      - apply lookup_In in L. now apply (IH _ _ L).
      - reflexivity. }
    simpl. rewrite count_snoc, <- sync_high_impact_is_rule, He.
    now destruct (SyncEndpoint.high_impact _).
Qed.

(** C8, as amended. In the asynchronous pipeline the high-impact count of a
    brand is the number of its appearances whose context is celebration,
    interview or commercial, or whose prominence is primary, or whose
    viewer_attention is high; in the synchronous endpoint it is the number of
    its appearances whose context is celebration, replay or game_action. *)
Theorem high_impact_moments_per_call_site
    (detections : list Appearance) (brand_name : string) :
  (forall d,
     lookup brand_name (SingleVideo.collect_brand_data detections) = Some d ->
     SingleVideo.bd_high_impact_moments d
     = Spec.count_high_impact (SingleVideo.bd_appearances d))
  /\
  (forall s,
     lookup brand_name (SyncEndpoint.summarize detections) = Some s ->
     SyncEndpoint.bs_high_impact_moments s
     = Z.of_nat (List.length (filter Spec.sync_high_impact_rule
                                     (SyncEndpoint.bs_appearances s)))).
Proof.
  split.
  - intros d H. apply lookup_In in H. now apply (async_high_impact_count detections brand_name).
  - intros s H. apply lookup_In in H. now apply (sync_high_impact_count detections brand_name).
Qed.

Lemma high_impact_moments_per_call_site_example :
  (exists d,
     lookup "Nike" (SingleVideo.collect_brand_data [Sample.interview]) = Some d
     /\ SingleVideo.bd_high_impact_moments d = 1%Z)
  /\
  (exists s,
     lookup "Nike" (SyncEndpoint.summarize [Sample.interview]) = Some s
     /\ SyncEndpoint.bs_high_impact_moments s = 0%Z).
Proof.
  destruct (high_impact_moments_per_call_site [Sample.interview] "Nike") as [Ha Hs].
  split.
  - eexists. split; [reflexivity|]. now rewrite (Ha _ eq_refl).
  - eexists. split; [reflexivity|]. now rewrite (Hs _ eq_refl).
Defined.

(** The synchronous endpoint does not count an interview shot with the brand
    in primary prominence, which the stated rule counts. *)
Lemma sync_high_impact_misses_interview :
  exists s,
    lookup "Nike" (SyncEndpoint.summarize [Sample.interview]) = Some s
    /\ SyncEndpoint.bs_high_impact_moments s = 0%Z
    /\ Spec.count_high_impact (SyncEndpoint.bs_appearances s) = 1%Z.
Proof. eexists. repeat split. Qed.

(** ** Salvaged detections (C9) *)

Lemma validate_appearances_cons (a : Appearance) (rest : list Appearance) :
  SyncEndpoint.validate_appearances (a :: rest) =
  ((fst (SyncEndpoint.validate_one a) ++ fst (SyncEndpoint.validate_appearances rest))%list,
   (snd (SyncEndpoint.validate_one a) ++ snd (SyncEndpoint.validate_appearances rest))%list).
Proof.
  simpl. destruct (SyncEndpoint.validate_one a), (SyncEndpoint.validate_appearances rest).
  reflexivity.
Qed.

(** C9, as amended. A record that fails validation but has the keys brand
    and timeline is appended to [brand_data] as it is - the very record, with
    no key added or changed - and the only trace of the degradation is the
    warning written to the log. *)
Theorem invalid_record_salvaged_unchanged
    (raw_brand_data : list Appearance) (r : Appearance) (e : string) :
  In r raw_brand_data ->
  BrandAppearanceModel.validate r = Raise e ->
  brand r <> None -> timeline r <> None ->
  In r (fst (SyncEndpoint.validate_appearances raw_brand_data))
  /\ In ("Skipping invalid appearance: " ++ e)
        (snd (SyncEndpoint.validate_appearances raw_brand_data)).
Proof.
  intros Hin Hv Hb Ht.
  induction raw_brand_data as [|a rest IH]; [contradiction|].
  rewrite validate_appearances_cons. simpl fst. simpl snd.
  destruct Hin as [-> | Hin].
  - unfold SyncEndpoint.validate_one. rewrite Hv.
    destruct (brand r); [|congruence]. destruct (timeline r); [|congruence].
    split; now left.
  - destruct (IH Hin) as [H1 H2]. split; apply in_or_app; now right.
Qed.

Lemma invalid_record_salvaged_unchanged_example :
  In Sample.reversed (fst (SyncEndpoint.validate_appearances [Sample.reversed]))
  /\ In ("Skipping invalid appearance: " ++ "validation error for BrandAppearance")
        (snd (SyncEndpoint.validate_appearances [Sample.reversed])).
Proof.
  apply (invalid_record_salvaged_unchanged [Sample.reversed] Sample.reversed).
  - now left.
  - reflexivity.
  - discriminate.
  - discriminate.
Defined.

(** The record whose timeline ends before it starts is kept, and what is
    kept is the raw record: nothing in the output marks it. *)
Lemma salvaged_record_is_not_flagged : ~ Spec.salvaged_records_are_flagged.
Proof.
  intros H.
  destruct (H [Sample.reversed] Sample.reversed "validation error for BrandAppearance")
    as [out [Hin [_ [_ Hflag]]]].
  - now left.
  - reflexivity.
  - discriminate.
  - discriminate.
  - simpl in Hin. destruct Hin as [<- | []]. now apply Hflag.
Qed.

Lemma validate_accepts_well_formed :
  BrandAppearanceModel.validate Sample.interview = Return Sample.interview.
Proof. reflexivity. Qed.

(** ** The theorems above on sample runs *)

Lemma job_lifecycle_example :
  List.length [Sample.failure "v1"] = List.length ["v1"]
  /\ (exists js,
        Lifecycle.snapshots "job-1"
          (SingleVideo.analyze_video_with_progress_updates
             (Sample.world [Sample.interview] 600 70) "v1" ["Nike"])
          (create_job "job-1" init) = map Some js
        /\ Lifecycle.lifecycle js)
  /\ (exists js,
        Lifecycle.snapshots "job-1"
          (ParallelOrchestrator.analyze_multiple_videos_with_progress_updates
             ["v1"] [Sample.failure "v1"])
          (create_job "job-1" init) = map Some js
        /\ Lifecycle.lifecycle js).
Proof.
  split; [reflexivity|].
  apply (job_lifecycle (Sample.world [Sample.interview] 600 70) "v1" ["Nike"]
                       ["v1"] [Sample.failure "v1"] "job-1" init).
  reflexivity.
Defined.

Lemma enrichment_failure_example :
  (exists e,
     SingleVideo.compute_brand_metrics (Sample.world_no_scoring [Sample.interview])
       (SingleVideo.video_duration_of (Sample.world_no_scoring [Sample.interview]))
       (SingleVideo.collect_brand_data [Sample.interview]) = Raise e)
  /\
  (exists j e,
     Lifecycle.final "job-1"
       (SingleVideo.analyze_video_with_progress_updates
          (Sample.world_no_scoring [Sample.interview]) "v1" ["Nike"])
       (create_job "job-1" init) = Some j
     /\ status j = failed /\ error j = Some e /\ data j = None).
Proof.
  eapply (enrichment_failure_fails_analysis
            (Sample.world_no_scoring [Sample.interview]) "v1" ["Nike"] "job-1" init
            [Sample.interview] "Nike").
  - reflexivity.
  - reflexivity.
  - intros ai. discriminate.
Defined.

Lemma all_units_failed_example :
  TemporalMerger.combine_video_analyses [] ["v1"; "v2"]
  = Raise "No successful analyses to combine"
  /\ TemporalMerger.combine_video_analyses
       (ParallelOrchestrator.successful [Sample.failure "v1"; Sample.failure "v2"])
       ["v1"; "v2"]
     = Raise "No successful analyses to combine"
  /\ (exists j e,
        Lifecycle.final "multi-1"
          (ParallelOrchestrator.analyze_multiple_videos_with_progress_updates
             ["v1"; "v2"] [Sample.failure "v1"; Sample.failure "v2"])
          (create_job "multi-1" init) = Some j
        /\ status j = failed /\ error j = Some e /\ data j = None
        /\ (["v1"; "v2"] <> [] -> e = "No successful analyses to combine")).
Proof.
  apply (all_units_failed_fails_job ["v1"; "v2"]
           [Sample.failure "v1"; Sample.failure "v2"] "multi-1" init).
  intros r [<- | [<- | []]]; reflexivity.
Defined.

(** ** TemporalMerger *)

Lemma foldM_invariant {A B : Type} (P : B -> Prop) (f : B -> A -> Py B) (l : list A) :
  (forall acc a acc', In a l -> P acc -> f acc a = Return acc' -> P acc') ->
  forall acc r, P acc -> foldM f l acc = Return r -> P r.
Proof.
  induction l as [|a l IH]; intros Hf acc r Hacc; simpl.
  - now intros [= <-].
  - destruct (f acc a) as [acc'|] eqn:E; simpl; [|discriminate].
    apply IH.
    + intros acc0 a0 acc0' Hin. apply Hf. now right.
    + apply (Hf acc a acc'); [now left | assumption | assumption].
Qed.

Lemma foldM_total {A B : Type} (P : B -> Prop) (f : B -> A -> Py B) (l : list A) :
  (forall acc a, In a l -> P acc -> exists acc', f acc a = Return acc' /\ P acc') ->
  forall acc, P acc -> exists r, foldM f l acc = Return r /\ P r.
Proof.
  induction l as [|a l IH]; intros Hf acc Hacc; simpl.
  - now exists acc.
  - destruct (Hf acc a (or_introl eq_refl) Hacc) as [acc' [-> Hacc']]. simpl.
    apply IH; [|assumption]. intros acc0 a0 Hin. apply Hf. now right.
Qed.

(** a timeline the offset loops can shift: absent, empty, or with at least
    two entries *)
Definition shiftable (a : Appearance) : Prop := forall t, timeline a <> Some [t].

Lemma offset_timeline_total (c : Q) (a : Appearance) :
  shiftable a -> exists a', TemporalMerger.offset_timeline c a = Return a'.
Proof.
  intros H. unfold TemporalMerger.offset_timeline.
  destruct (timeline a) as [[|t0 [|t1 l]]|] eqn:E; try (now eexists).
  now destruct (H t0).
Qed.

Lemma mapM_offset_total (c : Q) (l : list Appearance) :
  Forall shiftable l -> exists l', mapM (TemporalMerger.offset_timeline c) l = Return l'.
Proof.
  intros H. apply mapM_total. intros a Ha. apply offset_timeline_total.
  now apply (proj1 (Forall_forall _ _) H).
Qed.

Definition shiftable_metric (m : BrandMetric) : Prop :=
  Forall shiftable (appearances m)
  /\ Forall shiftable (ad_placements m)
  /\ Forall shiftable (in_game_placements m).

Definition shiftable_analysis (a : Analysis) : Prop :=
  Forall shiftable (raw_detections a) /\ Forall shiftable_metric (brand_metrics a).

Lemma absorb_inv (c : Q) (combined m e : BrandMetric) :
  TemporalMerger.absorb c combined m = Return e ->
  exists oa oad oig,
    mapM (TemporalMerger.offset_timeline c) (appearances m) = Return oa
    /\ mapM (TemporalMerger.offset_timeline c) (ad_placements m) = Return oad
    /\ mapM (TemporalMerger.offset_timeline c) (in_game_placements m) = Return oig
    /\ bm_brand e = bm_brand combined
    /\ total_exposure_time e = (total_exposure_time combined + total_exposure_time m)%Q
    /\ total_appearances e = (total_appearances combined + total_appearances m)%Z
    /\ appearances e = (appearances combined ++ oa)%list.
Proof.
  unfold TemporalMerger.absorb.
  destruct (mapM _ (appearances m)) as [oa|]; simpl; [|discriminate].
  destruct (mapM _ (ad_placements m)) as [oad|]; simpl; [|discriminate].
  destruct (mapM _ (in_game_placements m)) as [oig|]; simpl; [|discriminate].
  intros [= <-]. exists oa, oad, oig. simpl. repeat split.
Qed.

Lemma absorb_total (c : Q) (combined m : BrandMetric) :
  shiftable_metric m -> exists e, TemporalMerger.absorb c combined m = Return e.
Proof.
  intros [H1 [H2 H3]]. unfold TemporalMerger.absorb.
  destruct (mapM_offset_total c _ H1) as [oa ->].
  destruct (mapM_offset_total c _ H2) as [oad ->].
  destruct (mapM_offset_total c _ H3) as [oig ->].
  simpl. now eexists.
Qed.

Lemma merge_brand_metric_inv (c : Q) (D D' : dict BrandMetric) (m : BrandMetric) :
  TemporalMerger.merge_brand_metric c D m = Return D' ->
  exists e,
    TemporalMerger.absorb c (get (lookup (bm_brand m) D)
                                 (TemporalMerger.new_combined (bm_brand m))) m = Return e
    /\ D' = assign (bm_brand m) e D.
Proof.
  unfold TemporalMerger.merge_brand_metric.
  destruct (TemporalMerger.absorb _ _ _) as [e|]; simpl; [|discriminate].
  intros [= <-]. now exists e.
Qed.

Lemma merge_brand_metric_total (c : Q) (D : dict BrandMetric) (m : BrandMetric) :
  shiftable_metric m -> exists D', TemporalMerger.merge_brand_metric c D m = Return D'.
Proof.
  intros H. unfold TemporalMerger.merge_brand_metric.
  destruct (absorb_total c (get (lookup (bm_brand m) D)
                                (TemporalMerger.new_combined (bm_brand m))) m H) as [e ->].
  simpl. now eexists.
Qed.

Lemma merge_analysis_inv (acc acc' : TemporalMerger.Acc) (a : Analysis) :
  TemporalMerger.merge_analysis acc (Some a) = Return acc' ->
  exists od D,
    mapM (TemporalMerger.offset_timeline (TemporalMerger.acc_cumulative_duration_seconds acc))
         (raw_detections a) = Return od
    /\ foldM (TemporalMerger.merge_brand_metric
                (TemporalMerger.acc_cumulative_duration_seconds acc))
             (brand_metrics a) (TemporalMerger.acc_combined_brand_metrics acc) = Return D
    /\ TemporalMerger.acc_combined_brand_metrics acc' = D
    /\ TemporalMerger.acc_all_detections acc'
       = (TemporalMerger.acc_all_detections acc ++ od)%list
    /\ map vi_video_id (TemporalMerger.acc_videos_analyzed acc')
       = (map vi_video_id (TemporalMerger.acc_videos_analyzed acc) ++ [video_id a])%list
    /\ TemporalMerger.acc_cumulative_duration_seconds acc'
       = (TemporalMerger.acc_cumulative_duration_seconds acc
          + video_duration_minutes (summary a) * 60)%Q.
Proof.
  unfold TemporalMerger.merge_analysis.
  destruct (mapM _ (raw_detections a)) as [od|]; simpl; [|discriminate].
  destruct (foldM _ (brand_metrics a) _) as [D|]; simpl; [|discriminate].
  intros [= <-]. exists od, D. simpl. rewrite map_app. repeat split.
Qed.

Lemma merge_analysis_total (acc : TemporalMerger.Acc) (a : Analysis) :
  shiftable_analysis a -> exists acc', TemporalMerger.merge_analysis acc (Some a) = Return acc'.
Proof.
  intros [H1 H2]. unfold TemporalMerger.merge_analysis.
  destruct (mapM_offset_total (TemporalMerger.acc_cumulative_duration_seconds acc) _ H1)
    as [od ->]. simpl.
  destruct (foldM_total (fun _ => True)
              (TemporalMerger.merge_brand_metric
                 (TemporalMerger.acc_cumulative_duration_seconds acc))
              (brand_metrics a)) with (acc := TemporalMerger.acc_combined_brand_metrics acc)
    as [D [-> _]]; [|exact I|simpl; now eexists].
  intros D m Hin _.
  destruct (merge_brand_metric_total
              (TemporalMerger.acc_cumulative_duration_seconds acc) D m) as [D' HD'].
  - now apply (proj1 (Forall_forall _ _) H2).
  - now exists D'.
Qed.

Lemma Qltb_iff (x y : Q) : Num.Qltb x y = true <-> (x < y)%Q.
Proof.
  unfold Num.Qltb. rewrite negb_true_iff. split.
  - intros H. apply Qnot_le_lt. intros Hle. apply Qle_bool_iff in Hle. congruence.
  - intros H. destruct (Qle_bool y x) eqn:E; [|reflexivity].
    apply Qle_bool_iff in E. now apply Qle_not_lt in E.
Qed.

Lemma Qltb_false_iff (x y : Q) : Num.Qltb x y = false <-> (y <= x)%Q.
Proof.
  unfold Num.Qltb. rewrite negb_false_iff. apply Qle_bool_iff.
Qed.

Lemma insert_desc_perm (m : BrandMetric) (l : list BrandMetric) :
  Permutation (TemporalMerger.insert_desc m l) (m :: l).
Proof.
  induction l as [|x l IH]; simpl; [reflexivity|].
  destruct (Num.Qltb _ _); [|reflexivity].
  rewrite IH. apply perm_swap.
Qed.

Lemma sort_desc_perm (l : list BrandMetric) : Permutation (TemporalMerger.sort_desc l) l.
Proof.
  induction l as [|x l IH]; simpl; [reflexivity|].
  rewrite insert_desc_perm. now constructor.
Qed.

Definition finalize_entry (analyses : list (option Analysis)) (kv : string * BrandMetric)
  : BrandMetric :=
  TemporalMerger.finalize analyses (fst kv) (snd kv).

Lemma combine_inv (analyses : list (option Analysis)) (video_ids : list string)
    (c : Combined) :
  TemporalMerger.combine_video_analyses analyses video_ids = Return c ->
  exists acc,
    foldM TemporalMerger.merge_analysis analyses TemporalMerger.acc0 = Return acc
    /\ combined_brand_metrics c
       = TemporalMerger.sort_desc
           (map (finalize_entry analyses) (TemporalMerger.acc_combined_brand_metrics acc))
    /\ videos_analyzed (combined_summary c) = TemporalMerger.acc_videos_analyzed acc
    /\ c_raw_detections c = TemporalMerger.acc_all_detections acc
    /\ individual_analyses c = analyses.
Proof.
  unfold TemporalMerger.combine_video_analyses.
  destruct analyses as [|a0 analyses]; [discriminate|].
  destruct (foldM _ _ _) as [acc|]; simpl; [|discriminate].
  intros [= <-]. exists acc. simpl. repeat split.
Qed.

Lemma combine_total (analyses : list (option Analysis)) (video_ids : list string)
    (acc : TemporalMerger.Acc) :
  analyses <> [] ->
  foldM TemporalMerger.merge_analysis analyses TemporalMerger.acc0 = Return acc ->
  exists c, TemporalMerger.combine_video_analyses analyses video_ids = Return c.
Proof.
  intros Hne Hacc. unfold TemporalMerger.combine_video_analyses.
  destruct analyses as [|a0 analyses]; [congruence|].
  rewrite Hacc. simpl. now eexists.
Qed.

Lemma In_contributing (analyses : list (option Analysis)) (a : Analysis) (m : BrandMetric) :
  In (Some a) analyses -> In m (brand_metrics a) ->
  In m (TemporalMerger.contributing (bm_brand m) analyses).
Proof.
  intros Ha Hm. unfold TemporalMerger.contributing.
  apply in_flat_map. exists (Some a). split; [assumption|].
  apply filter_In. split; [assumption | apply String.eqb_refl].
Qed.

(** every entry of the merged dictionary sits under its own brand name, and
    some per-video entry of that brand exists *)
Definition keyed (analyses : list (option Analysis)) (D : dict BrandMetric) : Prop :=
  forall k v, In (k, v) D ->
    bm_brand v = k /\ TemporalMerger.contributing k analyses <> [].

Lemma merge_brand_metric_keyed (analyses : list (option Analysis)) (a : Analysis)
    (c : Q) (D D' : dict BrandMetric) (m : BrandMetric) :
  In (Some a) analyses -> In m (brand_metrics a) ->
  keyed analyses D ->
  TemporalMerger.merge_brand_metric c D m = Return D' ->
  keyed analyses D'.
Proof.
  intros Ha Hm HD Hmerge.
  apply merge_brand_metric_inv in Hmerge as [e [He ->]].
  intros k v Hin. apply In_assign in Hin as [[= -> ->] | Hin]; [|now apply HD].
  apply absorb_inv in He as [oa [oad [oig [_ [_ [_ [Hb _]]]]]]].
  split.
  - rewrite Hb. destruct (lookup (bm_brand m) D) as [v|] eqn:L; simpl; [|reflexivity].
    apply lookup_In in L. now apply HD in L.
  - intros E. pose proof (In_contributing analyses a m Ha Hm) as Hc.
    rewrite E in Hc. contradiction.
Qed.

Lemma merge_analysis_keyed (analyses : list (option Analysis))
    (acc acc' : TemporalMerger.Acc) (oa : option Analysis) :
  In oa analyses ->
  keyed analyses (TemporalMerger.acc_combined_brand_metrics acc) ->
  TemporalMerger.merge_analysis acc oa = Return acc' ->
  keyed analyses (TemporalMerger.acc_combined_brand_metrics acc').
Proof.
  intros Hin Hk Hmerge. destruct oa as [a|].
  - apply merge_analysis_inv in Hmerge as [od [D [_ [HD [-> _]]]]].
    revert HD. apply (foldM_invariant (keyed analyses)
                        (TemporalMerger.merge_brand_metric
                           (TemporalMerger.acc_cumulative_duration_seconds acc))).
    + intros D0 m D0' Hm HD0. now apply (merge_brand_metric_keyed analyses a).
    + assumption.
  - simpl in Hmerge. now injection Hmerge as <-.
Qed.

Lemma merged_keyed (analyses : list (option Analysis)) (acc : TemporalMerger.Acc) :
  foldM TemporalMerger.merge_analysis analyses TemporalMerger.acc0 = Return acc ->
  keyed analyses (TemporalMerger.acc_combined_brand_metrics acc).
Proof.
  apply (foldM_invariant
           (fun acc => keyed analyses (TemporalMerger.acc_combined_brand_metrics acc))).
  - intros acc0 oa acc0' Hin. now apply merge_analysis_keyed.
  - intros k v [].
Qed.

Lemma mean_or_zero_nonempty {A : Type} (f : A -> Q) (l : list A) :
  l <> [] -> TemporalMerger.mean_or_zero (map f l) = Num.mean (map f l).
Proof. destruct l; [congruence | reflexivity]. Qed.

Lemma label_of_cases (s : Q) :
  ((1 # 10 < s)%Q -> TemporalMerger.label_of s = "positive")
  /\ ((s < - (1 # 10))%Q -> TemporalMerger.label_of s = "negative")
  /\ ((- (1 # 10) <= s)%Q -> (s <= 1 # 10)%Q -> TemporalMerger.label_of s = "neutral").
Proof.
  unfold TemporalMerger.label_of. repeat split.
  - intros H. apply Qltb_iff in H. now rewrite H.
  - intros H. destruct (Num.Qltb (1 # 10) s) eqn:E.
    + apply Qltb_iff in E. exfalso.
      apply (Qlt_irrefl s). apply (Qlt_trans _ (- (1 # 10))); [assumption|].
      apply (Qlt_trans _ (1 # 10)); [reflexivity | assumption].
    + apply Qltb_iff in H. now rewrite H.
  - intros H1 H2. apply Qltb_false_iff in H1, H2. now rewrite H2, H1.
Qed.

(** C4. In the combined result, a brand with at least one appearance has as
    contextual value score, sentiment score, average prominence and average
    viewer attention the arithmetic mean of those fields over the per-video
    entries of that brand - the entries of the videos in which it appears,
    and no other - and its sentiment label is positive above 0.1, negative
    below -0.1 and neutral in between. *)
Theorem merged_scores_are_means
    (analyses : list (option Analysis)) (video_ids : list string)
    (c : Combined) (m : BrandMetric) :
  TemporalMerger.combine_video_analyses analyses video_ids = Return c ->
  In m (combined_brand_metrics c) ->
  (0 < total_appearances m)%Z ->
  let per_video := TemporalMerger.contributing (bm_brand m) analyses in
  per_video <> []
  /\ (forall e, In e per_video <->
        exists a, In (Some a) analyses /\ In e (brand_metrics a)
                  /\ bm_brand e = bm_brand m)
  /\ contextual_value_score m = Num.mean (map contextual_value_score per_video)
  /\ sentiment_score m = Num.mean (map sentiment_score per_video)
  /\ avg_prominence m = Num.mean (map avg_prominence per_video)
  /\ avg_viewer_attention m = Num.mean (map avg_viewer_attention per_video)
  /\ ((1 # 10 < sentiment_score m)%Q -> sentiment_label m = Some "positive")
  /\ ((sentiment_score m < - (1 # 10))%Q -> sentiment_label m = Some "negative")
  /\ ((- (1 # 10) <= sentiment_score m)%Q -> (sentiment_score m <= 1 # 10)%Q ->
      sentiment_label m = Some "neutral").
Proof.
  intros Hc Hin Hpos per_video.
  apply combine_inv in Hc as [acc [Hacc [Hlist _]]].
  rewrite Hlist in Hin.
  apply (Permutation_in _ (sort_desc_perm _)) in Hin.
  apply in_map_iff in Hin as [[k v] [<- Hkv]].
  destruct (merged_keyed analyses acc Hacc k v Hkv) as [Hb Hne].
  unfold finalize_entry, TemporalMerger.finalize in *; simpl in *.
  subst per_video. rewrite Hb in *.
  apply Z.ltb_lt in Hpos. rewrite Hpos.
  rewrite !mean_or_zero_nonempty by assumption.
  split; [assumption|].
  split.
  { intros e. unfold TemporalMerger.contributing. rewrite in_flat_map. split.
    - intros [[a|] [Ha He]]; [|contradiction].
      apply filter_In in He as [He Hk]. apply String.eqb_eq in Hk.
      now exists a.
    - intros [a [Ha [He Hk]]]. exists (Some a). split; [assumption|].
      apply filter_In. split; [assumption|]. now apply String.eqb_eq. }
  repeat (split; [reflexivity|]).
  destruct (label_of_cases
              (Num.mean (map sentiment_score (TemporalMerger.contributing k analyses))))
    as [P [N Z0]].
  repeat split; intros; f_equal; auto.
Qed.

(** *** The entry of one brand through the merge *)

Lemma foldM_app {A B : Type} (f : B -> A -> Py B) (l1 l2 : list A) (acc : B) :
  foldM f (l1 ++ l2) acc = bind (foldM f l1 acc) (foldM f l2).
Proof.
  revert acc; induction l1 as [|a l1 IH]; intros acc; simpl; [reflexivity|].
  destruct (f acc a); simpl; [apply IH | reflexivity].
Qed.

Lemma In_keys_assign {V : Type} (k k' : string) (v : V) (d : dict V) :
  In k' (keys (assign k v d)) -> k' = k \/ In k' (keys d).
Proof.
  unfold keys. rewrite in_map_iff. intros [[k0 v0] [<- Hin]].
  apply In_assign in Hin as [[= -> ->] | Hin]; [now left|].
  right. apply in_map_iff. now exists (k0, v0).
Qed.

Lemma NoDup_keys_assign {V : Type} (k : string) (v : V) (d : dict V) :
  NoDup (keys d) -> NoDup (keys (assign k v d)).
Proof.
  induction d as [|[k' v'] d IH]; simpl; intros H.
  - repeat constructor. intros [].
  - inversion H as [|x l Hnin Hnd]; subst.
    destruct (String.eqb k' k) eqn:E; simpl.
    + apply String.eqb_eq in E. subst. now constructor.
    + constructor; [|now apply IH].
      intros Hin. apply In_keys_assign in Hin as [-> | Hin]; [|contradiction].
      now rewrite String.eqb_refl in E.
Qed.

Lemma NoDup_keys_lookup {V : Type} (k : string) (v : V) (d : dict V) :
  NoDup (keys d) -> In (k, v) d -> lookup k d = Some v.
Proof.
  induction d as [|[k' v'] d IH]; simpl; [contradiction|].
  intros H Hin. inversion H as [|x l Hnin Hnd]; subst.
  destruct Hin as [[= -> ->] | Hin].
  - now rewrite String.eqb_refl.
  - destruct (String.eqb k' k) eqn:E; [|now apply IH].
    apply String.eqb_eq in E. subst. exfalso. apply Hnin.
    apply in_map_iff. now exists (k, v).
Qed.

Definition brand_is (b : string) (m : BrandMetric) : bool := String.eqb (bm_brand m) b.

Lemma filter_singleton_split {A : Type} (f : A -> bool) (l : list A) (x : A) :
  filter f l = [x] ->
  exists pre post,
    l = (pre ++ x :: post)%list /\ f x = true
    /\ (forall y, In y pre -> f y = false) /\ (forall y, In y post -> f y = false).
Proof.
  induction l as [|a l IH]; simpl; [discriminate|].
  destruct (f a) eqn:E.
  - intros [= -> Hrest]. exists [], l. repeat split; try assumption.
    + intros y [].
    + intros y Hy. destruct (f y) eqn:Ey; [|reflexivity].
      assert (Hin : In y (filter f l)) by (apply filter_In; now split).
      rewrite Hrest in Hin. contradiction.
  - intros H. destruct (IH H) as [pre [post [-> [Hx [Hpre Hpost]]]]].
    exists (a :: pre), post. repeat split; try assumption.
    intros y [<- | Hy]; [assumption | now apply Hpre].
Qed.

Lemma foldM_merge_other (b : string) (c : Q) (ms : list BrandMetric)
    (D D' : dict BrandMetric) :
  (forall m, In m ms -> brand_is b m = false) ->
  foldM (TemporalMerger.merge_brand_metric c) ms D = Return D' ->
  lookup b D' = lookup b D /\ (NoDup (keys D) -> NoDup (keys D')).
Proof.
  intros Hother.
  apply (foldM_invariant
           (fun D0 => lookup b D0 = lookup b D /\ (NoDup (keys D) -> NoDup (keys D0)))
           (TemporalMerger.merge_brand_metric c) ms); [|now split].
  intros D0 m D0' Hin [HD0 Hnd] Hmerge.
  apply merge_brand_metric_inv in Hmerge as [e [_ ->]].
  split.
  - rewrite lookup_assign_other; [assumption|].
    apply Hother in Hin. unfold brand_is in Hin. now apply String.eqb_neq in Hin.
  - intros H. now apply NoDup_keys_assign, Hnd.
Qed.

(** the per-video entries of one video hold exactly one entry [m] for the
    brand: after the video the brand's entry is the former one having
    absorbed [m] *)
Lemma foldM_merge_one (b : string) (c : Q) (ms : list BrandMetric) (m : BrandMetric)
    (D D' : dict BrandMetric) :
  filter (brand_is b) ms = [m] ->
  foldM (TemporalMerger.merge_brand_metric c) ms D = Return D' ->
  (exists e,
     TemporalMerger.absorb c (get (lookup b D) (TemporalMerger.new_combined b)) m = Return e
     /\ lookup b D' = Some e)
  /\ (NoDup (keys D) -> NoDup (keys D')).
Proof.
  intros Hf Hfold.
  destruct (filter_singleton_split _ _ _ Hf) as [pre [post [-> [Hm [Hpre Hpost]]]]].
  rewrite foldM_app in Hfold.
  destruct (foldM _ pre D) as [D1|] eqn:E1; simpl in Hfold; [|discriminate].
  destruct (TemporalMerger.merge_brand_metric c D1 m) as [D2|] eqn:E2;
    simpl in Hfold; [|discriminate].
  destruct (foldM_merge_other b c pre D D1 Hpre E1) as [L1 N1].
  destruct (foldM_merge_other b c post D2 D' Hpost Hfold) as [L2 N2].
  apply merge_brand_metric_inv in E2 as [e [He ->]].
  unfold brand_is in Hm. apply String.eqb_eq in Hm. rewrite Hm in *.
  split.
  - exists e. split.
    + now rewrite <- L1.
    + rewrite L2. apply lookup_assign_same.
  - intros H. now apply N2, NoDup_keys_assign, N1.
Qed.

Definition timeline_is (a : Appearance) (t0 t1 : Q) : Prop :=
  exists x y, timeline a = Some [x; y] /\ (x == t0)%Q /\ (y == t1)%Q.

Lemma offset_timeline_pair (c : Q) (a : Appearance) (t0 t1 : Q) :
  timeline_is a t0 t1 ->
  exists a', TemporalMerger.offset_timeline c a = Return a'
             /\ timeline_is a' (t0 + c) (t1 + c).
Proof.
  intros [x [y [Ht [Hx Hy]]]]. unfold TemporalMerger.offset_timeline. rewrite Ht.
  eexists. split; [reflexivity|].
  exists (x + c)%Q, (y + c)%Q. simpl. split; [reflexivity|].
  now rewrite Hx, Hy.
Qed.

Lemma timeline_is_eq (a : Appearance) (t0 t1 u0 u1 : Q) :
  (t0 == u0)%Q -> (t1 == u1)%Q -> timeline_is a t0 t1 -> timeline_is a u0 u1.
Proof.
  intros H0 H1 [x [y [Ht [Hx Hy]]]]. exists x, y. split; [assumption|].
  now rewrite Hx, Hy, H0, H1.
Qed.

Lemma mapM_single {A B : Type} (f : A -> Py B) (a : A) (b : B) (l : list B) :
  f a = Return b -> mapM f [a] = Return l -> l = [b].
Proof. intros Hf. simpl. rewrite Hf. simpl. now intros [= <-]. Qed.

Lemma finalize_keeps (analyses : list (option Analysis)) (k : string) (v : BrandMetric) :
  bm_brand (TemporalMerger.finalize analyses k v) = bm_brand v
  /\ appearances (TemporalMerger.finalize analyses k v) = appearances v
  /\ total_appearances (TemporalMerger.finalize analyses k v) = total_appearances v
  /\ total_exposure_time (TemporalMerger.finalize analyses k v) = total_exposure_time v.
Proof. repeat split. Qed.

(** C1. Two single-video analyses, the first 600 seconds long, in which a
    brand has one appearance each, at [10,20] and at [5,15]: the merge
    returns, and its one entry for the brand holds exactly two appearances,
    at [10,20] and at [605,615], with total_appearances 2 and
    total_exposure_time 20. *)
Theorem merge_two_videos_offsets_second
    (A1 A2 : Analysis) (video_ids : list string) (b : string)
    (m1 m2 : BrandMetric) (a1 a2 : Appearance) :
  (video_duration_minutes (summary A1) * 60 == 600)%Q ->
  (video_duration_minutes (summary A2) * 60 == 600)%Q ->
  shiftable_analysis A1 -> shiftable_analysis A2 ->
  filter (brand_is b) (brand_metrics A1) = [m1] ->
  filter (brand_is b) (brand_metrics A2) = [m2] ->
  appearances m1 = [a1] -> timeline_is a1 10 20 ->
  appearances m2 = [a2] -> timeline_is a2 5 15 ->
  total_appearances m1 = 1%Z -> total_appearances m2 = 1%Z ->
  (total_exposure_time m1 == 10)%Q -> (total_exposure_time m2 == 10)%Q ->
  exists c m a1' a2',
    TemporalMerger.combine_video_analyses [Some A1; Some A2] video_ids = Return c
    /\ In m (combined_brand_metrics c) /\ bm_brand m = b
    /\ (forall m', In m' (combined_brand_metrics c) -> bm_brand m' = b -> m' = m)
    /\ appearances m = [a1'; a2']
    /\ timeline_is a1' 10 20 /\ timeline_is a2' 605 615
    /\ total_appearances m = 2%Z
    /\ (total_exposure_time m == 20)%Q.
Proof.
  intros Hd1 _ Hw1 Hw2 Hf1 Hf2 Ha1 Ht1 Ha2 Ht2 Hn1 Hn2 He1 He2.
  destruct (merge_analysis_total TemporalMerger.acc0 A1 Hw1) as [acc1 E1].
  destruct (merge_analysis_total acc1 A2 Hw2) as [acc2 E2].
  assert (Hfold : foldM TemporalMerger.merge_analysis [Some A1; Some A2]
                        TemporalMerger.acc0 = Return acc2).
  { cbn [foldM]. rewrite E1. cbn [bind foldM]. now rewrite E2. }
  destruct (combine_total [Some A1; Some A2] video_ids acc2) as [c Hc];
    [discriminate | assumption |].
  pose proof (merged_keyed _ _ Hfold) as Hkeyed.
  destruct (combine_inv _ _ _ Hc) as [acc2' [Hfold' [Hlist _]]].
  rewrite Hfold in Hfold'. injection Hfold' as <-.
  (* the brand's entry after the first video *)
  apply merge_analysis_inv in E1 as [od1 [D1 [_ [F1 [C1 [_ [_ Hcum1]]]]]]].
  destruct (foldM_merge_one b _ _ m1 _ _ Hf1 F1) as [[e1 [Habs1 L1]] N1].
  simpl in Habs1, Hcum1.
  apply absorb_inv in Habs1 as [oa1 [_ [_ [M1 [_ [_ [B1 [X1 [T1 P1]]]]]]]]].
  rewrite Ha1 in M1.
  destruct (offset_timeline_pair 0 a1 10 20 Ht1) as [a1' [O1 Ht1']].
  apply (mapM_single _ _ _ _ O1) in M1. subst oa1.
  (* and after the second *)
  apply merge_analysis_inv in E2 as [od2 [D2 [_ [F2 [C2 _]]]]].
  rewrite C1 in F2.
  destruct (foldM_merge_one b _ _ m2 _ _ Hf2 F2) as [[e2 [Habs2 L2]] N2].
  rewrite L1 in Habs2. simpl in Habs2.
  apply absorb_inv in Habs2 as [oa2 [_ [_ [M2 [_ [_ [B2 [X2 [T2 P2]]]]]]]]].
  rewrite Ha2 in M2.
  destruct (offset_timeline_pair (TemporalMerger.acc_cumulative_duration_seconds acc1)
              a2 5 15 Ht2) as [a2' [O2 Ht2']].
  apply (mapM_single _ _ _ _ O2) in M2. subst oa2.
  assert (Hnd : NoDup (keys D2)) by (apply N2, N1; constructor).
  exists c, (finalize_entry [Some A1; Some A2] (b, e2)), a1', a2'.
  split; [assumption|]. rewrite Hlist, C2.
  split.
  { apply (Permutation_in _ (Permutation_sym (sort_desc_perm _))).
    apply in_map. now apply lookup_In. }
  split; [simpl; now rewrite B2, B1|].
  split.
  { intros m' Hin Hb.
    apply (Permutation_in _ (sort_desc_perm _)) in Hin.
    apply in_map_iff in Hin as [[k v] [<- Hkv]].
    rewrite <- C2 in Hkv. destruct (Hkeyed k v Hkv) as [Hbk _].
    unfold finalize_entry in Hb. simpl in Hb. rewrite Hbk in Hb. subst k.
    rewrite C2 in Hkv. apply (NoDup_keys_lookup _ _ _ Hnd) in Hkv.
    rewrite L2 in Hkv. now injection Hkv as <-. }
  split; [simpl; now rewrite P2, P1|].
  split; [apply (timeline_is_eq a1' (10 + 0) (20 + 0)); [ring | ring | assumption]|].
  split.
  { apply (timeline_is_eq a2' _ _ 605 615) in Ht2'; [assumption| |];
      rewrite Hcum1, Hd1; reflexivity. }
  split; [simpl; rewrite T2, T1, Hn1, Hn2; reflexivity|].
  simpl. rewrite X2, X1, He1, He2. reflexivity.
Qed.

Lemma merge_two_videos_example :
  exists c m a1' a2',
    TemporalMerger.combine_video_analyses [Some Sample.video1; Some Sample.video2]
                                          ["v1"; "v2"] = Return c
    /\ In m (combined_brand_metrics c) /\ bm_brand m = "Nike"
    /\ (forall m', In m' (combined_brand_metrics c) -> bm_brand m' = "Nike" -> m' = m)
    /\ appearances m = [a1'; a2']
    /\ timeline_is a1' 10 20 /\ timeline_is a2' 605 615
    /\ total_appearances m = 2%Z
    /\ (total_exposure_time m == 20)%Q.
Proof.
  eapply (merge_two_videos_offsets_second Sample.video1 Sample.video2 ["v1"; "v2"] "Nike").
  - reflexivity.
  - reflexivity.
  - split; repeat constructor; intros t; discriminate.
  - split; repeat constructor; intros t; discriminate.
  - reflexivity.
  - reflexivity.
  - reflexivity.
  - eexists. eexists. split; [reflexivity|]. split; reflexivity.
  - reflexivity.
  - eexists. eexists. split; [reflexivity|]. split; reflexivity.
  - reflexivity.
  - reflexivity.
  - reflexivity.
  - reflexivity.
Defined.

(** Nike appears in two of the three videos, scored 6 and 8: the merged
    score is their mean, 7, and the third video plays no part. *)
Lemma merged_scores_example :
  exists c m,
    TemporalMerger.combine_video_analyses
      [Some Sample.video1; Some Sample.video2; Some Sample.video3]
      ["v1"; "v2"; "v3"] = Return c
    /\ In m (combined_brand_metrics c)
    /\ bm_brand m = "Nike"
    /\ List.length (TemporalMerger.contributing "Nike"
                      [Some Sample.video1; Some Sample.video2; Some Sample.video3]) = 2%nat
    /\ (contextual_value_score m == 7)%Q
    /\ sentiment_label m = Some "positive".
Proof.
  let r := eval vm_compute in
             (TemporalMerger.combine_video_analyses
                [Some Sample.video1; Some Sample.video2; Some Sample.video3]
                ["v1"; "v2"; "v3"]) in
  match r with
  | Return ?c =>
      exists c;
      let ms := eval vm_compute in (combined_brand_metrics c) in
      match ms with
      | ?m :: _ => exists m;
          destruct (merged_scores_are_means
                      [Some Sample.video1; Some Sample.video2; Some Sample.video3]
                      ["v1"; "v2"; "v3"] c m)
            as [_ [_ [Hcvs [_ [_ [_ [Hpos _]]]]]]];
            [vm_compute; reflexivity | left; reflexivity | reflexivity |]
      end
  end.
  split; [vm_compute; reflexivity|].
  split; [left; reflexivity|].
  split; [reflexivity|].
  split; [vm_compute; reflexivity|].
  split.
  - rewrite Hcvs. vm_compute. reflexivity.
  - apply Hpos. vm_compute. reflexivity.
Defined.

(** ** The units of a parallel run *)

Lemma analyze_single_video_parallel_result
    (w : Collaborators) (video_id : string) (selected_brands : list string)
    (tracker : AnalysisStatus) :
  fst (ParallelOrchestrator.analyze_single_video_parallel w video_id selected_brands tracker)
  = ParallelOrchestrator.Finished
      (ParallelOrchestrator.unit_result video_id
         (SingleVideo.outcome w video_id selected_brands)).
Proof.
  unfold ParallelOrchestrator.analyze_single_video_parallel,
    SingleVideo.analyze_video_with_progress. cbn [fst].
  set (temp_job_id := video_id ++ "-temp-" ++ SingleVideo.str_nat (clock tracker)).
  destruct (single_video_final w video_id selected_brands temp_job_id tracker)
    as [j [Hj Ho]].
  unfold Lifecycle.final in Hj. rewrite Hj.
  unfold ParallelOrchestrator.poll, ParallelOrchestrator.unit_result.
  destruct (SingleVideo.outcome w video_id selected_brands) as [a | e].
  - destruct Ho as [-> [-> _]]. reflexivity.
  - destruct Ho as [-> [_ ->]]. reflexivity.
Qed.

(** what the future of request index [i] returns *)
Definition future (worlds : list Collaborators) (video_ids : list string)
    (selected_brands : list string) (i : nat) : list ParallelOrchestrator.UnitResult :=
  match nth_error worlds i, nth_error video_ids i with
  | Some w, Some video_id =>
      [ParallelOrchestrator.unit_result video_id
         (SingleVideo.outcome w video_id selected_brands)]
  | _, _ => []
  end.

(** every future returns, and the driver sees the results in completion
    order *)
Lemma as_completed_results (worlds : list Collaborators) (video_ids : list string)
    (selected_brands : list string) (order : list nat) :
  forall tracker,
    ParallelOrchestrator.results_of
      (fst (ParallelOrchestrator.as_completed worlds video_ids selected_brands order tracker))
    = Some (flat_map (future worlds video_ids selected_brands) order).
Proof.
  induction order as [|i order IH]; intros tracker; [reflexivity|].
  cbn [ParallelOrchestrator.as_completed flat_map]. unfold future at 1.
  destruct (nth_error worlds i) as [w|]; [|apply IH].
  destruct (nth_error video_ids i) as [video_id|]; [|apply IH].
  pose proof (analyze_single_video_parallel_result w video_id selected_brands tracker) as Hr.
  destruct (ParallelOrchestrator.analyze_single_video_parallel _ _ _ tracker)
    as [r tracker1]. cbn [fst] in Hr. subst r.
  specialize (IH tracker1).
  destruct (ParallelOrchestrator.as_completed _ _ _ order tracker1) as [rs tracker2].
  cbn [fst] in *. cbn [ParallelOrchestrator.results_of]. now rewrite IH.
Qed.

(** ** What a single-video run publishes *)

Lemma fold_left_invariant_In {A St : Type} (P : St -> Prop) (f : St -> A -> St)
    (l : list A) (s : St) :
  P s -> (forall s a, In a l -> P s -> P (f s a)) -> P (fold_left f l s).
Proof.
  revert s; induction l as [|a l IH]; intros s Hs Hf; simpl; [assumption|].
  apply IH.
  - apply Hf; [now left | assumption].
  - intros s' a' Hin. apply Hf. now right.
Qed.

Lemma ensure_category_timeline (a : Appearance) :
  timeline (SingleVideo.ensure_category a) = timeline a.
Proof. unfold SingleVideo.ensure_category. now destruct (sponsorship_category a). Qed.

Definition shiftable_entry (d : SingleVideo.BrandData) : Prop :=
  Forall shiftable (SingleVideo.bd_appearances d)
  /\ Forall shiftable (SingleVideo.bd_ad_placements d)
  /\ Forall shiftable (SingleVideo.bd_in_game_placements d).

Lemma Forall_snoc {A : Type} (P : A -> Prop) (l : list A) (a : A) :
  Forall P l -> P a -> Forall P (l ++ [a]).
Proof. intros Hl Ha. apply Forall_app. split; [assumption | now constructor]. Qed.

Lemma collect_brand_data_shiftable (brand_appearances : list Appearance) :
  Forall shiftable brand_appearances ->
  forall k d, In (k, d) (SingleVideo.collect_brand_data brand_appearances) ->
              shiftable_entry d.
Proof.
  intros Hall. unfold SingleVideo.collect_brand_data.
  apply (fold_left_invariant_In
           (fun bd => forall k d, In (k, d) bd -> shiftable_entry d)).
  - intros k d [].
  - intros bd a Ha IH k d. unfold SingleVideo.process_appearance.
    destruct (_ || _); [apply IH|].
    intros Hin. apply In_assign in Hin as [[= _ ->] | Hin]; [|now apply (IH k)].
    set (entry := get (lookup _ bd) SingleVideo.new_brand_data).
    assert (He : shiftable_entry entry).
    { subst entry. destruct (lookup _ bd) as [d0|] eqn:L; simpl.
      - apply lookup_In in L. now apply (IH _ _ L).
      - repeat split; constructor. }
    assert (Hs : shiftable (SingleVideo.ensure_category a)).
    { intros t. rewrite ensure_category_timeline.
      now apply (proj1 (Forall_forall _ _) Hall). }
    destruct He as [H1 [H2 H3]].
    unfold shiftable_entry, SingleVideo.record_appearance; simpl.
    destruct (is_ _ _); repeat split; try assumption; now apply Forall_snoc.
Qed.

Lemma brand_metric_fields (w : Collaborators) (video_duration : Q)
    (kv : string * SingleVideo.BrandData) (m : BrandMetric) :
  SingleVideo.brand_metric_or_fail w video_duration kv = Return m ->
  appearances m = SingleVideo.bd_appearances (snd kv)
  /\ ad_placements m = SingleVideo.bd_ad_placements (snd kv)
  /\ in_game_placements m = SingleVideo.bd_in_game_placements (snd kv).
Proof.
  unfold SingleVideo.brand_metric_or_fail, SingleVideo.brand_metric_of.
  destruct (Scoring.calculate_ai_contextual_score _ _) as [r|]; simpl; [|discriminate].
  destruct (Scoring.unpack r) as [[s i]|]; simpl; [|discriminate].
  destruct (Scoring.estimate_social_engagement _ _) as [z|]; simpl; [|discriminate].
  intros [= <-]. simpl. repeat split.
Qed.

Lemma outcome_published (w : Collaborators) (vid : string)
    (selected_brands : list string) (a : Analysis) :
  SingleVideo.outcome w vid selected_brands = Return a ->
  (forall brand_appearances,
     client_analyze w = Return brand_appearances -> Forall shiftable brand_appearances) ->
  video_id a = vid /\ shiftable_analysis a.
Proof.
  unfold SingleVideo.outcome.
  destruct (client_analyze w) as [apps|] eqn:Hd; simpl; [|discriminate].
  destruct (SingleVideo.compute_brand_metrics _ _ _) as [ms|] eqn:Hm; simpl; [|discriminate].
  intros [= <-] Hall. simpl. split; [reflexivity|].
  specialize (Hall apps eq_refl).
  pose proof (collect_brand_data_shiftable apps Hall) as Hbd.
  split; simpl.
  - apply Forall_forall. intros x Hx. apply in_flat_map in Hx as [d [Hd' Hx]].
    apply in_map_iff in Hd' as [[k d0] [<- Hkd]].
    destruct (Hbd k d0 Hkd) as [H1 _].
    now apply (proj1 (Forall_forall _ _) H1).
  - apply Forall_forall. intros m Hin.
    destruct (mapM_In _ _ _ _ Hm Hin) as [[k d] [Hkd Hf]].
    apply brand_metric_fields in Hf as [E1 [E2 E3]]. simpl in *.
    unfold shiftable_metric. rewrite E1, E2, E3. now apply (Hbd k d).
Qed.

(** ** Partial success of a parallel run (C6) *)

Lemma merge_all_video_ids (l : list Analysis) :
  Forall shiftable_analysis l ->
  forall acc,
    exists acc',
      foldM TemporalMerger.merge_analysis (map Some l) acc = Return acc'
      /\ map vi_video_id (TemporalMerger.acc_videos_analyzed acc')
         = (map vi_video_id (TemporalMerger.acc_videos_analyzed acc) ++ map video_id l)%list.
Proof.
  induction 1 as [|a l Ha Hl IH]; intros acc.
  - exists acc. split; [reflexivity|]. simpl. now rewrite app_nil_r.
  - destruct (merge_analysis_total acc a Ha) as [acc1 E1].
    destruct (IH acc1) as [acc' [E' Hids]].
    exists acc'. cbn [map foldM]. rewrite E1. cbn [bind]. split; [assumption|].
    apply merge_analysis_inv in E1 as [_ [_ [_ [_ [_ [_ [Hv _]]]]]]].
    rewrite Hids, Hv, <- app_assoc. reflexivity.
Qed.

Lemma combine_some_total (l : list Analysis) (video_ids : list string) :
  l <> [] -> Forall shiftable_analysis l ->
  exists c,
    TemporalMerger.combine_video_analyses (map Some l) video_ids = Return c
    /\ individual_analyses c = map Some l
    /\ map vi_video_id (videos_analyzed (combined_summary c)) = map video_id l.
Proof.
  intros Hne Hl.
  destruct (merge_all_video_ids l Hl TemporalMerger.acc0) as [acc [Hacc Hids]].
  destruct (combine_total (map Some l) video_ids acc) as [c Hc];
    [destruct l; [congruence | discriminate] | assumption |].
  exists c. split; [assumption|].
  apply combine_inv in Hc as [acc' [Hacc' [_ [Hv [_ Hi]]]]].
  rewrite Hacc in Hacc'. injection Hacc' as <-.
  split; [assumption|]. now rewrite Hv, Hids.
Qed.

Lemma multi_video_final_completed (video_ids : list string)
    (results : list ParallelOrchestrator.UnitResult) (c : Combined)
    (job_id : string) (tracker : AnalysisStatus) :
  video_ids <> [] ->
  TemporalMerger.combine_video_analyses (ParallelOrchestrator.successful results) video_ids
  = Return c ->
  exists j,
    Lifecycle.final job_id
      (ParallelOrchestrator.analyze_multiple_videos_with_progress_updates video_ids results)
      (create_job job_id tracker) = Some j
    /\ status j = completed /\ data j = Some (MultiVideo c) /\ error j = None.
Proof.
  intros Hne Hc.
  unfold ParallelOrchestrator.analyze_multiple_videos_with_progress_updates.
  rewrite Hc. destruct video_ids as [|v video_ids]; [congruence|].
  set (u0 := ParallelOrchestrator.multi_update "initialization" 0 _ _).
  set (loop := ParallelOrchestrator.loop_updates _ 0 results).
  set (u85 := ParallelOrchestrator.multi_update "finalizing" 85 _ _).
  set (uc := ParallelOrchestrator.multi_completed_update _ _ _).
  destruct (final_snoc job_id (u0 :: loop ++ [u85]) uc tracker)
    as [now [jp [Hf [Hd He]]]].
  { constructor; [now split|]. apply Forall_app. split.
    - apply loop_updates_quiet.
    - repeat constructor. }
  replace (u0 :: loop ++ [u85] ++ [uc])%list with ((u0 :: loop ++ [u85]) ++ [uc])%list
    by (simpl; now rewrite <- app_assoc).
  rewrite Hf. eexists. split; [reflexivity|]. simpl. repeat split. assumption.
Qed.

(** the analyses of the units that succeeded, by request index *)
Definition analyses_of (worlds : list Collaborators) (video_ids : list string)
    (selected_brands : list string) (i : nat) : list Analysis :=
  match nth_error worlds i, nth_error video_ids i with
  | Some w, Some video_id =>
      match SingleVideo.outcome w video_id selected_brands with
      | Return a => [a]
      | Raise _ => []
      end
  | _, _ => []
  end.

Lemma successful_app (rs rs' : list ParallelOrchestrator.UnitResult) :
  ParallelOrchestrator.successful (rs ++ rs')
  = (ParallelOrchestrator.successful rs ++ ParallelOrchestrator.successful rs')%list.
Proof. apply flat_map_app. Qed.

Lemma successful_futures (worlds : list Collaborators) (video_ids : list string)
    (selected_brands : list string) (order : list nat) :
  ParallelOrchestrator.successful
    (flat_map (future worlds video_ids selected_brands) order)
  = map Some (flat_map (analyses_of worlds video_ids selected_brands) order).
Proof.
  induction order as [|i order IH]; [reflexivity|].
  cbn [flat_map]. rewrite successful_app, map_app, IH. f_equal.
  unfold future, analyses_of.
  destruct (nth_error worlds i) as [w|]; [|reflexivity].
  destruct (nth_error video_ids i) as [v|]; [|reflexivity].
  now destruct (SingleVideo.outcome w v selected_brands).
Qed.

Lemma published_inv (worlds : list Collaborators) (video_ids : list string)
    (selected_brands : list string) (order : list nat) (a : Analysis) :
  In a (flat_map (analyses_of worlds video_ids selected_brands) order) ->
  exists i w v,
    In i order /\ nth_error worlds i = Some w /\ nth_error video_ids i = Some v
    /\ SingleVideo.outcome w v selected_brands = Return a.
Proof.
  intros Hin. apply in_flat_map in Hin as [i [Hi Ha]]. unfold analyses_of in Ha.
  destruct (nth_error worlds i) as [w|] eqn:Ew; [|contradiction].
  destruct (nth_error video_ids i) as [v|] eqn:Ev; [|contradiction].
  destruct (SingleVideo.outcome w v selected_brands) as [a0|] eqn:Eo; [|contradiction].
  destruct Ha as [<- | []]. now exists i, w, v.
Qed.

Definition is_raise (o : Py Analysis) : bool :=
  match o with Raise _ => true | Return _ => false end.

(** Partial failure with well-formed detections.  Three distinct videos
    analysed in parallel, exactly one of which fails, in any completion
    order, when no detection carries a one-entry timeline: every future
    returns, the merge is given exactly the two successful analyses, the job
    ends completed with the combined result and no error, and the id of the
    failed video is not among videos_analyzed. *)
Theorem partial_failure_tolerated
    (w0 w1 w2 : Collaborators) (v0 v1 v2 : string) (selected_brands : list string)
    (order : list nat) (pool_tracker : AnalysisStatus)
    (job_id : string) (tracker : AnalysisStatus) :
  Permutation order [0; 1; 2]%nat ->
  NoDup [v0; v1; v2] ->
  (forall w brand_appearances,
     In w [w0; w1; w2] -> client_analyze w = Return brand_appearances ->
     Forall shiftable brand_appearances) ->
  List.length (filter is_raise [ SingleVideo.outcome w0 v0 selected_brands;
                                 SingleVideo.outcome w1 v1 selected_brands;
                                 SingleVideo.outcome w2 v2 selected_brands ]) = 1%nat ->
  exists results c j,
    ParallelOrchestrator.results_of
      (fst (ParallelOrchestrator.as_completed [w0; w1; w2] [v0; v1; v2]
              selected_brands order pool_tracker)) = Some results
    /\ List.length (ParallelOrchestrator.successful results) = 2%nat
    /\ Lifecycle.final job_id
         (ParallelOrchestrator.analyze_multiple_videos_with_progress_updates
            [v0; v1; v2] results)
         (create_job job_id tracker) = Some j
    /\ status j = completed /\ error j = None /\ data j = Some (MultiVideo c)
    /\ individual_analyses c = ParallelOrchestrator.successful results
    /\ List.length (videos_analyzed (combined_summary c)) = 2%nat
    /\ (forall i w v e,
          nth_error [w0; w1; w2] i = Some w -> nth_error [v0; v1; v2] i = Some v ->
          SingleVideo.outcome w v selected_brands = Raise e ->
          ~ In v (map vi_video_id (videos_analyzed (combined_summary c)))).
Proof.
  intros Hperm Hnd Hshift Hone.
  set (worlds := [w0; w1; w2]) in *. set (video_ids := [v0; v1; v2]) in *.
  set (ok := flat_map (analyses_of worlds video_ids selected_brands) order).
  assert (Hlen : List.length ok = 2%nat).
  { subst ok.
    rewrite (Permutation_length
               (Permutation_flat_map (analyses_of worlds video_ids selected_brands) Hperm)).
    unfold analyses_of, worlds, video_ids. cbn [flat_map nth_error].
    destruct (SingleVideo.outcome w0 v0 selected_brands),
             (SingleVideo.outcome w1 v1 selected_brands),
             (SingleVideo.outcome w2 v2 selected_brands);
      simpl in Hone |- *; congruence. }
  assert (Hpub : forall a, In a ok ->
            exists i w v, nth_error worlds i = Some w /\ nth_error video_ids i = Some v
                          /\ SingleVideo.outcome w v selected_brands = Return a
                          /\ video_id a = v /\ shiftable_analysis a).
  { intros a Ha. apply published_inv in Ha as [i [w [v [_ [Ew [Ev Eo]]]]]].
    exists i, w, v. repeat split; try assumption;
      apply (outcome_published w v selected_brands a Eo);
      intros apps Hd; apply (Hshift w); try assumption;
      now apply (nth_error_In worlds i). }
  destruct (combine_some_total ok video_ids) as [c [Hc [Hind Hids]]].
  { intros E. rewrite E in Hlen. discriminate. }
  { apply Forall_forall. intros a Ha. now destruct (Hpub a Ha) as [_ [_ [_ [_ [_ [_ [_ H]]]]]]]. }
  set (results := flat_map (future worlds video_ids selected_brands) order).
  assert (Hsucc : ParallelOrchestrator.successful results = map Some ok)
    by apply successful_futures.
  destruct (multi_video_final_completed video_ids results c job_id tracker)
    as [j [Hj [Hs [Hd He]]]]; [discriminate | now rewrite Hsucc |].
  exists results, c, j.
  split; [apply as_completed_results|].
  split; [now rewrite Hsucc, length_map|].
  split; [assumption|]. split; [assumption|]. split; [assumption|].
  split; [assumption|]. split; [now rewrite Hsucc|].
  split; [now rewrite <- (length_map vi_video_id), Hids, length_map|].
  intros i w v e Ew Ev Eo Hin. rewrite Hids in Hin.
  apply in_map_iff in Hin as [a [Hv Ha]].
  destruct (Hpub a Ha) as [i' [w' [v' [Ew' [Ev' [Eo' [Hv' _]]]]]]].
  assert (Hii : i = i').
  { apply (proj1 (NoDup_nth_error video_ids) Hnd).
    - apply nth_error_Some. congruence.
    - congruence. }
  subst i'. congruence.
Qed.

Lemma partial_failure_example :
  exists results c j,
    ParallelOrchestrator.results_of
      (fst (ParallelOrchestrator.as_completed
              [ Sample.world [Sample.detection "Nike" 10 20 "game_action" "secondary"] 600 60;
                Sample.world_down;
                Sample.world [Sample.detection "Nike" 5 15 "replay" "primary"] 300 80 ]
              ["v1"; "v2"; "v3"] ["Nike"] [2; 0; 1]%nat init)) = Some results
    /\ List.length (ParallelOrchestrator.successful results) = 2%nat
    /\ Lifecycle.final "multi-1"
         (ParallelOrchestrator.analyze_multiple_videos_with_progress_updates
            ["v1"; "v2"; "v3"] results)
         (create_job "multi-1" init) = Some j
    /\ status j = completed /\ error j = None /\ data j = Some (MultiVideo c)
    /\ individual_analyses c = ParallelOrchestrator.successful results
    /\ List.length (videos_analyzed (combined_summary c)) = 2%nat
    /\ (forall i w v e,
          nth_error
            [ Sample.world [Sample.detection "Nike" 10 20 "game_action" "secondary"] 600 60;
              Sample.world_down;
              Sample.world [Sample.detection "Nike" 5 15 "replay" "primary"] 300 80 ] i
          = Some w ->
          nth_error ["v1"; "v2"; "v3"] i = Some v ->
          SingleVideo.outcome w v ["Nike"] = Raise e ->
          ~ In v (map vi_video_id (videos_analyzed (combined_summary c)))).
Proof.
  apply (partial_failure_tolerated
           (Sample.world [Sample.detection "Nike" 10 20 "game_action" "secondary"] 600 60)
           Sample.world_down
           (Sample.world [Sample.detection "Nike" 5 15 "replay" "primary"] 300 80)
           "v1" "v2" "v3" ["Nike"] [2; 0; 1]%nat init "multi-1" init).
  - apply perm_trans with [0; 2; 1]%nat; [apply perm_swap | apply perm_skip, perm_swap].
  - repeat constructor; simpl; intuition discriminate.
  - intros w apps [<- | [<- | [<- | []]]] [= <-];
      repeat constructor; intros t; discriminate.
  - vm_compute. reflexivity.
Defined.

(** ** Completion order and timeline offsets (C3) *)

(** the start of each video when the videos of [l] are laid end to end from
    [from] on *)
Fixpoint starts (from : Q) (l : list Analysis) : list Q :=
  match l with
  | [] => []
  | a :: l' => from :: starts (from + video_duration_minutes (summary a) * 60)%Q l'
  end.

Lemma merge_analysis_start (acc acc' : TemporalMerger.Acc) (a : Analysis) :
  TemporalMerger.merge_analysis acc (Some a) = Return acc' ->
  map start_time_seconds (TemporalMerger.acc_videos_analyzed acc')
  = (map start_time_seconds (TemporalMerger.acc_videos_analyzed acc)
     ++ [TemporalMerger.acc_cumulative_duration_seconds acc])%list.
Proof.
  unfold TemporalMerger.merge_analysis.
  destruct (mapM _ (raw_detections a)) as [od|]; simpl; [|discriminate].
  destruct (foldM _ (brand_metrics a) _) as [D|]; simpl; [|discriminate].
  intros [= <-]. simpl. now rewrite map_app.
Qed.

(** The merge lays the videos end to end in the order of the list it is
    given: whatever order the caller passes is the order of the offsets. *)
Lemma merge_offsets_follow_argument_order (l : list Analysis) :
  forall acc acc',
    foldM TemporalMerger.merge_analysis (map Some l) acc = Return acc' ->
    map start_time_seconds (TemporalMerger.acc_videos_analyzed acc')
    = (map start_time_seconds (TemporalMerger.acc_videos_analyzed acc)
       ++ starts (TemporalMerger.acc_cumulative_duration_seconds acc) l)%list.
Proof.
  induction l as [|a l IH]; intros acc acc'.
  - simpl. intros [= <-]. now rewrite app_nil_r.
  - cbn [map foldM].
    destruct (TemporalMerger.merge_analysis acc (Some a)) as [acc1|] eqn:E1;
      cbn [bind]; [|discriminate].
    intros H. rewrite (IH _ _ H), (merge_analysis_start _ _ _ E1), <- app_assoc.
    apply merge_analysis_inv in E1 as [_ [_ [_ [_ [_ [_ [_ Hc]]]]]]].
    now rewrite Hc.
Qed.

Lemma combine_offsets_follow_argument_order (l : list Analysis) (video_ids : list string)
    (c : Combined) :
  TemporalMerger.combine_video_analyses (map Some l) video_ids = Return c ->
  map start_time_seconds (videos_analyzed (combined_summary c)) = starts 0 l.
Proof.
  intros Hc. apply combine_inv in Hc as [acc [Hacc [_ [Hv _]]]].
  rewrite Hv. now rewrite (merge_offsets_follow_argument_order l _ _ Hacc).
Qed.

(** where each merged video starts on the combined timeline *)
Definition offsets_of (c : Combined) : list (string * Q) :=
  map (fun v => (vi_video_id v, Qred (start_time_seconds v)))
      (videos_analyzed (combined_summary c)).

(** the timelines of a merged entry, in lowest terms *)
Definition timelines_of (m : BrandMetric) : list (list Q) :=
  map (fun a => map Qred (get (timeline a) [])) (appearances m).

(** C3, evaluated. Videos v1 (600 s, Nike at [10,20]) and v2 (300 s, Nike at
    [5,15]) are requested in this order.  When v1 completes first, v1 starts
    at 0 and v2 at 600.  When v2 completes first, the job completes with v2
    at 0 and v1 at 300, and Nike's appearance in v1, the first requested
    video, is placed at [310,320]: the offsets follow the order of
    completion, not the order of the request. *)
Theorem completion_order_decides_offsets :
  let worlds :=
    [ Sample.world [Sample.detection "Nike" 10 20 "game_action" "secondary"] 600 60;
      Sample.world [Sample.detection "Nike" 5 15 "replay" "primary"] 300 80 ] in
  let video_ids := ["v1"; "v2"] in
  (exists results c,
     ParallelOrchestrator.results_of
       (fst (ParallelOrchestrator.as_completed worlds video_ids ["Nike"] [0; 1]%nat init))
     = Some results
     /\ TemporalMerger.combine_video_analyses
          (ParallelOrchestrator.successful results) video_ids = Return c
     /\ offsets_of c = [("v1", 0%Q); ("v2", 600%Q)]
     /\ map timelines_of (combined_brand_metrics c) = [[[10; 20]; [605; 615]]]%Q)
  /\
  (exists results c j,
     ParallelOrchestrator.results_of
       (fst (ParallelOrchestrator.as_completed worlds video_ids ["Nike"] [1; 0]%nat init))
     = Some results
     /\ TemporalMerger.combine_video_analyses
          (ParallelOrchestrator.successful results) video_ids = Return c
     /\ Lifecycle.final "multi-1"
          (ParallelOrchestrator.analyze_multiple_videos_with_progress_updates
             video_ids results)
          (create_job "multi-1" init) = Some j
     /\ status j = completed /\ data j = Some (MultiVideo c)
     /\ offsets_of c = [("v2", 0%Q); ("v1", 300%Q)]
     /\ map timelines_of (combined_brand_metrics c) = [[[5; 15]; [310; 320]]]%Q).
Proof.
  intros worlds video_ids. split.
  - let r := eval vm_compute in
               (ParallelOrchestrator.results_of
                  (fst (ParallelOrchestrator.as_completed worlds video_ids ["Nike"]
                          [0; 1]%nat init))) in
    match r with
    | Some ?rs =>
        exists rs;
        let cr := eval vm_compute in
                    (TemporalMerger.combine_video_analyses
                       (ParallelOrchestrator.successful rs) video_ids) in
        match cr with
        | Return ?c => exists c
        end
    end.
    repeat split; vm_compute; reflexivity.
  - let r := eval vm_compute in
               (ParallelOrchestrator.results_of
                  (fst (ParallelOrchestrator.as_completed worlds video_ids ["Nike"]
                          [1; 0]%nat init))) in
    match r with
    | Some ?rs =>
        exists rs;
        let cr := eval vm_compute in
                    (TemporalMerger.combine_video_analyses
                       (ParallelOrchestrator.successful rs) video_ids) in
        match cr with
        | Return ?c =>
            exists c;
            let jr := eval vm_compute in
                        (Lifecycle.final "multi-1"
                           (ParallelOrchestrator.analyze_multiple_videos_with_progress_updates
                              video_ids rs)
                           (create_job "multi-1" init)) in
            match jr with
            | Some ?j => exists j
            end
        end
    end.
    repeat split; vm_compute; reflexivity.
Qed.

(** * Further properties of the code *)

(** ** Upload filter *)

Lemma after_last_dot_no_dot (s : string) :
  PyStr.contains "." s = false -> Uploads.after_last_dot s = None.
Proof.
  induction s as [|c s IH]; [reflexivity|].
  cbn [PyStr.contains Uploads.after_last_dot]. intros H.
  apply orb_false_iff in H as [Hp Hc]. rewrite (IH Hc).
  destruct (Ascii.eqb c ".") eqn:E; [|reflexivity].
  apply Ascii.eqb_eq in E. subst c. simpl in Hp.
  destruct s; discriminate.
Qed.

Lemma after_last_dot_app (stem ext : string) :
  Uploads.after_last_dot ext = None ->
  Uploads.after_last_dot (stem ++ String "."%char ext) = Some ext.
Proof.
  intros H. induction stem as [|c stem IH]; simpl.
  - now rewrite H.
  - now rewrite IH.
Qed.

(** X1. [allowed_file] looks at nothing but the text after the last dot, and
    compares it without regard to case; a name without a dot is refused. *)
Theorem allowed_file_last_extension (stem ext : string) :
  PyStr.contains "." ext = false ->
  Uploads.allowed_file (stem ++ "." ++ ext)
  = PyStr.mem (PyStr.lower ext) Uploads.ALLOWED_EXTENSIONS
  /\ Uploads.allowed_file ext = false.
Proof.
  intros H. apply after_last_dot_no_dot in H. unfold Uploads.allowed_file.
  change (stem ++ "." ++ ext) with (stem ++ String "."%char ext).
  now rewrite (after_last_dot_app stem ext H), H.
Qed.

Lemma allowed_file_last_extension_example :
  Uploads.allowed_file ("final.cut.v2" ++ "." ++ "MP4")
  = PyStr.mem (PyStr.lower "MP4") Uploads.ALLOWED_EXTENSIONS
  /\ Uploads.allowed_file "MP4" = false.
Proof. apply (allowed_file_last_extension "final.cut.v2" "MP4"). reflexivity. Defined.

Example allowed_file_double_extension :
  Uploads.allowed_file "match.mp4.exe" = false /\ Uploads.allowed_file "match.MP4" = true.
Proof. split; reflexivity. Qed.

(** ** Placement effectiveness *)

Definition two_point_timeline (app : Appearance) : bool :=
  match timeline app with Some [_; _] => true | _ => false end.

Lemma tally_invariant (brand_data : list Appearance) (t0 : Placement.Tally) :
  (0 <= Placement.t_optimal t0)%Z -> (0 <= Placement.t_suboptimal t0)%Z ->
  (Placement.t_optimal t0 + Placement.t_suboptimal t0
   = Z.of_nat (List.length (Placement.t_windows t0)))%Z ->
  let t := fold_left Placement.tally_appearance brand_data t0 in
  (0 <= Placement.t_optimal t)%Z /\ (0 <= Placement.t_suboptimal t)%Z
  /\ (Placement.t_optimal t + Placement.t_suboptimal t
      = Z.of_nat (List.length (Placement.t_windows t)))%Z
  /\ List.length (Placement.t_windows t)
     = (List.length (Placement.t_windows t0)
        + List.length (filter two_point_timeline brand_data))%nat.
Proof.
  revert t0. induction brand_data as [|app l IH]; intros t0 H1 H2 H3; simpl.
  - repeat split; try assumption. lia.
  - assert (Hstep :
      let t1 := Placement.tally_appearance t0 app in
      (0 <= Placement.t_optimal t1)%Z /\ (0 <= Placement.t_suboptimal t1)%Z
      /\ (Placement.t_optimal t1 + Placement.t_suboptimal t1
          = Z.of_nat (List.length (Placement.t_windows t1)))%Z
      /\ List.length (Placement.t_windows t1)
         = (List.length (Placement.t_windows t0)
            + (if two_point_timeline app then 1 else 0))%nat).
    { unfold Placement.tally_appearance, two_point_timeline.
      destruct (timeline app) as [[|a [|b [|c r]]]|]; simpl;
        try (repeat split; try assumption; lia).
      rewrite length_app. simpl.
      destruct (Placement.is_optimal app); simpl; repeat split; lia. }
    destruct Hstep as [S1 [S2 [S3 S4]]].
    destruct (IH _ S1 S2 S3) as [I1 [I2 [I3 I4]]].
    repeat split; try assumption.
    rewrite I4, S4. destruct (two_point_timeline app); simpl; lia.
Qed.

Lemma share_bounds (a t : Z) :
  (0 <= a)%Z -> (a <= t)%Z -> (0 < t)%Z ->
  (0 <= inject_Z a / inject_Z t * 100)%Q /\ (inject_Z a / inject_Z t * 100 <= 100)%Q.
Proof.
  intros Ha Hat Ht.
  assert (Hpos : (0 < inject_Z t)%Q)
    by (change 0%Q with (inject_Z 0); now rewrite <- Zlt_Qlt).
  split.
  - apply Qmult_le_0_compat; [|discriminate].
    apply Qle_shift_div_l; [assumption|]. rewrite Qmult_0_l.
    change 0%Q with (inject_Z 0). now rewrite <- Zle_Qle.
  - setoid_replace (100 : Q) with (1 * 100)%Q at 2 by ring.
    apply Qmult_le_compat_r; [|discriminate].
    apply Qle_shift_div_r; [assumption|]. rewrite Qmult_1_l. now rewrite <- Zle_Qle.
Qed.

(** X2. The placement tally: every appearance with a two-point timeline yields
    one engagement window and is counted once, as optimal or as suboptimal;
    the others are not counted; the placement score lies between 0 and 100
    and is 0 when nothing was counted. *)
Theorem placement_effectiveness_tally
    (brand_data : list Appearance) (video_duration : Q) (m : Placement.PlacementMetrics) :
  Placement.calculate_placement_effectiveness brand_data video_duration = Some m ->
  (0 <= Placement.optimal_placements m)%Z
  /\ (0 <= Placement.suboptimal_placements m)%Z
  /\ (Placement.optimal_placements m + Placement.suboptimal_placements m
      = Z.of_nat (List.length (Placement.engagement_windows m)))%Z
  /\ List.length (Placement.engagement_windows m)
     = List.length (filter two_point_timeline brand_data)
  /\ (0 <= Placement.placement_score m)%Q /\ (Placement.placement_score m <= 100)%Q
  /\ (Placement.engagement_windows m = [] -> Placement.placement_score m = 0%Q).
Proof.
  unfold Placement.calculate_placement_effectiveness.
  destruct brand_data as [|app l]; [discriminate|].
  set (data := app :: l).
  pose proof (tally_invariant data (Placement.mkTally 0 0 [])
                (Z.le_refl 0) (Z.le_refl 0) eq_refl) as Hinv.
  cbv zeta in Hinv.
  set (t := fold_left Placement.tally_appearance data (Placement.mkTally 0 0 [])) in *.
  destruct Hinv as [H1 [H2 [H3 H4]]]. simpl in H4.
  intros [= <-]. simpl.
  repeat split; try assumption.
  - destruct (0 <? _)%Z eqn:E; [|discriminate].
    apply Z.ltb_lt in E. apply share_bounds; lia.
  - destruct (0 <? _)%Z eqn:E; [|discriminate].
    apply Z.ltb_lt in E. apply share_bounds; lia.
  - intros Hw. rewrite Hw in H3. simpl in H3.
    destruct (0 <? _)%Z eqn:E; [|reflexivity].
    apply Z.ltb_lt in E. lia.
Qed.

Lemma placement_effectiveness_tally_example :
  exists m,
    Placement.calculate_placement_effectiveness
      [Sample.interview; Sample.reversed] 600 = Some m
    /\ (Placement.optimal_placements m + Placement.suboptimal_placements m = 2)%Z
    /\ (Placement.placement_score m <= 100)%Q.
Proof.
  eexists. split; [reflexivity|].
  destruct (placement_effectiveness_tally [Sample.interview; Sample.reversed] 600 _ eq_refl)
    as [_ [_ [H3 [_ [_ [H6 _]]]]]].
  split; [exact H3 | exact H6].
Defined.

(** ** The classifier and the schema *)

(** X3. For every placement type the [BrandAppearance] schema admits, the
    category is decided by the type alone: the context is never consulted,
    and the five advertising types are the ones mapped to ad_placement. *)
Theorem schema_types_classified_by_type (placement_type : string) :
  In placement_type BrandAppearanceModel.types ->
  forall context,
    BrandClassifier.categorize_sponsorship_placement placement_type context
    = if PyStr.mem placement_type BrandClassifier.ad_placement_types
      then "ad_placement" else "in_game_placement".
Proof.
  intros Hin context. simpl in Hin.
  repeat (destruct Hin as [<- | Hin]; [reflexivity|]). contradiction.
Qed.

Lemma schema_types_classified_by_type_example :
  BrandClassifier.categorize_sponsorship_placement "jersey_sponsor" "commercial"
  = "in_game_placement".
Proof.
  apply (schema_types_classified_by_type "jersey_sponsor"). simpl. tauto.
Defined.

(** ** The brand filter *)

Lemma append_assoc3 (a b c : string) : (a ++ b) ++ c = a ++ (b ++ c).
Proof. induction a as [|x a IH]; simpl; [reflexivity | now rewrite IH]. Qed.

Lemma append_empty_r (a : string) : a ++ "" = a.
Proof. induction a as [|x a IH]; simpl; [reflexivity | now rewrite IH]. Qed.

Lemma lower_app (a b : string) :
  PyStr.lower (a ++ b) = PyStr.lower a ++ PyStr.lower b.
Proof. induction a as [|x a IH]; simpl; [reflexivity | now rewrite IH]. Qed.

Lemma endswith_iff (s suffix : string) :
  PyStr.endswith s suffix = true <-> exists pre, s = pre ++ suffix.
Proof.
  induction s as [|c s IH]; cbn [PyStr.endswith].
  - rewrite orb_false_r, String.eqb_eq. split.
    + intros <-. now exists "".
    + intros [pre H]. destruct pre; [assumption | discriminate].
  - rewrite orb_true_iff, String.eqb_eq, IH. split.
    + intros [<- | [pre ->]]; [now exists "" | now exists (String c pre)].
    + intros [pre H]. destruct pre as [|c' pre]; simpl in H.
      * now left.
      * right. inversion H. now exists pre.
Qed.

Lemma contains_lower (w s : string) :
  PyStr.contains w s = true -> PyStr.contains (PyStr.lower w) (PyStr.lower s) = true.
Proof.
  rewrite !contains_iff. intros [pre [post ->]].
  exists (PyStr.lower pre), (PyStr.lower post). now rewrite !lower_app.
Qed.

Lemma rev_string_acc (s acc : string) :
  PyStr.rev_string acc s = PyStr.rev_string "" s ++ acc.
Proof.
  revert acc; induction s as [|c s IH]; intros acc; simpl; [reflexivity|].
  rewrite IH, (IH (String c "")), append_assoc3. reflexivity.
Qed.

(** every word [split] returns is a piece of the string *)
Lemma split_aux_substring (s : string) :
  forall cur w,
    In w (PyStr.split_aux s cur) ->
    exists pre post, PyStr.rev_string "" cur ++ s = pre ++ w ++ post.
Proof.
  induction s as [|c s IH]; intros cur w; cbn [PyStr.split_aux].
  - unfold PyStr.flush. destruct cur as [|x cur]; [intros []|].
    intros [<- | []]. exists "", "". now rewrite !append_empty_r.
  - destruct (PyStr.is_space c).
    + unfold PyStr.flush. intros Hin.
      assert (Hcases : (cur <> "" /\ w = PyStr.rev_string "" cur)
                       \/ In w (PyStr.split_aux s "")).
      { destruct cur as [|x cur]; [now right|].
        destruct Hin as [<- | Hin]; [left; split; [discriminate | reflexivity] | now right]. }
      destruct Hcases as [[_ ->] | Hin'].
      * now exists "", (String c s).
      * destruct (IH _ _ Hin') as [pre [post H]]. simpl in H.
        exists (PyStr.rev_string "" cur ++ String c pre), post.
        rewrite append_assoc3. simpl. now rewrite H.
    + intros Hin. destruct (IH _ _ Hin) as [pre [post H]].
      exists pre, post. rewrite <- H. simpl.
      rewrite (rev_string_acc cur (String c "")), append_assoc3. reflexivity.
Qed.

Lemma split_substring (s w : string) :
  In w (PyStr.split s) -> PyStr.contains w s = true.
Proof.
  intros Hin. apply contains_iff.
  destruct (split_aux_substring s "" w Hin) as [pre [post H]]. now exists pre, post.
Qed.

Lemma person_names_are_keywords (w : string) :
  PyStr.mem w BrandClassifier.person_first_names = true ->
  In w BrandClassifier.non_brand_keywords.
Proof.
  unfold PyStr.mem. rewrite existsb_exists. intros [k [Hin Hk]].
  apply String.eqb_eq in Hk. subst k. simpl in Hin. simpl.
  repeat (destruct Hin as [<- | Hin]; [tauto|]). contradiction.
Qed.

Lemma person_rule_subsumed (name : string) :
  BrandClassifier.looks_like_person (PyStr.split name) = true ->
  BrandClassifier.hits_keyword (PyStr.lower name) = true.
Proof.
  unfold BrandClassifier.looks_like_person.
  destruct (PyStr.split name) as [|w0 [|w1 [|w2 l]]] eqn:E; try discriminate.
  rewrite !andb_true_iff, existsb_exists. intros [_ [w [Hw Hm]]].
  apply person_names_are_keywords in Hm.
  assert (Hsub : PyStr.contains w name = true)
    by (apply split_substring; now rewrite E).
  apply contains_lower in Hsub.
  unfold BrandClassifier.hits_keyword. apply existsb_exists. now exists (PyStr.lower w).
Qed.

Lemma suffix_rule_subsumed (name : string) :
  existsb (fun suffix => PyStr.endswith name suffix)
          BrandClassifier.educational_suffixes = true ->
  BrandClassifier.hits_keyword (PyStr.lower name) = true.
Proof.
  rewrite existsb_exists. intros [suffix [Hin He]].
  apply endswith_iff in He as [pre ->].
  apply hits_keyword_iff. exists (PyStr.lower suffix), (PyStr.lower pre), "".
  rewrite lower_app, append_empty_r. split; [|reflexivity].
  simpl in Hin. simpl.
  repeat (destruct Hin as [<- | Hin]; [simpl; tauto|]). contradiction.
Qed.

(** X4. The filter amounts to two rules.  A name is rejected exactly when its
    stripped, lowercased form holds a blocked keyword, or when it is one of
    the four generic place names written as a single word.  The personal-name
    test and the educational-suffix test never reject a name the keyword test
    lets through, and the allow-list of known brands never changes the
    verdict. *)
Theorem is_valid_brand_two_rules (brand_name : string) :
  BrandClassifier.is_valid_brand brand_name = false <->
  BrandClassifier.hits_keyword (PyStr.lower (PyStr.strip brand_name)) = true
  \/ (List.length (PyStr.split (PyStr.strip brand_name)) = 1%nat
      /\ PyStr.mem (PyStr.lower (PyStr.strip brand_name))
                   BrandClassifier.generic_places = true).
Proof.
  unfold BrandClassifier.is_valid_brand.
  set (name := PyStr.strip brand_name).
  destruct (BrandClassifier.looks_like_person (PyStr.split name)) eqn:Ep.
  { apply person_rule_subsumed in Ep. split; [now left | reflexivity]. }
  destruct (BrandClassifier.hits_keyword (PyStr.lower name)) eqn:Ek.
  { split; [now left | reflexivity]. }
  destruct (existsb _ BrandClassifier.educational_suffixes) eqn:Es.
  { apply suffix_rule_subsumed in Es. congruence. }
  destruct ((List.length (PyStr.split name) =? 1)%nat
            && PyStr.mem (PyStr.lower name) BrandClassifier.generic_places) eqn:Eg.
  { apply andb_true_iff in Eg as [E1 E2]. apply Nat.eqb_eq in E1.
    split; [right; now split | reflexivity]. }
  split.
  - destruct (_ && negb _); [discriminate|].
    destruct (BrandClassifier.hits_known_brand _); discriminate.
  - intros [H | [H1 H2]]; [discriminate|].
    apply Nat.eqb_eq in H1. rewrite H1, H2 in Eg. discriminate.
Qed.

(** ** White space around a name *)

Lemma rstrip_cons (c : ascii) (s : string) :
  PyStr.rstrip (String c s) =
  match PyStr.rstrip s with
  | EmptyString => if PyStr.is_space c then EmptyString else String c EmptyString
  | r => String c r
  end.
Proof. reflexivity. Qed.

Lemma rstrip_idempotent (s : string) : PyStr.rstrip (PyStr.rstrip s) = PyStr.rstrip s.
Proof.
  induction s as [|c s IH]; [reflexivity|].
  rewrite rstrip_cons. destruct (PyStr.rstrip s) as [|x r] eqn:E.
  - destruct (PyStr.is_space c) eqn:Ec; [reflexivity|].
    rewrite rstrip_cons. simpl. now rewrite Ec.
  - rewrite rstrip_cons. now rewrite IH.
Qed.

Definition starts_clean (s : string) : Prop :=
  match s with
  | EmptyString => True
  | String c _ => PyStr.is_space c = false
  end.

Lemma lstrip_starts_clean (s : string) : starts_clean (PyStr.lstrip s).
Proof.
  induction s as [|c s IH]; simpl; [exact I|].
  destruct (PyStr.is_space c) eqn:E; [assumption | exact E].
Qed.

Lemma rstrip_starts_clean (s : string) : starts_clean s -> starts_clean (PyStr.rstrip s).
Proof.
  destruct s as [|c s]; [trivial|]. rewrite rstrip_cons. cbn [starts_clean]. intros Hc.
  destruct (PyStr.rstrip s); [now rewrite Hc | exact Hc].
Qed.

Lemma lstrip_clean (s : string) : starts_clean s -> PyStr.lstrip s = s.
Proof. destruct s as [|c s]; [reflexivity|]. simpl. now intros ->. Qed.

Lemma strip_idempotent (s : string) : PyStr.strip (PyStr.strip s) = PyStr.strip s.
Proof.
  unfold PyStr.strip.
  rewrite (lstrip_clean (PyStr.rstrip (PyStr.lstrip s))).
  - apply rstrip_idempotent.
  - apply rstrip_starts_clean, lstrip_starts_clean.
Qed.

(** X5. White space before or after a name does not change the verdict: the
    filter sees the stripped name only. *)
Theorem is_valid_brand_ignores_padding (brand_name : string) :
  BrandClassifier.is_valid_brand (PyStr.strip brand_name)
  = BrandClassifier.is_valid_brand brand_name.
Proof. unfold BrandClassifier.is_valid_brand. now rewrite strip_idempotent. Qed.

(** ** The job table *)

Lemma get_job_create_other (k k' : string) (tracker : AnalysisStatus) :
  k <> k' -> get_job k' (create_job k tracker) = get_job k' tracker.
Proof. intros H. unfold get_job, create_job. simpl. now apply lookup_assign_other. Qed.

Lemma get_job_update_other (k k' : string) (u : Updates) (tracker : AnalysisStatus) :
  k <> k' -> get_job k' (update_job k u tracker) = get_job k' tracker.
Proof.
  intros H. unfold get_job, update_job.
  destruct (lookup k (statuses tracker)); [|reflexivity].
  simpl. now apply lookup_assign_other.
Qed.

Lemma get_job_run_updates_other (k k' : string) (us : list Updates) :
  k <> k' ->
  forall tracker, get_job k' (run_updates k us tracker) = get_job k' tracker.
Proof.
  intros H. unfold run_updates. induction us as [|u us IH]; intros tracker; simpl.
  - reflexivity.
  - rewrite IH. now apply get_job_update_other.
Qed.

Lemma run_updates_unknown (k : string) (us : list Updates) (tracker : AnalysisStatus) :
  get_job k tracker = None -> run_updates k us tracker = tracker.
Proof.
  intros H. unfold run_updates. induction us as [|u us IH]; simpl; [reflexivity|].
  now rewrite (update_job_unknown k u tracker H).
Qed.

(** the id of the temporary job that a unit creates when the clock shows
    [n] (line 1547) *)
Definition temp_job_id (video_id : string) (n : nat) : string :=
  video_id ++ "-temp-" ++ SingleVideo.str_nat n.

(** [k] is the id of no temporary job of a run over [video_ids] *)
Definition no_temp_job (video_ids : list string) (k : string) : Prop :=
  forall video_id n, In video_id video_ids -> k <> temp_job_id video_id n.

Lemma unit_other_jobs (w : Collaborators) (video_id : string)
    (selected_brands : list string) (tracker : AnalysisStatus) (k' : string) :
  k' <> temp_job_id video_id (clock tracker) ->
  get_job k' (snd (ParallelOrchestrator.analyze_single_video_parallel
                     w video_id selected_brands tracker))
  = get_job k' tracker.
Proof.
  intros H. unfold ParallelOrchestrator.analyze_single_video_parallel,
    SingleVideo.analyze_video_with_progress. cbn [snd].
  fold (temp_job_id video_id (clock tracker)).
  rewrite get_job_run_updates_other by congruence.
  apply get_job_create_other. congruence.
Qed.

Lemma unit_temp_job (w : Collaborators) (video_id : string)
    (selected_brands : list string) (tracker : AnalysisStatus) :
  exists j,
    get_job (temp_job_id video_id (clock tracker))
            (snd (ParallelOrchestrator.analyze_single_video_parallel
                    w video_id selected_brands tracker)) = Some j
    /\ Lifecycle.terminal (status j) = true.
Proof.
  destruct (single_video_final w video_id selected_brands
              (temp_job_id video_id (clock tracker)) tracker) as [j [Hj Ho]].
  exists j. split; [exact Hj|].
  destruct (SingleVideo.outcome w video_id selected_brands);
    destruct Ho as [-> _]; reflexivity.
Qed.

Lemma unit_finishes (w : Collaborators) (video_id : string)
    (selected_brands : list string) (tracker : AnalysisStatus) :
  ParallelOrchestrator.analyze_single_video_parallel w video_id selected_brands tracker
  = (ParallelOrchestrator.Finished
       (ParallelOrchestrator.unit_result video_id
          (SingleVideo.outcome w video_id selected_brands)),
     snd (ParallelOrchestrator.analyze_single_video_parallel
            w video_id selected_brands tracker)).
Proof.
  rewrite <- (analyze_single_video_parallel_result w video_id selected_brands tracker).
  now destruct (ParallelOrchestrator.analyze_single_video_parallel _ _ _ _).
Qed.

(** a job that is neither a temporary job nor a job the driver can update
    comes out of the loop as it went in *)
Lemma run_units_other (worlds : list Collaborators) (video_ids : list string)
    (selected_brands : list string) (job_id : string) (total : nat) (k' : string) :
  no_temp_job video_ids k' ->
  forall order done tracker,
    k' <> job_id \/ get_job k' tracker = None ->
    get_job k' (snd (ParallelOrchestrator.run_units worlds video_ids selected_brands
                       order job_id total done tracker))
    = get_job k' tracker.
Proof.
  intros Hk. induction order as [|i order IH]; intros done tracker Hj; [reflexivity|].
  cbn [ParallelOrchestrator.run_units].
  destruct (nth_error worlds i) as [w|]; [|now apply IH].
  destruct (nth_error video_ids i) as [video_id|] eqn:Ev; [|now apply IH].
  rewrite unit_finishes.
  set (t1 := snd (ParallelOrchestrator.analyze_single_video_parallel _ _ _ tracker)).
  assert (H1 : get_job k' t1 = get_job k' tracker).
  { apply unit_other_jobs. apply Hk. now apply (nth_error_In _ i). }
  set (u := ParallelOrchestrator.multi_update _ _ _ _).
  assert (H2 : get_job k' (update_job job_id u t1) = get_job k' tracker).
  { destruct Hj as [Hj | Hj].
    - rewrite get_job_update_other by congruence. exact H1.
    - destruct (String.eqb_spec job_id k') as [-> | Hne].
      + rewrite update_job_unknown; congruence.
      + rewrite get_job_update_other by assumption. exact H1. }
  specialize (IH (S done) (update_job job_id u t1)).
  destruct (ParallelOrchestrator.run_units worlds video_ids selected_brands order job_id
              total (S done) (update_job job_id u t1)) as [rs t2].
  cbn [snd] in *. rewrite IH; [exact H2|].
  destruct Hj as [Hj | Hj]; [now left | right; congruence].
Qed.

(** a temporary job in its terminal status stays one through the loop *)
Lemma run_units_keeps_temp_job (worlds : list Collaborators) (video_ids : list string)
    (selected_brands : list string) (job_id : string) (total : nat) (T : string) :
  T <> job_id ->
  forall order done tracker,
    (exists j, get_job T tracker = Some j /\ Lifecycle.terminal (status j) = true) ->
    exists j,
      get_job T (snd (ParallelOrchestrator.run_units worlds video_ids selected_brands
                        order job_id total done tracker)) = Some j
      /\ Lifecycle.terminal (status j) = true.
Proof.
  intros HT. induction order as [|i order IH]; intros done tracker Hj; [exact Hj|].
  cbn [ParallelOrchestrator.run_units].
  destruct (nth_error worlds i) as [w|]; [|now apply IH].
  destruct (nth_error video_ids i) as [video_id|]; [|now apply IH].
  rewrite unit_finishes.
  set (t1 := snd (ParallelOrchestrator.analyze_single_video_parallel _ _ _ tracker)).
  set (u := ParallelOrchestrator.multi_update _ _ _ _).
  specialize (IH (S done) (update_job job_id u t1)).
  destruct (ParallelOrchestrator.run_units worlds video_ids selected_brands order job_id
              total (S done) (update_job job_id u t1)) as [rs t2].
  cbn [snd] in *. apply IH.
  rewrite get_job_update_other by congruence. subst t1.
  destruct (String.eqb_spec T (temp_job_id video_id (clock tracker))) as [-> | Hne].
  - apply unit_temp_job.
  - rewrite unit_other_jobs by assumption. exact Hj.
Qed.

(** every unit leaves its temporary job behind, in the terminal status *)
Lemma run_units_leaves_temp_jobs (worlds : list Collaborators) (video_ids : list string)
    (selected_brands : list string) (job_id : string) (total : nat) :
  no_temp_job video_ids job_id ->
  forall order done tracker i w video_id,
    In i order -> nth_error worlds i = Some w -> nth_error video_ids i = Some video_id ->
    exists n j,
      get_job (temp_job_id video_id n)
              (snd (ParallelOrchestrator.run_units worlds video_ids selected_brands
                      order job_id total done tracker)) = Some j
      /\ Lifecycle.terminal (status j) = true.
Proof.
  intros Hk. induction order as [|i0 order IH]; intros done tracker i w video_id Hi Hw Hv;
    [contradiction|].
  assert (Hin : In video_id video_ids) by now apply (nth_error_In _ i).
  cbn [ParallelOrchestrator.run_units].
  destruct Hi as [-> | Hi].
  - rewrite Hw, Hv, unit_finishes.
    set (t1 := snd (ParallelOrchestrator.analyze_single_video_parallel _ _ _ tracker)).
    set (u := ParallelOrchestrator.multi_update _ _ _ _).
    exists (clock tracker).
    pose proof (run_units_keeps_temp_job worlds video_ids selected_brands job_id total
                  (temp_job_id video_id (clock tracker))
                  (fun E => Hk video_id (clock tracker) Hin (eq_sym E))
                  order (S done) (update_job job_id u t1)) as Hkeep.
    destruct (ParallelOrchestrator.run_units worlds video_ids selected_brands order job_id
                total (S done) (update_job job_id u t1)) as [rs t2].
    cbn [snd] in *. apply Hkeep.
    rewrite get_job_update_other
      by (intros E; exact (Hk video_id (clock tracker) Hin E)).
    apply unit_temp_job.
  - destruct (nth_error worlds i0) as [w0|]; [|now apply (IH _ _ i w)].
    destruct (nth_error video_ids i0) as [v0|]; [|now apply (IH _ _ i w)].
    rewrite unit_finishes.
    set (t1 := snd (ParallelOrchestrator.analyze_single_video_parallel _ _ _ tracker)).
    set (u := ParallelOrchestrator.multi_update _ _ _ _).
    specialize (IH (S done) (update_job job_id u t1) i w video_id Hi Hw Hv).
    destruct (ParallelOrchestrator.run_units worlds video_ids selected_brands order job_id
                total (S done) (update_job job_id u t1)) as [rs t2].
    exact IH.
Qed.

(** the units of a run return what the pipeline published, in completion
    order *)
Lemma run_units_results (worlds : list Collaborators) (video_ids : list string)
    (selected_brands : list string) (job_id : string) (total : nat) :
  forall order done tracker,
    fst (ParallelOrchestrator.run_units worlds video_ids selected_brands
           order job_id total done tracker)
    = Some (flat_map (future worlds video_ids selected_brands) order).
Proof.
  induction order as [|i order IH]; intros done tracker; [reflexivity|].
  cbn [ParallelOrchestrator.run_units flat_map]. unfold future at 1.
  destruct (nth_error worlds i) as [w|]; [|apply IH].
  destruct (nth_error video_ids i) as [video_id|]; [|apply IH].
  rewrite unit_finishes.
  set (t1 := snd (ParallelOrchestrator.analyze_single_video_parallel _ _ _ tracker)).
  set (u := ParallelOrchestrator.multi_update _ _ _ _).
  specialize (IH (S done) (update_job job_id u t1)).
  destruct (ParallelOrchestrator.run_units worlds video_ids selected_brands order job_id
              total (S done) (update_job job_id u t1)) as [rs t2].
  cbn [fst] in *. now rewrite IH.
Qed.

(** the driver's run seen from one job: through the loop, then through the
    driver's closing reports *)
Lemma multi_video_run_inv (P : AnalysisStatus -> Prop)
    (worlds : list Collaborators) (video_ids : list string)
    (selected_brands : list string) (order : list nat) (job_id : string)
    (tracker : AnalysisStatus) :
  (forall u t, P t -> P (update_job job_id u t)) ->
  (forall done t,
      P t -> P (snd (ParallelOrchestrator.run_units worlds video_ids selected_brands
                       order job_id (List.length video_ids) done t))) ->
  P tracker ->
  P (ParallelOrchestrator.analyze_multiple_videos_with_progress
       worlds video_ids selected_brands order job_id tracker).
Proof.
  intros Hu Hr H0. unfold ParallelOrchestrator.analyze_multiple_videos_with_progress.
  set (u0 := ParallelOrchestrator.multi_update "initialization" _ _ _).
  destruct video_ids as [|v video_ids]; [now apply Hu, Hu|].
  specialize (Hr 0%nat (update_job job_id u0 tracker) (Hu u0 tracker H0)).
  destruct (ParallelOrchestrator.run_units _ _ _ _ _ _ _ _) as [[results|] t1];
    cbn [snd] in Hr; [|exact Hr].
  destruct (TemporalMerger.combine_video_analyses _ _); now apply Hu, Hu.
Qed.

(** X6. A job is touched only through its own id: creating a job, updating
    it, or running the single-video pipeline on it leaves every other job
    exactly as [get_job] showed it before.  A multi-video run touches,
    besides its own job, only the temporary jobs of its units: every job
    whose id is neither the run's nor of the form video_id-temp-stamp for
    one of the run's videos comes out as it went in. *)
Theorem other_jobs_untouched
    (k k' : string) (u : Updates) (tracker : AnalysisStatus)
    (w : Collaborators) (video_id : string) (selected_brands : list string)
    (worlds : list Collaborators) (video_ids : list string) (order : list nat) :
  k <> k' ->
  get_job k' (create_job k tracker) = get_job k' tracker
  /\ get_job k' (update_job k u tracker) = get_job k' tracker
  /\ get_job k' (SingleVideo.analyze_video_with_progress w video_id k selected_brands tracker)
     = get_job k' tracker
  /\ ((forall video_id n, In video_id video_ids -> k' <> temp_job_id video_id n) ->
      get_job k' (ParallelOrchestrator.analyze_multiple_videos_with_progress
                    worlds video_ids selected_brands order k tracker)
      = get_job k' tracker).
Proof.
  intros H. split; [now apply get_job_create_other|].
  split; [now apply get_job_update_other|].
  split; [now apply get_job_run_updates_other|].
  intros Hk.
  apply (multi_video_run_inv (fun t => get_job k' t = get_job k' tracker)).
  - intros u0 t Ht. now rewrite get_job_update_other.
  - intros done t Ht. rewrite run_units_other; [exact Ht | exact Hk | left; congruence].
  - reflexivity.
Qed.

Lemma other_jobs_untouched_example :
  get_job "job-2"
    (SingleVideo.analyze_video_with_progress
       (Sample.world [Sample.interview] 600 70) "v1" "job-1" ["Nike"]
       (create_job "job-1" (create_job "job-2" init)))
  = get_job "job-2" (create_job "job-1" (create_job "job-2" init))
  /\ get_job "job-2"
       (ParallelOrchestrator.analyze_multiple_videos_with_progress
          [Sample.world [Sample.interview] 600 70] ["v1"] ["Nike"] [0%nat] "job-1"
          (create_job "job-1" (create_job "job-2" init)))
     = get_job "job-2" (create_job "job-1" (create_job "job-2" init))
  /\ get_job "v1-temp-3"
       (ParallelOrchestrator.analyze_multiple_videos_with_progress
          [Sample.world [Sample.interview] 600 70] ["v1"] ["Nike"] [0%nat] "job-1"
          (create_job "job-1" (create_job "job-2" init)))
     <> None.
Proof.
  destruct (other_jobs_untouched "job-1" "job-2"
              (SingleVideo.failed_update "x")
              (create_job "job-1" (create_job "job-2" init))
              (Sample.world [Sample.interview] 600 70) "v1" ["Nike"]
              [Sample.world [Sample.interview] 600 70] ["v1"] [0%nat])
    as [_ [_ [H3 H4]]]; [discriminate|].
  split; [exact H3|]. split.
  - apply H4. intros video_id n [<- | []]. discriminate.
  - vm_compute. discriminate.
Defined.

(** X7. Updates addressed to an id the table does not hold are dropped.  A
    single-video run against a job that was never created (or was purged)
    leaves the whole table as it was.  A multi-video run against such a job
    does not create it either, and reports nothing; but its units still run:
    each leaves its temporary job video_id-temp-stamp in the table, in the
    terminal status, and these are the only jobs the run adds or changes. *)
Theorem run_on_unknown_job_is_dropped
    (k : string) (tracker : AnalysisStatus)
    (w : Collaborators) (video_id : string) (selected_brands : list string)
    (worlds : list Collaborators) (video_ids : list string) (order : list nat) :
  get_job k tracker = None ->
  SingleVideo.analyze_video_with_progress w video_id k selected_brands tracker = tracker
  /\ ((forall video_id n, In video_id video_ids -> k <> temp_job_id video_id n) ->
      let after :=
        ParallelOrchestrator.analyze_multiple_videos_with_progress
          worlds video_ids selected_brands order k tracker in
      get_job k after = None
      /\ (forall k',
            (forall video_id n, In video_id video_ids -> k' <> temp_job_id video_id n) ->
            get_job k' after = get_job k' tracker)
      /\ (forall i w video_id,
            In i order -> nth_error worlds i = Some w ->
            nth_error video_ids i = Some video_id ->
            exists n j,
              get_job (temp_job_id video_id n) after = Some j
              /\ Lifecycle.terminal (status j) = true)).
Proof.
  intros H. split; [now apply run_updates_unknown|].
  intros Hk after.
  assert (Hother : forall k',
            (forall video_id n, In video_id video_ids -> k' <> temp_job_id video_id n) ->
            get_job k' after = get_job k' tracker).
  { intros k' Hk'. subst after.
    apply (multi_video_run_inv
             (fun t => get_job k' t = get_job k' tracker /\ get_job k t = None)).
    - intros u t [Ht Hn]. now rewrite (update_job_unknown k u t Hn).
    - intros done t [Ht Hn]. split.
      + rewrite run_units_other; [exact Ht | exact Hk' |].
        destruct (String.eqb_spec k' k) as [-> | Hne]; [now right | now left].
      + rewrite run_units_other; [exact Hn | exact Hk | now right].
    - now split. }
  split; [rewrite (Hother k Hk); exact H|]. split; [exact Hother|].
  intros i w0 vid Hi Hw Hv. subst after.
  unfold ParallelOrchestrator.analyze_multiple_videos_with_progress.
  set (u0 := ParallelOrchestrator.multi_update "initialization" _ _ _).
  destruct video_ids as [|v video_ids]; [destruct i; discriminate|].
  rewrite (update_job_unknown k u0 tracker H).
  pose proof (run_units_other worlds (v :: video_ids) selected_brands k
                (List.length (v :: video_ids)) k Hk order 0%nat tracker (or_intror H))
    as Hnone.
  pose proof (run_units_leaves_temp_jobs worlds (v :: video_ids) selected_brands k
                (List.length (v :: video_ids)) Hk order 0%nat tracker i w0 vid Hi Hw Hv)
    as Htemp.
  destruct (ParallelOrchestrator.run_units _ _ _ _ _ _ _ _) as [[results|] t1];
    cbn [snd] in *; [|exact Htemp].
  rewrite H in Hnone.
  rewrite (update_job_unknown k _ t1 Hnone).
  destruct (TemporalMerger.combine_video_analyses _ _);
    rewrite (update_job_unknown k _ t1 Hnone); exact Htemp.
Qed.

Lemma run_on_unknown_job_example :
  SingleVideo.analyze_video_with_progress
    (Sample.world [Sample.interview] 600 70) "v1" "gone" ["Nike"] (create_job "job-2" init)
  = create_job "job-2" init
  /\ keys (statuses
             (ParallelOrchestrator.analyze_multiple_videos_with_progress
                [Sample.world_down] ["v1"] ["Nike"] [0%nat] "gone"
                (create_job "job-2" init)))
     = ["job-2"; "v1-temp-1"]
  /\ get_job "gone"
       (ParallelOrchestrator.analyze_multiple_videos_with_progress
          [Sample.world_down] ["v1"] ["Nike"] [0%nat] "gone" (create_job "job-2" init))
     = None.
Proof.
  destruct (run_on_unknown_job_is_dropped "gone" (create_job "job-2" init)
              (Sample.world [Sample.interview] 600 70) "v1" ["Nike"]
              [Sample.world_down] ["v1"] [0%nat]) as [H1 H2]; [reflexivity|].
  split; [exact H1|]. split; [vm_compute; reflexivity|].
  assert (Hk : forall video_id n,
             In video_id ["v1"] -> "gone" <> temp_job_id video_id n)
    by (intros video_id n [<- | []]; discriminate).
  exact (proj1 (H2 Hk)).
Defined.

(** ** The driver's own job, with and without the units in the registry *)

(** two records of a job that differ at most in [updated_at] *)
Definition same_report (j j' : Job) : Prop :=
  status j = status j' /\ progress j = progress j' /\ message j = message j'
  /\ stage j = stage j' /\ details j = details j'
  /\ brands_found j = brands_found j' /\ data j = data j' /\ error j = error j'
  /\ created_at j = created_at j'.

Lemma same_report_refl (j : Job) : same_report j j.
Proof. repeat split. Qed.

Lemma same_report_apply (u : Updates) (n n' : nat) (j j' : Job) :
  same_report j j' -> same_report (apply_updates u n j) (apply_updates u n' j').
Proof.
  intros [H1 [H2 [H3 [H4 [H5 [H6 [H7 [H8 H9]]]]]]]].
  unfold same_report, apply_updates. cbn.
  rewrite H1, H2, H3, H4, H5, H6, H7, H8, H9. repeat split.
Qed.

(** one report of the driver, on the registry with the units and on the
    registry without them *)
Lemma same_report_update (job_id : string) (u : Updates) (t t' : AnalysisStatus)
    (j j' : Job) :
  get_job job_id t = Some j -> get_job job_id t' = Some j' -> same_report j j' ->
  exists j1 j1',
    get_job job_id (update_job job_id u t) = Some j1
    /\ get_job job_id (update_job job_id u t') = Some j1'
    /\ same_report j1 j1'.
Proof.
  intros Hj Hj' Hs.
  destruct (get_job_update_job job_id u t j Hj) as [H1 _].
  destruct (get_job_update_job job_id u t' j' Hj') as [H1' _].
  eexists. eexists. split; [exact H1|]. split; [exact H1'|].
  now apply same_report_apply.
Qed.

Lemma same_report_run_units (worlds : list Collaborators) (video_ids : list string)
    (selected_brands : list string) (job_id : string) (total : nat) :
  no_temp_job video_ids job_id ->
  forall order done t t' j j',
    get_job job_id t = Some j -> get_job job_id t' = Some j' -> same_report j j' ->
    exists j1 j1',
      get_job job_id
        (snd (ParallelOrchestrator.run_units worlds video_ids selected_brands
                order job_id total done t)) = Some j1
      /\ get_job job_id
           (run_updates job_id
              (ParallelOrchestrator.loop_updates total done
                 (flat_map (future worlds video_ids selected_brands) order)) t')
         = Some j1'
      /\ same_report j1 j1'.
Proof.
  intros Hk. induction order as [|i order IH]; intros done t t' j j' Hj Hj' Hs.
  - exists j, j'. split; [exact Hj|]. split; [exact Hj'|exact Hs].
  - cbn [ParallelOrchestrator.run_units flat_map]. unfold future at 1.
    destruct (nth_error worlds i) as [w|]; [|now apply (IH done t t' j j')].
    destruct (nth_error video_ids i) as [video_id|] eqn:Ev;
      [|now apply (IH done t t' j j')].
    rewrite unit_finishes.
    set (t1 := snd (ParallelOrchestrator.analyze_single_video_parallel _ _ _ t)).
    assert (H1 : get_job job_id t1 = Some j).
    { subst t1. rewrite unit_other_jobs; [exact Hj|].
      apply Hk. now apply (nth_error_In _ i). }
    cbn [app ParallelOrchestrator.loop_updates].
    assert (Hid : ParallelOrchestrator.r_video_id
                    (ParallelOrchestrator.unit_result video_id
                       (SingleVideo.outcome w video_id selected_brands)) = video_id)
      by now destruct (SingleVideo.outcome w video_id selected_brands).
    rewrite Hid.
    set (u := ParallelOrchestrator.multi_update _ _ _ _).
    destruct (same_report_update job_id u t1 t' j j' H1 Hj' Hs)
      as [j1 [j1' [Hu [Hu' Hs1]]]].
    specialize (IH (S done) (update_job job_id u t1) (update_job job_id u t')
                   j1 j1' Hu Hu' Hs1).
    destruct (ParallelOrchestrator.run_units worlds video_ids selected_brands order job_id
                total (S done) (update_job job_id u t1)) as [rs t2].
    exact IH.
Qed.

(** Seen from the driver's own job, the run with its units in the registry
    and the driver's reports alone give the same job, the time of the last
    update apart: what is said of the job through
    [analyze_multiple_videos_with_progress_updates] holds of the run. *)
Lemma multi_video_run_reports (worlds : list Collaborators) (video_ids : list string)
    (selected_brands : list string) (order : list nat) (job_id : string)
    (tracker : AnalysisStatus) (j0 : Job) :
  no_temp_job video_ids job_id ->
  get_job job_id tracker = Some j0 ->
  exists j j',
    get_job job_id
      (ParallelOrchestrator.analyze_multiple_videos_with_progress
         worlds video_ids selected_brands order job_id tracker) = Some j
    /\ Lifecycle.final job_id
         (ParallelOrchestrator.analyze_multiple_videos_with_progress_updates
            video_ids (flat_map (future worlds video_ids selected_brands) order))
         tracker = Some j'
    /\ same_report j j'.
Proof.
  intros Hk Hj0.
  unfold ParallelOrchestrator.analyze_multiple_videos_with_progress, Lifecycle.final,
    ParallelOrchestrator.analyze_multiple_videos_with_progress_updates.
  set (results := flat_map (future worlds video_ids selected_brands) order).
  set (u0 := ParallelOrchestrator.multi_update "initialization" _ _ _).
  unfold run_updates. cbn [fold_left].
  destruct (same_report_update job_id u0 tracker tracker j0 j0 Hj0 Hj0
              (same_report_refl j0)) as [j1 [j1' [H1 [H1' Hs1]]]].
  destruct video_ids as [|v video_ids].
  - cbn [fold_left]. now apply (same_report_update job_id _ _ _ j1 j1').
  - set (total := List.length (v :: video_ids)) in *.
    rewrite !fold_left_app.
    destruct (same_report_run_units worlds (v :: video_ids) selected_brands job_id total
                Hk order 0%nat _ _ j1 j1' H1 H1' Hs1) as [j2 [j2' [H2 [H2' Hs2]]]].
    pose proof (run_units_results worlds (v :: video_ids) selected_brands job_id total
                  order 0%nat (update_job job_id u0 tracker)) as Hres.
    destruct (ParallelOrchestrator.run_units _ _ _ _ _ _ _ _) as [rs t1].
    cbn [fst snd] in *. subst rs. fold results.
    unfold run_updates in H2'. fold results in H2'.
    set (t1' := fold_left _ (ParallelOrchestrator.loop_updates total 0 results) _) in *.
    cbn [fold_left].
    set (u85 := ParallelOrchestrator.multi_update "finalizing" _ _ _).
    destruct (same_report_update job_id u85 t1 t1' j2 j2' H2 H2' Hs2)
      as [j3 [j3' [H3 [H3' Hs3]]]].
    destruct (TemporalMerger.combine_video_analyses _ _); cbn [fold_left];
      now apply (same_report_update job_id _ _ _ j3 j3').
Qed.

(** X8. [create_job] on an id in use overwrites: whatever the job held - a
    result, an error, its progress - the id now shows a fresh pending job,
    and the table still holds one job per id. *)
Theorem create_job_resets (k : string) (tracker : AnalysisStatus) :
  NoDup (keys (statuses tracker)) ->
  (exists j, get_job k (create_job k tracker) = Some j
             /\ status j = pending /\ progress j = 0%Z
             /\ data j = None /\ error j = None
             /\ created_at j = clock tracker)
  /\ NoDup (keys (statuses (create_job k tracker))).
Proof.
  intros H. split.
  - exists (new_job (clock tracker)). split; [apply get_job_create_job|]. repeat split.
  - unfold create_job. simpl. now apply NoDup_keys_assign.
Qed.

Lemma create_job_resets_example :
  exists j,
    get_job "job-1"
      (create_job "job-1"
         (SingleVideo.analyze_video_with_progress Sample.world_down "v1" "job-1" []
            (create_job "job-1" init))) = Some j
    /\ status j = pending /\ error j = None.
Proof.
  destruct (create_job_resets "job-1"
              (SingleVideo.analyze_video_with_progress Sample.world_down "v1" "job-1" []
                 (create_job "job-1" init)))
    as [[j [Hj [Hs [_ [_ [He _]]]]]] _].
  - vm_compute. repeat constructor. intros [].
  - exists j. now repeat split.
Defined.

Lemma lookup_absent {V : Type} (k : string) (d : dict V) :
  ~ In k (keys d) -> lookup k d = None.
Proof.
  induction d as [|[k' v'] d IH]; simpl; [reflexivity|]. intros H.
  destruct (String.eqb k' k) eqn:E.
  - apply String.eqb_eq in E. subst. exfalso. apply H. now left.
  - apply IH. intros Hin. apply H. now right.
Qed.

Lemma keys_remove_if {V : Type} (drop : string -> V -> bool) (d : dict V) (k : string) :
  In k (keys (remove_if drop d)) -> In k (keys d).
Proof.
  unfold keys, remove_if. rewrite !in_map_iff. intros [kv [Hk Hin]].
  apply filter_In in Hin as [Hin _]. now exists kv.
Qed.

Lemma NoDup_keys_remove_if {V : Type} (drop : string -> V -> bool) (d : dict V) :
  NoDup (keys d) -> NoDup (keys (remove_if drop d)).
Proof.
  induction d as [|[k v] d IH]; simpl; intros H; [constructor|].
  inversion H as [|x l Hnin Hnd]; subst.
  unfold remove_if in *. simpl. destruct (negb (drop k v)); simpl.
  - constructor; [|now apply IH].
    intros Hin. apply Hnin. now apply (keys_remove_if drop).
  - now apply IH.
Qed.

Lemma lookup_remove_if {V : Type} (drop : string -> V -> bool) (d : dict V) (k : string) :
  NoDup (keys d) ->
  lookup k (remove_if drop d)
  = match lookup k d with
    | Some v => if drop k v then None else Some v
    | None => None
    end.
Proof.
  induction d as [|[k' v'] d IH]; simpl; intros H; [reflexivity|].
  inversion H as [|x l Hnin Hnd]; subst.
  unfold remove_if in *. simpl.
  destruct (String.eqb k' k) eqn:E.
  - apply String.eqb_eq in E. subst k'.
    destruct (drop k v') eqn:Ed; simpl.
    + apply lookup_absent. intros Hin. apply Hnin. now apply (keys_remove_if drop).
    + now rewrite String.eqb_refl.
  - destruct (drop k' v'); simpl; [now apply IH|]. rewrite E. now apply IH.
Qed.

(** X9. [cleanup_old_jobs] removes exactly the jobs created before the cutoff:
    a job survives, unchanged, if and only if it was created at or after
    [now - hours]; the ids stay unique. *)
Theorem cleanup_removes_exactly_old_jobs
    (hours : nat) (k : string) (j : Job) (tracker : AnalysisStatus) :
  NoDup (keys (statuses tracker)) ->
  (get_job k (cleanup_old_jobs hours tracker) = Some j
   <-> get_job k tracker = Some j /\ (clock tracker - hours <= created_at j)%nat)
  /\ NoDup (keys (statuses (cleanup_old_jobs hours tracker))).
Proof.
  intros H. split.
  - unfold get_job, cleanup_old_jobs. simpl. rewrite (lookup_remove_if _ _ _ H).
    destruct (lookup k (statuses tracker)) as [j0|].
    + destruct (created_at j0 <? clock tracker - hours)%nat eqn:E.
      * apply Nat.ltb_lt in E. split; [discriminate|].
        intros [[= ->] Hle]. lia.
      * apply Nat.ltb_ge in E. split.
        -- intros [= ->]. now split.
        -- now intros [[= ->] _].
    + split; [discriminate | now intros [? _]].
  - unfold cleanup_old_jobs. simpl. now apply NoDup_keys_remove_if.
Qed.

Lemma cleanup_example :
  (get_job "old" (cleanup_old_jobs 1 (create_job "new" (create_job "mid" (create_job "old" init))))
   = Some (new_job 0)
   <-> get_job "old" (create_job "new" (create_job "mid" (create_job "old" init)))
       = Some (new_job 0)
       /\ (clock (create_job "new" (create_job "mid" (create_job "old" init))) - 1
           <= created_at (new_job 0))%nat)
  /\ NoDup (keys (statuses (cleanup_old_jobs 1
              (create_job "new" (create_job "mid" (create_job "old" init)))))).
Proof.
  apply (cleanup_removes_exactly_old_jobs 1 "old" (new_job 0)).
  vm_compute. repeat constructor; simpl; intuition discriminate.
Defined.

(** ** Scores and rounding *)

Lemma clamp_0_10_range (x : Q) :
  (0 <= Scoring.clamp_0_10 x)%Q /\ (Scoring.clamp_0_10 x <= 10)%Q.
Proof.
  unfold Scoring.clamp_0_10.
  destruct (Qle_bool x 10) eqn:E1.
  - apply Qle_bool_iff in E1.
    destruct (Qle_bool x 0) eqn:E2.
    + split; [apply Qle_refl | discriminate].
    + split; [|assumption].
      apply Qlt_le_weak, Qnot_le_lt. intros H. apply Qle_bool_iff in H. congruence.
  - destruct (Qle_bool 10 0) eqn:E2; [discriminate|].
    split; [discriminate | apply Qle_refl].
Qed.

Lemma score_pair_range (reply : ScoreReply) (brand_data : list Appearance)
    (score : Q) (insights : Insights) :
  Scoring.calculate_ai_contextual_score reply brand_data = Return (ScorePair score insights) ->
  (0 <= score)%Q /\ (score <= 10)%Q.
Proof.
  unfold Scoring.calculate_ai_contextual_score.
  destruct brand_data as [|a l].
  - intros [= <- _]. split; [apply Qle_refl | discriminate].
  - destruct reply as [ai | | msg]; try discriminate.
    intros [= <- _]. apply clamp_0_10_range.
Qed.

(** X10. Whatever the scoring service answers - a score far above 100, a negative
    one, none at all - the contextual score handed to the caller lies
    between 0 and 10. *)
Theorem contextual_score_in_range
    (reply : ScoreReply) (brand_data : list Appearance) (score : Q) (insights : Insights) :
  Scoring.calculate_ai_contextual_score reply brand_data = Return (ScorePair score insights) ->
  (0 <= score)%Q /\ (score <= 10)%Q.
Proof. apply score_pair_range. Qed.

Lemma contextual_score_in_range_example :
  exists score insights,
    Scoring.calculate_ai_contextual_score
      (Answered (mkAiAnalysis (Some 2500%Q) None None)) [Sample.interview]
    = Return (ScorePair score insights)
    /\ (0 <= score)%Q /\ (score <= 10)%Q.
Proof.
  eexists. eexists. split; [reflexivity|].
  apply (contextual_score_in_range
           (Answered (mkAiAnalysis (Some 2500%Q) None None)) [Sample.interview] _ _ eq_refl).
Defined.

Lemma round_half_even_cases (y : Q) :
  Num.round_half_even y = Qfloor y
  \/ (Num.round_half_even y = (Qfloor y + 1)%Z /\ (inject_Z (Qfloor y) < y)%Q).
Proof.
  unfold Num.round_half_even.
  destruct (Num.Qltb (2 * (y - inject_Z (Qfloor y))) 1) eqn:E1; [now left|].
  apply Qltb_false_iff in E1.
  assert (Hlt : (inject_Z (Qfloor y) < y)%Q).
  { apply Qnot_le_lt. intros Hle.
    assert (H0 : (2 * (y - inject_Z (Qfloor y)) <= 0)%Q).
    { setoid_replace 0%Q with (2 * 0)%Q by ring.
      apply Qmult_le_l; [reflexivity|].
      apply (Qplus_le_l _ _ (inject_Z (Qfloor y))). ring_simplify. exact Hle. }
    apply (Qle_not_lt _ _ E1). apply (Qle_lt_trans _ 0); [assumption | reflexivity]. }
  destruct (Num.Qltb 1 _); [right; now split|].
  destruct (Z.even (Qfloor y)); [now left | right; now split].
Qed.

Lemma round_half_even_bounds (lo hi : Z) (y : Q) :
  (inject_Z lo <= y)%Q -> (y <= inject_Z hi)%Q ->
  (lo <= Num.round_half_even y)%Z /\ (Num.round_half_even y <= hi)%Z.
Proof.
  intros Hlo Hhi.
  assert (F1 : (lo <= Qfloor y)%Z)
    by (rewrite <- (Qfloor_Z lo); now apply Qfloor_resp_le).
  assert (F2 : (Qfloor y <= hi)%Z)
    by (rewrite <- (Qfloor_Z hi); now apply Qfloor_resp_le).
  destruct (round_half_even_cases y) as [-> | [-> Hlt]]; [now split|].
  split; [lia|].
  assert (Hf : (Qfloor y < hi)%Z).
  { rewrite Zlt_Qlt. now apply (Qlt_le_trans _ y). }
  lia.
Qed.

Lemma round1_range (x : Q) :
  (0 <= x)%Q -> (x <= 10)%Q -> (0 <= Num.round1 x)%Q /\ (Num.round1 x <= 10)%Q.
Proof.
  intros H0 H10. unfold Num.round1.
  destruct (round_half_even_bounds 0 100 (x * 10)) as [L U].
  - change (inject_Z 0) with 0%Q. apply Qmult_le_0_compat; [assumption | discriminate].
  - setoid_replace (inject_Z 100) with (10 * 10)%Q by reflexivity.
    apply Qmult_le_compat_r; [assumption | discriminate].
  - split.
    + apply Qle_shift_div_l; [reflexivity|]. rewrite Qmult_0_l.
      change 0%Q with (inject_Z 0). now rewrite <- Zle_Qle.
    + apply Qle_shift_div_r; [reflexivity|].
      setoid_replace (10 * 10)%Q with (inject_Z 100) by reflexivity.
      now rewrite <- Zle_Qle.
Qed.

(** ** What the single-video pipeline publishes *)

Definition is_ad (x : Appearance) : bool := is_ (sponsorship_category x) "ad_placement".

(** what holds of the entry [d] kept under the brand name [k] *)
Record entry_ok (k : string) (d : SingleVideo.BrandData) : Prop := {
  ok_name : k <> "" /\ BrandClassifier.is_valid_brand k = true;
  ok_members :
    forall x, In x (SingleVideo.bd_appearances d) ->
              PyStr.strip (get (brand x) "") = k /\ sponsorship_category x <> None;
  ok_ad : SingleVideo.bd_ad_placements d = filter is_ad (SingleVideo.bd_appearances d);
  ok_in_game :
    SingleVideo.bd_in_game_placements d
    = filter (fun x => negb (is_ad x)) (SingleVideo.bd_appearances d);
  ok_time :
    (SingleVideo.bd_total_exposure_time d
     == SingleVideo.bd_ad_placement_time d + SingleVideo.bd_in_game_placement_time d)%Q
}.

Lemma ensure_category_set (x : Appearance) :
  brand (SingleVideo.ensure_category x) = brand x
  /\ sponsorship_category (SingleVideo.ensure_category x) <> None.
Proof.
  unfold SingleVideo.ensure_category.
  destruct (sponsorship_category x) eqn:E; simpl; split; congruence.
Qed.

Lemma new_entry_ok (k : string) :
  k <> "" -> BrandClassifier.is_valid_brand k = true ->
  entry_ok k SingleVideo.new_brand_data.
Proof.
  intros H1 H2. constructor; simpl; try reflexivity; [now split | intros x []].
Qed.

Lemma record_appearance_entry_ok (k : string) (x : Appearance) (d : SingleVideo.BrandData) :
  PyStr.strip (get (brand x) "") = k -> sponsorship_category x <> None ->
  entry_ok k d -> entry_ok k (SingleVideo.record_appearance x d).
Proof.
  intros Hb Hc [Hn Hm Ha Hg Ht]. constructor; simpl.
  - exact Hn.
  - intros y Hy. apply in_app_or in Hy as [Hy | [<- | []]]; [now apply Hm | now split].
  - rewrite filter_app, Ha. simpl. fold (is_ad x).
    destruct (is_ad x); [reflexivity | now rewrite app_nil_r].
  - rewrite filter_app, Hg. simpl. fold (is_ad x).
    destruct (is_ad x); simpl; [now rewrite app_nil_r | reflexivity].
  - fold (is_ad x). destruct (SingleVideo.exposure_of x) as [e|]; [|exact Ht].
    destruct (is_ad x); rewrite Ht; ring.
Qed.

Lemma collect_brand_data_ok (brand_appearances : list Appearance) :
  let bd := SingleVideo.collect_brand_data brand_appearances in
  NoDup (keys bd) /\ (forall k d, In (k, d) bd -> entry_ok k d).
Proof.
  unfold SingleVideo.collect_brand_data.
  apply (fold_left_invariant
           (fun bd => NoDup (keys bd) /\ (forall k d, In (k, d) bd -> entry_ok k d))).
  - split; [constructor | intros k d []].
  - intros bd x [Hnd Hok]. unfold SingleVideo.process_appearance.
    destruct (String.eqb (PyStr.strip (get (brand x) "")) "") eqn:E1; [now split|].
    destruct (BrandClassifier.is_valid_brand (PyStr.strip (get (brand x) ""))) eqn:E2;
      [|now split].
    simpl. apply String.eqb_neq in E1.
    set (k := PyStr.strip (get (brand x) "")) in *.
    split; [now apply NoDup_keys_assign|].
    intros k0 d0 Hin. apply In_assign in Hin as [[= -> ->] | Hin]; [|now apply Hok].
    destruct (ensure_category_set x) as [Hb Hc].
    apply record_appearance_entry_ok; [now rewrite Hb | assumption |].
    destruct (lookup k bd) as [d|] eqn:L; simpl.
    + apply Hok. now apply lookup_In.
    + now apply new_entry_ok.
Qed.

Lemma brand_metric_inv (w : Collaborators) (video_duration : Q)
    (k : string) (d : SingleVideo.BrandData) (m : BrandMetric) :
  SingleVideo.brand_metric_or_fail w video_duration (k, d) = Return m ->
  exists score insights,
    Scoring.calculate_ai_contextual_score
      (scoring w k (SingleVideo.bd_appearances d)) (SingleVideo.bd_appearances d)
    = Return (ScorePair score insights)
    /\ bm_brand m = k
    /\ contextual_value_score m = Num.round1 score
    /\ total_appearances m = SingleVideo.len (SingleVideo.bd_appearances d)
    /\ high_impact_moments m = SingleVideo.bd_high_impact_moments d
    /\ appearances m = SingleVideo.bd_appearances d
    /\ ad_placements m = SingleVideo.bd_ad_placements d
    /\ in_game_placements m = SingleVideo.bd_in_game_placements d
    /\ count (sb_ad_placements m) = SingleVideo.len (SingleVideo.bd_ad_placements d)
    /\ count (sb_in_game_placements m)
       = SingleVideo.len (SingleVideo.bd_in_game_placements d).
Proof.
  unfold SingleVideo.brand_metric_or_fail, SingleVideo.brand_metric_of. simpl.
  destruct (Scoring.calculate_ai_contextual_score _ _) as [r|]; simpl; [|discriminate].
  destruct r as [s i|]; simpl; [|discriminate].
  destruct (Scoring.estimate_social_engagement _ _) as [z|]; simpl; [|discriminate].
  intros [= <-]. exists s, i. simpl. repeat split.
Qed.

Lemma mapM_keys (w : Collaborators) (video_duration : Q)
    (bd : dict SingleVideo.BrandData) (ms : list BrandMetric) :
  SingleVideo.compute_brand_metrics w video_duration bd = Return ms ->
  map bm_brand ms = keys bd.
Proof.
  unfold SingleVideo.compute_brand_metrics.
  revert ms; induction bd as [|[k d] bd IH]; intros ms; simpl.
  - now intros [= <-].
  - destruct (SingleVideo.brand_metric_or_fail w video_duration (k, d)) as [m|] eqn:E;
      simpl; [|discriminate].
    destruct (mapM _ bd) as [ms'|]; simpl; [|discriminate].
    intros [= <-]. simpl. rewrite (IH _ eq_refl).
    apply brand_metric_inv in E as [_ [_ [_ [-> _]]]]. reflexivity.
Qed.

Lemma outcome_inv (w : Collaborators) (video_id : string)
    (selected_brands : list string) (a : Analysis) :
  SingleVideo.outcome w video_id selected_brands = Return a ->
  exists brand_appearances,
    client_analyze w = Return brand_appearances
    /\ SingleVideo.compute_brand_metrics w (SingleVideo.video_duration_of w)
         (SingleVideo.collect_brand_data brand_appearances) = Return (brand_metrics a)
    /\ raw_detections a
       = flat_map SingleVideo.bd_appearances
                  (values (SingleVideo.collect_brand_data brand_appearances))
    /\ summary a
       = SingleVideo.summary_of (SingleVideo.video_duration_of w)
           (SingleVideo.collect_brand_data brand_appearances) selected_brands.
Proof.
  unfold SingleVideo.outcome.
  destruct (client_analyze w) as [apps|]; simpl; [|discriminate].
  destruct (SingleVideo.compute_brand_metrics _ _ _) as [ms|] eqn:E; simpl; [|discriminate].
  intros [= <-]. exists apps. simpl. repeat split. assumption.
Qed.

(** X11. A published analysis holds one entry per brand, under a name that is not
    empty and passes the brand filter; the appearances listed under a brand
    are detections of that brand (by stripped name) and every one of them
    carries a sponsorship category, given by the detector or by the
    classifier. *)
Theorem published_brands_are_filtered_and_grouped
    (w : Collaborators) (video_id : string) (selected_brands : list string)
    (a : Analysis) :
  SingleVideo.outcome w video_id selected_brands = Return a ->
  NoDup (map bm_brand (brand_metrics a))
  /\ (forall m, In m (brand_metrics a) ->
        bm_brand m <> ""
        /\ BrandClassifier.is_valid_brand (bm_brand m) = true
        /\ appearances m <> []
        /\ (forall x, In x (appearances m) ->
              PyStr.strip (get (brand x) "") = bm_brand m
              /\ sponsorship_category x <> None)).
Proof.
  intros Ho. apply outcome_inv in Ho as [apps [_ [Hm _]]].
  destruct (collect_brand_data_ok apps) as [Hnd Hok].
  split; [now rewrite (mapM_keys _ _ _ _ Hm)|].
  intros m Hin.
  destruct (mapM_In _ _ _ _ Hm Hin) as [[k d] [Hkd Hf]].
  pose proof (collect_brand_data_nonempty apps k d Hkd) as Hne.
  destruct (Hok k d Hkd) as [[Hn1 Hn2] Hmem _ _ _].
  apply brand_metric_inv in Hf as [s [i [_ [Hb [_ [_ [_ [Ha _]]]]]]]].
  rewrite Hb, Ha. repeat split; try assumption; now apply Hmem.
Qed.

Lemma published_brands_example :
  NoDup (map bm_brand (brand_metrics Sample.video1))
  /\ (forall m, In m (brand_metrics Sample.video1) ->
        bm_brand m <> ""
        /\ BrandClassifier.is_valid_brand (bm_brand m) = true
        /\ appearances m <> []
        /\ (forall x, In x (appearances m) ->
              PyStr.strip (get (brand x) "") = bm_brand m
              /\ sponsorship_category x <> None)).
Proof.
  apply (published_brands_are_filtered_and_grouped
           (Sample.world [Sample.detection "Nike" 10 20 "game_action" "secondary"] 600 60)
           "v1" ["Nike"]).
  vm_compute. reflexivity.
Defined.

(** X12. The figures of a published entry agree with its lists: total_appearances
    is the number of appearances listed (at least one), the ad and in-game
    lists split the appearances by sponsorship category so that their counts
    add up to the total, the high-impact count is between 0 and the total,
    and the contextual value score is between 0 and 10. *)
Theorem published_figures_are_consistent
    (w : Collaborators) (video_id : string) (selected_brands : list string)
    (a : Analysis) (m : BrandMetric) :
  SingleVideo.outcome w video_id selected_brands = Return a ->
  In m (brand_metrics a) ->
  total_appearances m = Z.of_nat (List.length (appearances m))
  /\ (1 <= total_appearances m)%Z
  /\ ad_placements m = filter is_ad (appearances m)
  /\ in_game_placements m = filter (fun x => negb (is_ad x)) (appearances m)
  /\ (count (sb_ad_placements m) + count (sb_in_game_placements m)
      = total_appearances m)%Z
  /\ (0 <= high_impact_moments m)%Z /\ (high_impact_moments m <= total_appearances m)%Z
  /\ (0 <= contextual_value_score m)%Q /\ (contextual_value_score m <= 10)%Q.
Proof.
  intros Ho Hin. apply outcome_inv in Ho as [apps [_ [Hm _]]].
  destruct (collect_brand_data_ok apps) as [_ Hok].
  destruct (mapM_In _ _ _ _ Hm Hin) as [[k d] [Hkd Hf]].
  pose proof (collect_brand_data_nonempty apps k d Hkd) as Hne.
  pose proof (async_high_impact_count apps k d Hkd) as Hhi.
  destruct (Hok k d Hkd) as [_ _ Had Hig _].
  apply brand_metric_inv in Hf
    as [s [i [Hs [_ [Hcvs [Ht [Hh [Ha [Hap [Hip [Hca Hci]]]]]]]]]]].
  apply score_pair_range in Hs.
  rewrite Ht, Hh, Ha, Hap, Hip, Hca, Hci, Hcvs, Had, Hig, Hhi.
  unfold SingleVideo.len, Spec.count_high_impact.
  set (l := SingleVideo.bd_appearances d) in *.
  assert (Hlen : (List.length (filter is_ad l)
                  + List.length (filter (fun x => negb (is_ad x)) l)
                  = List.length l)%nat).
  { clear. induction l as [|x l IH]; simpl; [reflexivity|].
    destruct (is_ad x); simpl; lia. }
  assert (Hpos : (1 <= List.length l)%nat) by (destruct l; [congruence | simpl; lia]).
  assert (Hcount : (List.length (filter Spec.high_impact_rule l) <= List.length l)%nat)
    by apply filter_length_le.
  repeat split; try reflexivity; try lia; try (now apply round1_range).
Qed.

Lemma published_figures_example :
  exists m,
    In m (brand_metrics Sample.video2)
    /\ total_appearances m = Z.of_nat (List.length (appearances m))
    /\ (1 <= total_appearances m)%Z
    /\ ad_placements m = filter is_ad (appearances m)
    /\ in_game_placements m = filter (fun x => negb (is_ad x)) (appearances m)
    /\ (count (sb_ad_placements m) + count (sb_in_game_placements m)
        = total_appearances m)%Z
    /\ (0 <= high_impact_moments m)%Z /\ (high_impact_moments m <= total_appearances m)%Z
    /\ (0 <= contextual_value_score m)%Q /\ (contextual_value_score m <= 10)%Q.
Proof.
  eexists. split; [left; reflexivity|].
  apply (published_figures_are_consistent
           (Sample.world [Sample.detection "Nike" 5 15 "replay" "primary"] 600 80)
           "v2" ["Nike"] Sample.video2); [vm_compute; reflexivity | left; reflexivity].
Defined.

(** ** Detections in, detections out *)

(** the test of line 1305: the detection names a brand that passes the
    filter *)
Definition kept (x : Appearance) : bool :=
  let brand_name := PyStr.strip (get (brand x) "") in
  negb (String.eqb brand_name "") && BrandClassifier.is_valid_brand brand_name.

Definition all_appearances (bd : dict SingleVideo.BrandData) : list Appearance :=
  flat_map SingleVideo.bd_appearances (values bd).

Lemma all_appearances_assign (k : string) (x : Appearance)
    (bd : dict SingleVideo.BrandData) :
  Permutation
    (all_appearances
       (assign k (SingleVideo.record_appearance x
                    (get (lookup k bd) SingleVideo.new_brand_data)) bd))
    (all_appearances bd ++ [x]).
Proof.
  unfold all_appearances. induction bd as [|[k' d'] bd IH]; simpl.
  - reflexivity.
  - destruct (String.eqb k' k) eqn:E; simpl.
    + rewrite <- !app_assoc. apply Permutation_app_head. apply Permutation_app_comm.
    + rewrite <- app_assoc. apply Permutation_app_head. exact IH.
Qed.

Lemma process_appearance_perm (bd : dict SingleVideo.BrandData) (x : Appearance) :
  Permutation (all_appearances (SingleVideo.process_appearance bd x))
              (all_appearances bd
               ++ (if kept x then [SingleVideo.ensure_category x] else [])).
Proof.
  unfold SingleVideo.process_appearance, kept.
  destruct (String.eqb (PyStr.strip (get (brand x) "")) ""); simpl;
    [now rewrite app_nil_r|].
  destruct (BrandClassifier.is_valid_brand _); simpl; [|now rewrite app_nil_r].
  apply all_appearances_assign.
Qed.

Lemma collect_brand_data_perm (brand_appearances : list Appearance) :
  forall bd,
    Permutation
      (all_appearances (fold_left SingleVideo.process_appearance brand_appearances bd))
      (all_appearances bd
       ++ map SingleVideo.ensure_category (filter kept brand_appearances)).
Proof.
  induction brand_appearances as [|x l IH]; intros bd; simpl.
  - now rewrite app_nil_r.
  - rewrite IH, process_appearance_perm, <- app_assoc.
    apply Permutation_app_head. now destruct (kept x).
Qed.

(** X13. The detections a run publishes are the detections it received whose
    brand name is not empty and passes the brand filter, each with its
    sponsorship category filled in - regrouped by brand, none lost, none
    added, none repeated - and the summary counts exactly them. *)
Theorem published_detections_are_the_kept_ones
    (w : Collaborators) (video_id : string) (selected_brands : list string)
    (brand_appearances : list Appearance) (a : Analysis) :
  client_analyze w = Return brand_appearances ->
  SingleVideo.outcome w video_id selected_brands = Return a ->
  Permutation (raw_detections a)
              (map SingleVideo.ensure_category (filter kept brand_appearances))
  /\ total_brand_appearances (summary a)
     = Z.of_nat (List.length (filter kept brand_appearances)).
Proof.
  intros Hd Ho. apply outcome_inv in Ho as [apps [Hd' [_ [Hraw Hsum]]]].
  rewrite Hd in Hd'. injection Hd' as <-.
  assert (Hperm : Permutation (raw_detections a)
            (map SingleVideo.ensure_category (filter kept brand_appearances))).
  { rewrite Hraw. apply (collect_brand_data_perm brand_appearances []). }
  split; [exact Hperm|].
  rewrite Hsum. unfold SingleVideo.summary_of. simpl.
  rewrite <- (length_map SingleVideo.ensure_category), <- (Permutation_length Hperm), Hraw.
  generalize (SingleVideo.collect_brand_data brand_appearances). intros bd.
  unfold values, SingleVideo.len.
  assert (Hgen : forall z,
            fold_left Z.add
              (map (fun d => Z.of_nat (List.length (SingleVideo.bd_appearances d)))
                   (map snd bd)) z
            = (z + Z.of_nat (List.length
                     (flat_map SingleVideo.bd_appearances (map snd bd))))%Z).
  { induction bd as [|[k d] bd IH]; intros z; simpl; [lia|].
    rewrite IH, length_app. lia. }
  now rewrite Hgen.
Qed.

Lemma published_detections_example :
  Permutation (raw_detections Sample.video3)
              (map SingleVideo.ensure_category
                   (filter kept [Sample.detection "Adidas" 30 45 "celebration" "primary"]))
  /\ total_brand_appearances (summary Sample.video3)
     = Z.of_nat (List.length
                   (filter kept [Sample.detection "Adidas" 30 45 "celebration" "primary"])).
Proof.
  apply (published_detections_are_the_kept_ones
           (Sample.world [Sample.detection "Adidas" 30 45 "celebration" "primary"] 300 50)
           "v3" ["Nike"]).
  - reflexivity.
  - vm_compute. reflexivity.
Defined.

Lemma collect_nothing (brand_appearances : list Appearance) :
  (forall x, In x brand_appearances -> kept x = false) ->
  SingleVideo.collect_brand_data brand_appearances = [].
Proof.
  intros H. unfold SingleVideo.collect_brand_data.
  apply (fold_left_invariant_In (fun bd => bd = [])); [reflexivity|].
  intros bd x Hin ->. specialize (H x Hin). unfold kept in H.
  unfold SingleVideo.process_appearance.
  destruct (String.eqb _ ""); simpl in *; [reflexivity|]. now rewrite H.
Qed.

(** X14. When no detection names a brand that passes the filter - in particular
    when the vision service finds nothing - the run completes with an empty
    report, and the scoring service is not needed: this holds even when every
    scoring call would fail. *)
Theorem run_without_valid_brand_completes_empty
    (w : Collaborators) (video_id : string) (selected_brands : list string)
    (brand_appearances : list Appearance) (job_id : string) (tracker : AnalysisStatus) :
  client_analyze w = Return brand_appearances ->
  (forall x, In x brand_appearances -> kept x = false) ->
  exists a j,
    SingleVideo.outcome w video_id selected_brands = Return a
    /\ brand_metrics a = [] /\ raw_detections a = []
    /\ total_brands_detected (summary a) = 0%Z
    /\ total_brand_appearances (summary a) = 0%Z
    /\ Lifecycle.final job_id
         (SingleVideo.analyze_video_with_progress_updates w video_id selected_brands)
         (create_job job_id tracker) = Some j
    /\ status j = completed /\ progress j = 100%Z /\ data j = Some (SingleVideo a).
Proof.
  intros Hd Hnone.
  pose proof (collect_nothing brand_appearances Hnone) as Hbd.
  assert (Ho : SingleVideo.outcome w video_id selected_brands
               = Return (mkAnalysis
                           (SingleVideo.summary_of (SingleVideo.video_duration_of w) []
                                                   selected_brands)
                           [] [] video_id)).
  { unfold SingleVideo.outcome. rewrite Hd. simpl. rewrite Hbd. reflexivity. }
  rewrite (final_trace job_id _ _ _ (get_job_create_job job_id tracker)).
  eexists. eexists. split; [exact Ho|].
  unfold SingleVideo.analyze_video_with_progress_updates.
  rewrite Hd. simpl. rewrite Hbd. simpl. repeat split.
Qed.

Lemma run_without_valid_brand_example :
  exists a j,
    SingleVideo.outcome
      (Sample.world_no_scoring [Sample.detection "Springfield High School" 1 2 "replay" "primary"])
      "v1" [] = Return a
    /\ brand_metrics a = [] /\ raw_detections a = []
    /\ total_brands_detected (summary a) = 0%Z
    /\ total_brand_appearances (summary a) = 0%Z
    /\ Lifecycle.final "job-1"
         (SingleVideo.analyze_video_with_progress_updates
            (Sample.world_no_scoring
               [Sample.detection "Springfield High School" 1 2 "replay" "primary"])
            "v1" [])
         (create_job "job-1" init) = Some j
    /\ status j = completed /\ progress j = 100%Z /\ data j = Some (SingleVideo a).
Proof.
  apply (run_without_valid_brand_completes_empty
           (Sample.world_no_scoring
              [Sample.detection "Springfield High School" 1 2 "replay" "primary"])
           "v1" []
           [Sample.detection "Springfield High School" 1 2 "replay" "primary"]
           "job-1" init).
  - reflexivity.
  - intros x [<- | []]. reflexivity.
Defined.

(** X15. A failed run shows how far it got: when the vision service raises, the
    job stays at progress 35 in stage brand_analysis with the exception's
    message as its error; when the metrics of a brand cannot be computed, it
    stays at progress 75 in stage metrics and the error names the cause after
    a fixed prefix. *)
Theorem failed_run_keeps_reached_progress
    (w : Collaborators) (video_id : string) (selected_brands : list string)
    (job_id : string) (tracker : AnalysisStatus) (e : string) :
  SingleVideo.outcome w video_id selected_brands = Raise e ->
  exists j,
    Lifecycle.final job_id
      (SingleVideo.analyze_video_with_progress_updates w video_id selected_brands)
      (create_job job_id tracker) = Some j
    /\ status j = failed /\ error j = Some e /\ message j = "Analysis failed"
    /\ ((client_analyze w = Raise e
         /\ progress j = 35%Z /\ stage j = Some "brand_analysis")
        \/ ((exists brand_appearances, client_analyze w = Return brand_appearances)
            /\ progress j = 75%Z /\ stage j = Some "metrics"
            /\ exists cause,
                 e = "AI analysis is required for brand metrics. Error: " ++ cause)).
Proof.
  intros Ho.
  rewrite (final_trace job_id _ _ _ (get_job_create_job job_id tracker)).
  eexists. split; [reflexivity|].
  unfold SingleVideo.analyze_video_with_progress_updates, SingleVideo.outcome in *.
  destruct (client_analyze w) as [apps | e0] eqn:Hd; simpl in *.
  - destruct (SingleVideo.compute_brand_metrics _ _ _) as [ms | e1] eqn:Hm;
      simpl in *; [discriminate|].
    injection Ho as ->. repeat split. right.
    split; [now exists apps|]. repeat split.
    unfold SingleVideo.compute_brand_metrics in Hm.
    clear - Hm. revert Hm.
    generalize (SingleVideo.collect_brand_data apps). intros bd.
    induction bd as [|kv bd IH]; simpl; [discriminate|].
    unfold SingleVideo.brand_metric_or_fail at 1.
    destruct (SingleVideo.brand_metric_of _ _ _ _) as [m | cause]; simpl.
    + destruct (mapM _ bd) as [ms | e2]; simpl; [discriminate|].
      intros [= <-]. now apply IH.
    + intros [= <-]. now exists cause.
  - injection Ho as ->. repeat split. left. repeat split.
Qed.

Lemma failed_run_example :
  exists j,
    Lifecycle.final "job-1"
      (SingleVideo.analyze_video_with_progress_updates Sample.world_down "v1" ["Nike"])
      (create_job "job-1" init) = Some j
    /\ status j = failed /\ error j = Some "connection refused"
    /\ message j = "Analysis failed"
    /\ ((client_analyze Sample.world_down = Raise "connection refused"
         /\ progress j = 35%Z /\ stage j = Some "brand_analysis")
        \/ ((exists brand_appearances,
               client_analyze Sample.world_down = Return brand_appearances)
            /\ progress j = 75%Z /\ stage j = Some "metrics"
            /\ exists cause,
                 "connection refused"
                 = "AI analysis is required for brand metrics. Error: " ++ cause)).
Proof.
  apply (failed_run_keeps_reached_progress Sample.world_down "v1" ["Nike"] "job-1" init).
  reflexivity.
Defined.

(** ** The merged result: order, totals, brands and windows *)

Definition by_exposure_desc (x y : BrandMetric) : Prop :=
  (total_exposure_time y <= total_exposure_time x)%Q.

Lemma insert_desc_sorted (m : BrandMetric) (l : list BrandMetric) :
  StronglySorted by_exposure_desc l ->
  StronglySorted by_exposure_desc (TemporalMerger.insert_desc m l).
Proof.
  induction 1 as [|x l Hl IH Hx]; simpl.
  - repeat constructor.
  - destruct (Num.Qltb (total_exposure_time m) (total_exposure_time x)) eqn:E.
    + constructor; [assumption|].
      apply Forall_forall. intros y Hy.
      apply (Permutation_in _ (insert_desc_perm m l)) in Hy as [<- | Hy].
      * apply Qltb_iff in E. now apply Qlt_le_weak.
      * rewrite Forall_forall in Hx. now apply Hx.
    + apply Qltb_false_iff in E.
      constructor; [now constructor|].
      constructor; [assumption|].
      apply Forall_forall. intros y Hy. rewrite Forall_forall in Hx.
      unfold by_exposure_desc in *. apply (Qle_trans _ (total_exposure_time x)); auto.
Qed.

Lemma sort_desc_sorted (l : list BrandMetric) :
  StronglySorted by_exposure_desc (TemporalMerger.sort_desc l).
Proof.
  induction l as [|m l IH]; simpl; [constructor | now apply insert_desc_sorted].
Qed.

(** X16. The merged brands come in descending order of total exposure time; the
    summary counts them, and names as top performing brand the first of
    them, whose exposure no other brand exceeds, together with its score.
    Without any brand the top brand is [None] and its score 0. *)
Theorem merged_brands_ranked_by_exposure
    (analyses : list (option Analysis)) (video_ids : list string) (c : Combined) :
  TemporalMerger.combine_video_analyses analyses video_ids = Return c ->
  StronglySorted by_exposure_desc (combined_brand_metrics c)
  /\ cs_total_brands_detected (combined_summary c)
     = List.length (combined_brand_metrics c)
  /\ match combined_brand_metrics c with
     | [] => top_performing_brand (combined_summary c) = None
             /\ top_brand_score (combined_summary c) = 0%Q
     | top :: _ =>
         top_performing_brand (combined_summary c) = Some (bm_brand top)
         /\ top_brand_score (combined_summary c) = contextual_value_score top
         /\ forall m, In m (combined_brand_metrics c) ->
                      (total_exposure_time m <= total_exposure_time top)%Q
     end.
Proof.
  intros Hc. unfold TemporalMerger.combine_video_analyses in Hc.
  destruct analyses as [|oa analyses]; [discriminate|].
  destruct (foldM TemporalMerger.merge_analysis (oa :: analyses) TemporalMerger.acc0)
    as [acc|e]; [|discriminate].
  cbn [bind] in Hc. injection Hc as <-. cbn [combined_brand_metrics combined_summary
    cs_total_brands_detected top_performing_brand top_brand_score].
  set (l := TemporalMerger.sort_desc _).
  pose proof (sort_desc_sorted
                (map (fun kv => TemporalMerger.finalize (oa :: analyses) (fst kv) (snd kv))
                     (TemporalMerger.acc_combined_brand_metrics acc))) as Hs.
  fold l in Hs. split; [assumption|]. split; [reflexivity|].
  destruct l as [|top l']; [now split|].
  split; [reflexivity|]. split; [reflexivity|].
  intros m [<- | Hm]; [apply Qle_refl|].
  inversion Hs as [|? ? _ Hall]; subst. rewrite Forall_forall in Hall. now apply Hall.
Qed.

Lemma merged_brands_ranked_example :
  exists c top,
    TemporalMerger.combine_video_analyses
      [Some Sample.video3; Some Sample.video1; Some Sample.video2] ["v3"; "v1"; "v2"]
    = Return c
    /\ map bm_brand (combined_brand_metrics c) = ["Nike"; "Adidas"]
    /\ hd_error (combined_brand_metrics c) = Some top
    /\ top_performing_brand (combined_summary c) = Some (bm_brand top)
    /\ (forall m, In m (combined_brand_metrics c) ->
                  (total_exposure_time m <= total_exposure_time top)%Q).
Proof.
  let r := eval vm_compute in
             (TemporalMerger.combine_video_analyses
                [Some Sample.video3; Some Sample.video1; Some Sample.video2]
                ["v3"; "v1"; "v2"]) in
  match r with
  | Return ?c =>
      exists c;
      let ms := eval vm_compute in (combined_brand_metrics c) in
      match ms with
      | ?m :: _ => exists m;
          pose proof (merged_brands_ranked_by_exposure
                        [Some Sample.video3; Some Sample.video1; Some Sample.video2]
                        ["v3"; "v1"; "v2"] c) as H;
          assert (Hc : TemporalMerger.combine_video_analyses
                        [Some Sample.video3; Some Sample.video1; Some Sample.video2]
                        ["v3"; "v1"; "v2"] = Return c) by (vm_compute; reflexivity);
          specialize (H Hc); destruct H as [_ [_ H]];
          change (combined_brand_metrics c) with ms in H;
          cbv beta iota in H; destruct H as [Ht [_ Hmax]];
          split; [exact Hc|];
          split; [vm_compute; reflexivity|];
          split; [vm_compute; reflexivity|];
          split; [exact Ht | exact Hmax]
      end
  end.
Defined.

(** the entry the loop of line 1709 works on for brand [b] *)
Definition entry_of (b : string) (D : dict BrandMetric) : BrandMetric :=
  get (lookup b D) (TemporalMerger.new_combined b).

(** a field that starts at [z] and to which the merge adds with [op] *)
Definition accumulated {T : Type} (f : BrandMetric -> T) (op : T -> T -> T) (z : T)
  : Prop :=
  (forall b, f (TemporalMerger.new_combined b) = z)
  /\ forall c combined m e,
       TemporalMerger.absorb c combined m = Return e -> f e = op (f combined) (f m).

Lemma entry_of_assign_same (b : string) (e : BrandMetric) (D : dict BrandMetric) :
  entry_of b (assign b e D) = e.
Proof. unfold entry_of. now rewrite lookup_assign_same. Qed.

Lemma entry_of_assign_other (b k : string) (e : BrandMetric) (D : dict BrandMetric) :
  k <> b -> entry_of b (assign k e D) = entry_of b D.
Proof. intros H. unfold entry_of. rewrite lookup_assign_other; [reflexivity | assumption]. Qed.

Lemma foldM_merge_accumulated {T : Type} (f : BrandMetric -> T) (op : T -> T -> T)
    (z : T) (b : string) (c : Q) (ms : list BrandMetric) :
  accumulated f op z ->
  forall D D',
    foldM (TemporalMerger.merge_brand_metric c) ms D = Return D' ->
    f (entry_of b D') = fold_left op (map f (filter (brand_is b) ms)) (f (entry_of b D)).
Proof.
  intros [_ Hop]. induction ms as [|m ms IH]; intros D D' H; simpl in H.
  - now injection H as <-.
  - destruct (TemporalMerger.merge_brand_metric c D m) as [D1|] eqn:E; [|discriminate].
    cbn [bind] in H. apply IH in H. rewrite H. clear H IH.
    apply merge_brand_metric_inv in E as [e [He ->]].
    cbn [filter]. unfold brand_is at 2.
    destruct (String.eqb (bm_brand m) b) eqn:Eb.
    + apply String.eqb_eq in Eb. subst b. rewrite entry_of_assign_same.
      cbn [map fold_left]. now rewrite (Hop _ _ _ _ He).
    + apply String.eqb_neq in Eb. now rewrite entry_of_assign_other.
Qed.

Lemma contributing_cons (b : string) (oa : option Analysis)
    (analyses : list (option Analysis)) :
  TemporalMerger.contributing b (oa :: analyses)
  = (match oa with
     | None => []
     | Some a => filter (brand_is b) (brand_metrics a)
     end ++ TemporalMerger.contributing b analyses)%list.
Proof. reflexivity. Qed.

Lemma merged_accumulated {T : Type} (f : BrandMetric -> T) (op : T -> T -> T)
    (z : T) (b : string) (analyses : list (option Analysis)) :
  accumulated f op z ->
  forall acc acc',
    foldM TemporalMerger.merge_analysis analyses acc = Return acc' ->
    f (entry_of b (TemporalMerger.acc_combined_brand_metrics acc'))
    = fold_left op (map f (TemporalMerger.contributing b analyses))
                (f (entry_of b (TemporalMerger.acc_combined_brand_metrics acc))).
Proof.
  intros Hf. induction analyses as [|oa analyses IH]; intros acc acc' H; simpl in H.
  - now injection H as <-.
  - destruct (TemporalMerger.merge_analysis acc oa) as [acc1|] eqn:E; [|discriminate].
    cbn [bind] in H. apply IH in H. rewrite H. clear H IH.
    rewrite contributing_cons, map_app, fold_left_app. f_equal.
    destruct oa as [a|].
    + apply merge_analysis_inv in E as [od [D [_ [HD [-> _]]]]].
      now apply (foldM_merge_accumulated f op z b _ _ Hf _ _ HD).
    + simpl in E. now injection E as <-.
Qed.

Lemma merged_nodup (analyses : list (option Analysis)) (acc : TemporalMerger.Acc) :
  foldM TemporalMerger.merge_analysis analyses TemporalMerger.acc0 = Return acc ->
  NoDup (keys (TemporalMerger.acc_combined_brand_metrics acc)).
Proof.
  apply (foldM_invariant
           (fun acc => NoDup (keys (TemporalMerger.acc_combined_brand_metrics acc)))).
  - intros acc0 [a|] acc' _ Hn H.
    + apply merge_analysis_inv in H as [od [D [_ [HD [-> _]]]]].
      revert HD. apply (foldM_invariant (fun D => NoDup (keys D))); [|assumption].
      intros D0 m D1 _ Hn0 H1.
      apply merge_brand_metric_inv in H1 as [e [_ ->]]. now apply NoDup_keys_assign.
    + simpl in H. now injection H as <-.
  - constructor.
Qed.

(** the merged entry of a brand, before the averages are taken *)
Lemma merged_entry (analyses : list (option Analysis)) (video_ids : list string)
    (c : Combined) (m : BrandMetric) :
  TemporalMerger.combine_video_analyses analyses video_ids = Return c ->
  In m (combined_brand_metrics c) ->
  exists acc v,
    foldM TemporalMerger.merge_analysis analyses TemporalMerger.acc0 = Return acc
    /\ m = TemporalMerger.finalize analyses (bm_brand m) v
    /\ bm_brand v = bm_brand m
    /\ entry_of (bm_brand m) (TemporalMerger.acc_combined_brand_metrics acc) = v.
Proof.
  intros Hc Hin.
  apply combine_inv in Hc as [acc [Hacc [Hlist _]]].
  rewrite Hlist in Hin.
  apply (Permutation_in _ (sort_desc_perm _)) in Hin.
  apply in_map_iff in Hin as [[k v] [<- Hkv]].
  destruct (merged_keyed analyses acc Hacc k v Hkv) as [Hb _].
  exists acc, v. unfold finalize_entry. cbn [fst snd].
  destruct (finalize_keeps analyses k v) as [-> _]. rewrite Hb.
  repeat split; try assumption.
  unfold entry_of.
  now rewrite (NoDup_keys_lookup k v _ (merged_nodup analyses acc Hacc) Hkv).
Qed.

Lemma mapM_length {A B : Type} (f : A -> Py B) (l : list A) :
  forall bs, mapM f l = Return bs -> List.length bs = List.length l.
Proof.
  induction l as [|a l IH]; intros bs H; simpl in H.
  - now injection H as <-.
  - destruct (f a); [|discriminate]. destruct (mapM f l); [|discriminate].
    simpl in H. injection H as <-. simpl. f_equal. now apply IH.
Qed.

Lemma absorb_fields (c : Q) (combined m e : BrandMetric) :
  TemporalMerger.absorb c combined m = Return e ->
  high_impact_moments e = (high_impact_moments combined + high_impact_moments m)%Z
  /\ estimated_social_mentions e
     = (estimated_social_mentions combined + estimated_social_mentions m)%Z
  /\ count (sb_ad_placements e)
     = (count (sb_ad_placements combined) + count (sb_ad_placements m))%Z
  /\ count (sb_in_game_placements e)
     = (count (sb_in_game_placements combined) + count (sb_in_game_placements m))%Z
  /\ exposure_time (sb_ad_placements e)
     = (exposure_time (sb_ad_placements combined) + exposure_time (sb_ad_placements m))%Q
  /\ exposure_time (sb_in_game_placements e)
     = (exposure_time (sb_in_game_placements combined)
        + exposure_time (sb_in_game_placements m))%Q.
Proof.
  unfold TemporalMerger.absorb. intros H.
  destruct (mapM _ (appearances m)); [|discriminate].
  destruct (mapM _ (ad_placements m)); [|discriminate].
  destruct (mapM _ (in_game_placements m)); [|discriminate].
  simpl in H. injection H as <-. simpl. repeat split.
Qed.

(** [total = 0; for x in l: total += x] *)
Definition Zsum (l : list Z) : Z := fold_left Z.add l 0%Z.

(** X17. Every additive figure of a merged brand is the sum of that figure over
    the per-video entries of the brand, taken in the order of the merge:
    exposure time, appearances, high-impact moments, estimated social
    mentions, the counts and exposure times of the two placement
    categories, and the number of listed appearances. *)
Theorem merged_totals_are_sums
    (analyses : list (option Analysis)) (video_ids : list string)
    (c : Combined) (m : BrandMetric) :
  TemporalMerger.combine_video_analyses analyses video_ids = Return c ->
  In m (combined_brand_metrics c) ->
  let per_video := TemporalMerger.contributing (bm_brand m) analyses in
  total_exposure_time m = Num.Qsum (map total_exposure_time per_video)
  /\ total_appearances m = Zsum (map total_appearances per_video)
  /\ high_impact_moments m = Zsum (map high_impact_moments per_video)
  /\ estimated_social_mentions m = Zsum (map estimated_social_mentions per_video)
  /\ count (sb_ad_placements m)
     = Zsum (map (fun e => count (sb_ad_placements e)) per_video)
  /\ count (sb_in_game_placements m)
     = Zsum (map (fun e => count (sb_in_game_placements e)) per_video)
  /\ exposure_time (sb_ad_placements m)
     = Num.Qsum (map (fun e => exposure_time (sb_ad_placements e)) per_video)
  /\ exposure_time (sb_in_game_placements m)
     = Num.Qsum (map (fun e => exposure_time (sb_in_game_placements e)) per_video)
  /\ List.length (appearances m)
     = list_sum (map (fun e => List.length (appearances e)) per_video).
Proof.
  intros Hc Hin per_video.
  destruct (merged_entry analyses video_ids c m Hc Hin) as [acc [v [Hacc [Hm [Hb Hv]]]]].
  assert (Hsum : forall (T : Type) (f : BrandMetric -> T) (op : T -> T -> T) (z : T),
             accumulated f op z ->
             f v = fold_left op (map f per_video) z).
  { intros T f op z Hf. rewrite <- Hv.
    rewrite (merged_accumulated f op z (bm_brand m) analyses Hf _ _ Hacc).
    destruct Hf as [Hz _]. unfold entry_of. simpl. now rewrite Hz. }
  assert (Hfin :
    total_exposure_time m = total_exposure_time v
    /\ total_appearances m = total_appearances v
    /\ high_impact_moments m = high_impact_moments v
    /\ estimated_social_mentions m = estimated_social_mentions v
    /\ count (sb_ad_placements m) = count (sb_ad_placements v)
    /\ count (sb_in_game_placements m) = count (sb_in_game_placements v)
    /\ exposure_time (sb_ad_placements m) = exposure_time (sb_ad_placements v)
    /\ exposure_time (sb_in_game_placements m) = exposure_time (sb_in_game_placements v)
    /\ appearances m = appearances v).
  { rewrite Hm. unfold TemporalMerger.finalize. cbn.
    destruct (Num.Qltb 0 (total_exposure_time v)); repeat split. }
  destruct Hfin as [-> [-> [-> [-> [-> [-> [-> [-> ->]]]]]]]].
  unfold Num.Qsum, Zsum.
  repeat split.
  - apply Hsum. split; [reflexivity|]. intros c0 cb m0 e H.
    now destruct (absorb_inv _ _ _ _ H) as [_ [_ [_ [_ [_ [_ [_ [-> _]]]]]]]].
  - apply Hsum. split; [reflexivity|]. intros c0 cb m0 e H.
    now destruct (absorb_inv _ _ _ _ H) as [_ [_ [_ [_ [_ [_ [_ [_ [-> _]]]]]]]]].
  - apply Hsum. split; [reflexivity|]. intros c0 cb m0 e H.
    now destruct (absorb_fields _ _ _ _ H) as [-> _].
  - apply Hsum. split; [reflexivity|]. intros c0 cb m0 e H.
    now destruct (absorb_fields _ _ _ _ H) as [_ [-> _]].
  - apply (Hsum Z (fun e => count (sb_ad_placements e))).
    split; [reflexivity|]. intros c0 cb m0 e H.
    now destruct (absorb_fields _ _ _ _ H) as [_ [_ [-> _]]].
  - apply (Hsum Z (fun e => count (sb_in_game_placements e))).
    split; [reflexivity|]. intros c0 cb m0 e H.
    now destruct (absorb_fields _ _ _ _ H) as [_ [_ [_ [-> _]]]].
  - apply (Hsum Q (fun e => exposure_time (sb_ad_placements e))).
    split; [reflexivity|]. intros c0 cb m0 e H.
    now destruct (absorb_fields _ _ _ _ H) as [_ [_ [_ [_ [-> _]]]]].
  - apply (Hsum Q (fun e => exposure_time (sb_in_game_placements e))).
    split; [reflexivity|]. intros c0 cb m0 e H.
    now destruct (absorb_fields _ _ _ _ H) as [_ [_ [_ [_ [_ ->]]]]].
  - rewrite (Hsum nat (fun e => List.length (appearances e)) Nat.add 0%nat).
    + generalize (map (fun e => List.length (appearances e)) per_video).
      intros l. rewrite <- (Nat.add_0_l (list_sum l)). generalize 0%nat.
      induction l as [|x l IH]; intros n; simpl; [lia|]. rewrite IH. lia.
    + split; [reflexivity|]. intros c0 cb m0 e H.
      destruct (absorb_inv _ _ _ _ H) as [oa [_ [_ [Hoa [_ [_ [_ [_ [_ ->]]]]]]]]].
      rewrite length_app. now rewrite (mapM_length _ _ _ Hoa).
Qed.

Lemma merged_totals_example :
  exists c m,
    TemporalMerger.combine_video_analyses
      [Some Sample.video1; Some Sample.video2; Some Sample.video3]
      ["v1"; "v2"; "v3"] = Return c
    /\ In m (combined_brand_metrics c)
    /\ bm_brand m = "Nike"
    /\ List.length (TemporalMerger.contributing "Nike"
                      [Some Sample.video1; Some Sample.video2; Some Sample.video3]) = 2%nat
    /\ total_appearances m = 2%Z
    /\ total_appearances m
       = Zsum (map total_appearances
                   (TemporalMerger.contributing (bm_brand m)
                      [Some Sample.video1; Some Sample.video2; Some Sample.video3])).
Proof.
  let r := eval vm_compute in
             (TemporalMerger.combine_video_analyses
                [Some Sample.video1; Some Sample.video2; Some Sample.video3]
                ["v1"; "v2"; "v3"]) in
  match r with
  | Return ?c =>
      exists c;
      let ms := eval vm_compute in (combined_brand_metrics c) in
      match ms with
      | ?m :: _ => exists m;
          assert (Hc : TemporalMerger.combine_video_analyses
                         [Some Sample.video1; Some Sample.video2; Some Sample.video3]
                         ["v1"; "v2"; "v3"] = Return c) by (vm_compute; reflexivity);
          assert (Hin : In m (combined_brand_metrics c)) by (left; reflexivity);
          destruct (merged_totals_are_sums
                      [Some Sample.video1; Some Sample.video2; Some Sample.video3]
                      ["v1"; "v2"; "v3"] c m Hc Hin) as [_ [Happ _]];
          split; [exact Hc|];
          split; [exact Hin|];
          split; [reflexivity|];
          split; [vm_compute; reflexivity|];
          split; [reflexivity | exact Happ]
      end
  end.
Defined.

Lemma In_keys_assign_iff {V : Type} (k k' : string) (v : V) (d : dict V) :
  In k' (keys (assign k v d)) <-> k' = k \/ In k' (keys d).
Proof.
  split; [apply In_keys_assign|].
  induction d as [|[k0 v0] d IH]; simpl.
  - intros [-> | []]. now left.
  - destruct (String.eqb k0 k) eqn:E; simpl.
    + apply String.eqb_eq in E. subst k0. intros [-> | [-> | H]]; auto.
    + intros [-> | [-> | H]];
        [right; apply IH; now left | now left | right; apply IH; now right].
Qed.

Lemma foldM_merge_keys (c : Q) (ms : list BrandMetric) :
  forall D D',
    foldM (TemporalMerger.merge_brand_metric c) ms D = Return D' ->
    forall k, In k (keys D') <-> In k (keys D) \/ In k (map bm_brand ms).
Proof.
  induction ms as [|m ms IH]; intros D D' H k; simpl in H.
  - injection H as <-. simpl. tauto.
  - destruct (TemporalMerger.merge_brand_metric c D m) as [D1|] eqn:E; [|discriminate].
    cbn [bind] in H. rewrite (IH _ _ H k).
    apply merge_brand_metric_inv in E as [e [_ ->]].
    rewrite In_keys_assign_iff. simpl. intuition congruence.
Qed.

Definition detected_in (analyses : list (option Analysis)) (b : string) : Prop :=
  exists a m, In (Some a) analyses /\ In m (brand_metrics a) /\ bm_brand m = b.

Lemma merged_keys (analyses : list (option Analysis)) :
  forall acc acc',
    foldM TemporalMerger.merge_analysis analyses acc = Return acc' ->
    forall k, In k (keys (TemporalMerger.acc_combined_brand_metrics acc'))
              <-> In k (keys (TemporalMerger.acc_combined_brand_metrics acc))
                  \/ detected_in analyses k.
Proof.
  induction analyses as [|oa analyses IH]; intros acc acc' H k; simpl in H.
  - injection H as <-. split; [now left|]. intros [H | [a [m [[] _]]]]. exact H.
  - destruct (TemporalMerger.merge_analysis acc oa) as [acc1|] eqn:E; [|discriminate].
    cbn [bind] in H. rewrite (IH _ _ H k). clear IH H.
    assert (Hstep : In k (keys (TemporalMerger.acc_combined_brand_metrics acc1))
                    <-> In k (keys (TemporalMerger.acc_combined_brand_metrics acc))
                        \/ detected_in [oa] k).
    { destruct oa as [a|].
      - apply merge_analysis_inv in E as [od [D [_ [HD [-> _]]]]].
        rewrite (foldM_merge_keys _ _ _ _ HD k), in_map_iff.
        split; intros [H | H]; auto; right.
        + destruct H as [m [Hb Hm]]. exists a, m. repeat split; auto. now left.
        + destruct H as [a0 [m [[[= ->] | []] [Hm Hb]]]]. now exists m.
      - simpl in E. injection E as <-. split; [now left|].
        intros [H | [a [m [[[=] | []] _]]]]. exact H. }
    rewrite Hstep. unfold detected_in. split.
    + intros [[H | [a [m [[-> | []] Hm]]]] | [a [m [Ha Hm]]]]; auto.
      * right. exists a, m. split; [now left | exact Hm].
      * right. exists a, m. split; [now right | exact Hm].
    + intros [H | [a [m [[-> | Ha] Hm]]]]; auto.
      * left. right. exists a, m. split; [now left | exact Hm].
      * right. exists a, m. split; assumption.
Qed.

Lemma merged_brand_names (analyses : list (option Analysis)) (video_ids : list string)
    (c : Combined) :
  TemporalMerger.combine_video_analyses analyses video_ids = Return c ->
  exists acc,
    foldM TemporalMerger.merge_analysis analyses TemporalMerger.acc0 = Return acc
    /\ Permutation (map bm_brand (combined_brand_metrics c))
                   (keys (TemporalMerger.acc_combined_brand_metrics acc)).
Proof.
  intros Hc. apply combine_inv in Hc as [acc [Hacc [-> _]]].
  exists acc. split; [assumption|].
  rewrite (Permutation_map bm_brand (sort_desc_perm _)), map_map.
  unfold keys. erewrite map_ext_in; [apply Permutation_refl|].
  intros [k v] Hkv. unfold finalize_entry. cbn [fst snd].
  destruct (finalize_keeps analyses k v) as [-> _].
  now destruct (merged_keyed analyses acc Hacc k v Hkv).
Qed.

(** X18. The merged list has one entry per brand: no brand name occurs twice, and
    the names are exactly those of the per-video entries of the analyses
    that were merged. *)
Theorem merged_brands_are_the_detected_ones
    (analyses : list (option Analysis)) (video_ids : list string) (c : Combined) :
  TemporalMerger.combine_video_analyses analyses video_ids = Return c ->
  NoDup (map bm_brand (combined_brand_metrics c))
  /\ forall b, In b (map bm_brand (combined_brand_metrics c))
               <-> exists a m, In (Some a) analyses /\ In m (brand_metrics a)
                               /\ bm_brand m = b.
Proof.
  intros Hc. destruct (merged_brand_names analyses video_ids c Hc) as [acc [Hacc Hp]].
  split.
  - apply (Permutation_NoDup (Permutation_sym Hp)). exact (merged_nodup analyses acc Hacc).
  - intros b. split.
    + intros H. apply (Permutation_in _ Hp) in H.
      apply (merged_keys analyses _ _ Hacc b) in H as [[] | H]. exact H.
    + intros H. apply (Permutation_in _ (Permutation_sym Hp)).
      apply (merged_keys analyses _ _ Hacc b). now right.
Qed.

Lemma merged_brands_example :
  exists c,
    TemporalMerger.combine_video_analyses
      [Some Sample.video3; None; Some Sample.video1; Some Sample.video2]
      ["v3"; "v0"; "v1"; "v2"] = Return c
    /\ map bm_brand (combined_brand_metrics c) = ["Nike"; "Adidas"]
    /\ NoDup (map bm_brand (combined_brand_metrics c)).
Proof.
  let r := eval vm_compute in
             (TemporalMerger.combine_video_analyses
                [Some Sample.video3; None; Some Sample.video1; Some Sample.video2]
                ["v3"; "v0"; "v1"; "v2"]) in
  match r with
  | Return ?c =>
      exists c;
      assert (Hc : TemporalMerger.combine_video_analyses
                     [Some Sample.video3; None; Some Sample.video1; Some Sample.video2]
                     ["v3"; "v0"; "v1"; "v2"] = Return c) by (vm_compute; reflexivity);
      split; [exact Hc|];
      split; [vm_compute; reflexivity|];
      exact (proj1 (merged_brands_are_the_detected_ones _ _ _ Hc))
  end.
Defined.

(** the truthy entries, in order *)
Definition somes {A : Type} (l : list (option A)) : list A :=
  flat_map (fun o => match o with Some a => [a] | None => [] end) l.

Lemma foldM_merge_somes (analyses : list (option Analysis)) :
  forall acc,
    foldM TemporalMerger.merge_analysis analyses acc
    = foldM TemporalMerger.merge_analysis (map Some (somes analyses)) acc.
Proof.
  induction analyses as [|[a|] analyses IH]; intros acc; [reflexivity| |].
  - cbn [somes flat_map app map foldM].
    destruct (TemporalMerger.merge_analysis acc (Some a)); [|reflexivity].
    cbn [bind]. apply IH.
  - cbn [somes flat_map app foldM TemporalMerger.merge_analysis bind]. apply IH.
Qed.

(** windows that start at [from], follow each other without a gap and end
    at [to], each as long as its video *)
Fixpoint contiguous (from : Q) (vs : list VideoInfo) (to : Q) : Prop :=
  match vs with
  | [] => from = to
  | v :: vs' =>
      start_time_seconds v = from
      /\ end_time_seconds v = (start_time_seconds v + vi_duration_minutes v * 60)%Q
      /\ contiguous (end_time_seconds v) vs' to
  end.

Lemma contiguous_snoc (from mid : Q) (vs : list VideoInfo) (v : VideoInfo) :
  contiguous from vs mid ->
  start_time_seconds v = mid ->
  end_time_seconds v = (start_time_seconds v + vi_duration_minutes v * 60)%Q ->
  contiguous from (vs ++ [v]) (end_time_seconds v).
Proof.
  revert from. induction vs as [|x vs IH]; intros from H Hs He; simpl in *.
  - subst. repeat split; congruence.
  - destruct H as [H1 [H2 H3]]. repeat split; auto.
Qed.

Lemma merge_analysis_window (acc acc' : TemporalMerger.Acc) (a : Analysis) :
  TemporalMerger.merge_analysis acc (Some a) = Return acc' ->
  exists v,
    TemporalMerger.acc_videos_analyzed acc'
    = (TemporalMerger.acc_videos_analyzed acc ++ [v])%list
    /\ vi_video_id v = video_id a
    /\ vi_duration_minutes v = video_duration_minutes (summary a)
    /\ start_time_seconds v = TemporalMerger.acc_cumulative_duration_seconds acc
    /\ end_time_seconds v = (start_time_seconds v + vi_duration_minutes v * 60)%Q
    /\ TemporalMerger.acc_cumulative_duration_seconds acc' = end_time_seconds v
    /\ TemporalMerger.acc_total_duration acc'
       = (TemporalMerger.acc_total_duration acc + video_duration_minutes (summary a))%Q
    /\ TemporalMerger.acc_total_brand_appearances acc'
       = (TemporalMerger.acc_total_brand_appearances acc
          + total_brand_appearances (summary a))%Z.
Proof.
  unfold TemporalMerger.merge_analysis. intros H.
  destruct (mapM _ (raw_detections a)); [|discriminate].
  destruct (foldM _ (brand_metrics a) _); [|discriminate].
  simpl in H. injection H as <-. eexists. simpl. repeat split.
Qed.

Lemma merged_windows (l : list Analysis) :
  forall acc acc',
    foldM TemporalMerger.merge_analysis (map Some l) acc = Return acc' ->
    contiguous 0 (TemporalMerger.acc_videos_analyzed acc)
               (TemporalMerger.acc_cumulative_duration_seconds acc) ->
    contiguous 0 (TemporalMerger.acc_videos_analyzed acc')
               (TemporalMerger.acc_cumulative_duration_seconds acc')
    /\ map vi_video_id (TemporalMerger.acc_videos_analyzed acc')
       = (map vi_video_id (TemporalMerger.acc_videos_analyzed acc)
          ++ map video_id l)%list
    /\ TemporalMerger.acc_total_duration acc'
       = fold_left Qplus (map (fun a => video_duration_minutes (summary a)) l)
                   (TemporalMerger.acc_total_duration acc)
    /\ TemporalMerger.acc_total_brand_appearances acc'
       = fold_left Z.add (map (fun a => total_brand_appearances (summary a)) l)
                   (TemporalMerger.acc_total_brand_appearances acc).
Proof.
  induction l as [|a l IH]; intros acc acc' H Hc; cbn [map foldM] in H.
  - injection H as <-. simpl. rewrite app_nil_r. repeat split. assumption.
  - destruct (TemporalMerger.merge_analysis acc (Some a)) as [acc1|] eqn:E; [|discriminate].
    cbn [bind] in H.
    apply merge_analysis_window in E
      as [v [Hv [Hid [Hdur [Hs [He [Hcum [Htd Htb]]]]]]]].
    destruct (IH _ _ H) as [H1 [H2 [H3 H4]]].
    { rewrite Hv, Hcum. now apply (contiguous_snoc _ _ _ _ Hc). }
    split; [assumption|]. rewrite H2, H3, H4, Hv, Htd, Htb, map_app. simpl.
    rewrite Hid, <- app_assoc. repeat split.
Qed.

(** X19. The windows of [videos_analyzed]: one per truthy analysis, in the order
    of the argument, with its id and duration; the first starts at 0, each
    ends its duration (in seconds) after its start, and each starts where
    the one before ends.  The summary's duration and number of appearances
    are the sums over the same analyses, and [total_videos] counts the ids
    that were requested, not the analyses that were merged. *)
Theorem merged_windows_are_contiguous
    (analyses : list (option Analysis)) (video_ids : list string) (c : Combined) :
  TemporalMerger.combine_video_analyses analyses video_ids = Return c ->
  let merged := somes analyses in
  let vs := videos_analyzed (combined_summary c) in
  map vi_video_id vs = map video_id merged
  /\ (exists to, contiguous 0 vs to)
  /\ combined_duration_minutes (combined_summary c)
     = Num.Qsum (map (fun a => video_duration_minutes (summary a)) merged)
  /\ cs_total_brand_appearances (combined_summary c)
     = Zsum (map (fun a => total_brand_appearances (summary a)) merged)
  /\ total_videos (combined_summary c) = List.length video_ids.
Proof.
  intros Hc merged vs. unfold TemporalMerger.combine_video_analyses in Hc.
  destruct analyses as [|oa analyses]; [discriminate|].
  rewrite foldM_merge_somes in Hc. fold merged in Hc.
  destruct (foldM TemporalMerger.merge_analysis (map Some merged) TemporalMerger.acc0)
    as [acc|e] eqn:E; [|discriminate].
  cbn [bind] in Hc. injection Hc as <-. subst vs. cbn.
  destruct (merged_windows merged _ _ E) as [H1 [H2 [H3 H4]]]; [reflexivity|].
  split; [exact H2|]. split; [eexists; exact H1|]. split; [exact H3|].
  split; [exact H4 | reflexivity].
Qed.

Lemma merged_windows_example :
  exists c,
    TemporalMerger.combine_video_analyses
      [Some Sample.video1; None; Some Sample.video3] ["v1"; "v0"; "v3"] = Return c
    /\ map (fun v => (vi_video_id v, Qred (start_time_seconds v), Qred (end_time_seconds v)))
           (videos_analyzed (combined_summary c))
       = [("v1", 0, 600); ("v3", 600, 900)]%Q
    /\ (exists to, contiguous 0 (videos_analyzed (combined_summary c)) to)
    /\ total_videos (combined_summary c) = 3%nat.
Proof.
  let r := eval vm_compute in
             (TemporalMerger.combine_video_analyses
                [Some Sample.video1; None; Some Sample.video3] ["v1"; "v0"; "v3"]) in
  match r with
  | Return ?c =>
      exists c;
      assert (Hc : TemporalMerger.combine_video_analyses
                     [Some Sample.video1; None; Some Sample.video3] ["v1"; "v0"; "v3"]
                   = Return c) by (vm_compute; reflexivity);
      destruct (merged_windows_are_contiguous _ _ _ Hc) as [_ [Hw [_ [_ Hn]]]];
      split; [exact Hc|];
      split; [vm_compute; reflexivity|];
      split; [exact Hw | exact Hn]
  end.
Defined.

(** ** Shifted detections *)

(** what [offset_timeline] returns when it returns: the copy of lines
    1683-1690, which keeps two entries of the timeline *)
Definition shifted (offset : Q) (detection : Appearance) : Appearance :=
  match timeline detection with
  | Some (t0 :: t1 :: _) => set_timeline detection [(t0 + offset)%Q; (t1 + offset)%Q]
  | _ => detection
  end.

Lemma offset_timeline_shifted (c : Q) (d d' : Appearance) :
  TemporalMerger.offset_timeline c d = Return d' -> d' = shifted c d.
Proof.
  unfold TemporalMerger.offset_timeline, shifted.
  destruct (timeline d) as [[|t0 [|t1 tl]]|]; congruence.
Qed.

Lemma mapM_offset_shifted (c : Q) (l : list Appearance) :
  forall l', mapM (TemporalMerger.offset_timeline c) l = Return l' ->
             l' = map (shifted c) l.
Proof.
  induction l as [|d l IH]; intros l' H; simpl in H.
  - now injection H as <-.
  - destruct (TemporalMerger.offset_timeline c d) as [d'|] eqn:E; [|discriminate].
    destruct (mapM _ l) as [l1|]; [|discriminate].
    simpl in H. injection H as <-. simpl. f_equal.
    + now apply offset_timeline_shifted.
    + now apply IH.
Qed.

(** the raw detections of the videos, each list shifted by the start of its
    video *)
Fixpoint shifted_detections (from : Q) (l : list Analysis) : list Appearance :=
  match l with
  | [] => []
  | a :: l' =>
      (map (shifted from) (raw_detections a)
       ++ shifted_detections (from + video_duration_minutes (summary a) * 60)%Q l')%list
  end.

Lemma merged_detections (l : list Analysis) :
  forall acc acc',
    foldM TemporalMerger.merge_analysis (map Some l) acc = Return acc' ->
    TemporalMerger.acc_all_detections acc'
    = (TemporalMerger.acc_all_detections acc
       ++ shifted_detections (TemporalMerger.acc_cumulative_duration_seconds acc) l)%list.
Proof.
  induction l as [|a l IH]; intros acc acc' H; cbn [map foldM] in H.
  - injection H as <-. simpl. now rewrite app_nil_r.
  - destruct (TemporalMerger.merge_analysis acc (Some a)) as [acc1|] eqn:E; [|discriminate].
    cbn [bind] in H. rewrite (IH _ _ H).
    apply merge_analysis_inv in E as [od [D [Hod [_ [_ [-> [_ ->]]]]]]].
    rewrite (mapM_offset_shifted _ _ _ Hod). simpl. now rewrite <- app_assoc.
Qed.

Lemma In_shifted_detections (l : list Analysis) :
  forall from d',
    In d' (shifted_detections from l) ->
    exists a d offset, In a l /\ In d (raw_detections a) /\ d' = shifted offset d.
Proof.
  induction l as [|a l IH]; intros from d' H; simpl in H; [contradiction|].
  apply in_app_or in H as [H | H].
  - apply in_map_iff in H as [d [<- Hd]]. exists a, d, from. repeat split; auto. now left.
  - destruct (IH _ _ H) as [a0 [d [o [Ha [Hd ->]]]]]. exists a0, d, o.
    repeat split; auto. now right.
Qed.

Lemma In_somes {A : Type} (l : list (option A)) (a : A) : In a (somes l) <-> In (Some a) l.
Proof.
  unfold somes. rewrite in_flat_map. split.
  - intros [[x|] [Hx H]]; [destruct H as [<- | []]; exact Hx | destruct H].
  - intros H. exists (Some a). split; [assumption | now left].
Qed.

Lemma shifted_keeps (offset : Q) (d : Appearance) :
  set_timeline (shifted offset d) [] = set_timeline d []
  /\ match SingleVideo.exposure_of (shifted offset d), SingleVideo.exposure_of d with
     | Some x, Some y => (x == y)%Q
     | None, None => True
     | _, _ => False
     end.
Proof.
  unfold shifted, SingleVideo.exposure_of.
  destruct d as [[[|t0 [|t1 tl]]|] ? ? ? ? ? ? ? ? ? ?]; simpl; split;
    try reflexivity; try exact I.
  ring.
Qed.

Lemma shifted_detections_length (l : list Analysis) :
  forall from,
    List.length (shifted_detections from l)
    = list_sum (map (fun a => List.length (raw_detections a)) l).
Proof.
  induction l as [|a l IH]; intros from; simpl; [reflexivity|].
  now rewrite length_app, length_map, IH.
Qed.

(** X20. The raw detections of the combined result are the raw detections of the
    merged videos, video after video in the order of the argument, each
    video's list shifted by the summed durations of the videos before it.
    None is lost or added, and a shifted copy differs from its original in
    the timeline only and spans the same exposure. *)
Theorem merged_detections_are_shifted_copies
    (analyses : list (option Analysis)) (video_ids : list string) (c : Combined) :
  TemporalMerger.combine_video_analyses analyses video_ids = Return c ->
  c_raw_detections c = shifted_detections 0 (somes analyses)
  /\ List.length (c_raw_detections c)
     = list_sum (map (fun a => List.length (raw_detections a)) (somes analyses))
  /\ forall d', In d' (c_raw_detections c) ->
       exists a d,
         In (Some a) analyses /\ In d (raw_detections a)
         /\ set_timeline d' [] = set_timeline d []
         /\ match SingleVideo.exposure_of d', SingleVideo.exposure_of d with
            | Some x, Some y => (x == y)%Q
            | None, None => True
            | _, _ => False
            end.
Proof.
  intros Hc. apply combine_inv in Hc as [acc [Hacc [_ [_ [-> _]]]]].
  rewrite foldM_merge_somes in Hacc.
  rewrite (merged_detections _ _ _ Hacc). cbn [TemporalMerger.acc0
    TemporalMerger.acc_all_detections TemporalMerger.acc_cumulative_duration_seconds app].
  split; [reflexivity|]. split; [apply shifted_detections_length|].
  intros d' Hd'. apply In_shifted_detections in Hd' as [a [d [o [Ha [Hd ->]]]]].
  exists a, d. split; [now apply In_somes|]. split; [assumption|].
  apply shifted_keeps.
Qed.

Lemma merged_detections_example :
  exists c,
    TemporalMerger.combine_video_analyses
      [Some Sample.video1; Some Sample.video3] ["v1"; "v3"] = Return c
    /\ map (fun d => (brand d, map Qred (get (timeline d) [])))
           (raw_detections Sample.video1 ++ raw_detections Sample.video3)
       = [(Some "Nike", [10; 20]); (Some "Adidas", [30; 45])]%Q
    /\ map (fun d => (brand d, map Qred (get (timeline d) []))) (c_raw_detections c)
       = [(Some "Nike", [10; 20]); (Some "Adidas", [630; 645])]%Q
    /\ c_raw_detections c
       = shifted_detections 0 (somes [Some Sample.video1; Some Sample.video3]).
Proof.
  let r := eval vm_compute in
             (TemporalMerger.combine_video_analyses
                [Some Sample.video1; Some Sample.video3] ["v1"; "v3"]) in
  match r with
  | Return ?c =>
      exists c;
      assert (Hc : TemporalMerger.combine_video_analyses
                     [Some Sample.video1; Some Sample.video3] ["v1"; "v3"]
                   = Return c) by (vm_compute; reflexivity);
      split; [exact Hc|];
      split; [vm_compute; reflexivity|];
      split; [vm_compute; reflexivity|];
      exact (proj1 (merged_detections_are_shifted_copies _ _ _ Hc))
  end.
Defined.

(** ** A timeline with one entry *)

Definition index_error : string := "list index out of range".

Lemma mapM_raises {A B : Type} (P : string -> Prop) (f : A -> Py B) (l : list A) :
  (forall a e, In a l -> f a = Raise e -> P e) ->
  forall e, mapM f l = Raise e -> P e.
Proof.
  induction l as [|a l IH]; intros Hf e H; simpl in H; [discriminate|].
  destruct (f a) as [b|e0] eqn:E.
  - destruct (mapM f l) as [bs|e1] eqn:E1; simpl in H; [discriminate|].
    injection H as <-. apply IH; [|reflexivity]. intros a0 e0 Ha. apply Hf. now right.
  - simpl in H. injection H as <-. apply (Hf a); [now left | assumption].
Qed.

Lemma foldM_raises {A B : Type} (P : string -> Prop) (f : B -> A -> Py B) (l : list A) :
  (forall acc a e, In a l -> f acc a = Raise e -> P e) ->
  forall acc e, foldM f l acc = Raise e -> P e.
Proof.
  induction l as [|a l IH]; intros Hf acc e H; simpl in H; [discriminate|].
  destruct (f acc a) as [acc1|e0] eqn:E; simpl in H.
  - apply (IH (fun acc0 a0 e0 Ha => Hf acc0 a0 e0 (or_intror Ha)) _ _ H).
  - injection H as <-. apply (Hf acc a); [now left | assumption].
Qed.

(** a step that raises whatever the accumulator makes the loop raise *)
Lemma foldM_must_raise {A B : Type} (f : B -> A -> Py B) (l : list A) (a : A) :
  In a l -> (forall acc, exists e, f acc a = Raise e) ->
  forall acc, exists e, foldM f l acc = Raise e.
Proof.
  induction l as [|x l IH]; intros Hin Hf acc; [contradiction|]. simpl.
  destruct (f acc x) as [acc1|e0] eqn:E; simpl.
  - destruct Hin as [-> | Hin].
    + destruct (Hf acc) as [e He]. congruence.
    + now apply IH.
  - now exists e0.
Qed.

Lemma offset_timeline_raises (c : Q) (d : Appearance) (e : string) :
  TemporalMerger.offset_timeline c d = Raise e -> e = index_error.
Proof.
  unfold TemporalMerger.offset_timeline.
  destruct (timeline d) as [[|t0 [|t1 tl]]|]; intros H; try discriminate.
  now injection H as <-.
Qed.

Lemma mapM_offset_raises (c : Q) (l : list Appearance) (e : string) :
  mapM (TemporalMerger.offset_timeline c) l = Raise e -> e = index_error.
Proof.
  apply (mapM_raises (fun e => e = index_error)).
  intros a e0 _. apply offset_timeline_raises.
Qed.

Lemma merge_brand_metric_raises (c : Q) (D : dict BrandMetric) (m : BrandMetric)
    (e : string) :
  TemporalMerger.merge_brand_metric c D m = Raise e -> e = index_error.
Proof.
  unfold TemporalMerger.merge_brand_metric, TemporalMerger.absorb.
  destruct (mapM _ (appearances m)) eqn:E1; simpl;
    [|intros [= <-]; now apply mapM_offset_raises in E1].
  destruct (mapM _ (ad_placements m)) eqn:E2; simpl;
    [|intros [= <-]; now apply mapM_offset_raises in E2].
  destruct (mapM _ (in_game_placements m)) eqn:E3; simpl;
    [discriminate|intros [= <-]; now apply mapM_offset_raises in E3].
Qed.

Lemma merge_analysis_raises (acc : TemporalMerger.Acc) (oa : option Analysis)
    (e : string) :
  TemporalMerger.merge_analysis acc oa = Raise e -> e = index_error.
Proof.
  destruct oa as [a|]; [|discriminate]. unfold TemporalMerger.merge_analysis.
  destruct (mapM _ (raw_detections a)) eqn:E1; simpl;
    [|intros [= <-]; now apply mapM_offset_raises in E1].
  destruct (foldM _ (brand_metrics a) _) eqn:E2; simpl; [discriminate|].
  intros [= <-]. revert E2. apply (foldM_raises (fun e => e = index_error)).
  intros D m e0 _. apply merge_brand_metric_raises.
Qed.

(** [d] is one of the detections the merge shifts for analysis [a] *)
Definition shifted_by_merge (a : Analysis) (d : Appearance) : Prop :=
  In d (raw_detections a)
  \/ exists m, In m (brand_metrics a)
               /\ (In d (appearances m) \/ In d (ad_placements m)
                   \/ In d (in_game_placements m)).

Lemma merge_analysis_must_raise (a : Analysis) (d : Appearance) (t : Q) :
  shifted_by_merge a d -> timeline d = Some [t] ->
  forall acc, exists e, TemporalMerger.merge_analysis acc (Some a) = Raise e.
Proof.
  intros Hd Ht acc.
  assert (Hr : forall c, TemporalMerger.offset_timeline c d = Raise index_error).
  { intros c. unfold TemporalMerger.offset_timeline. now rewrite Ht. }
  unfold TemporalMerger.merge_analysis.
  destruct Hd as [Hd | [m [Hm Hd]]].
  - destruct (mapM_Raise _ _ _ _ Hd (Hr (TemporalMerger.acc_cumulative_duration_seconds acc)))
      as [e ->]. now exists e.
  - destruct (mapM _ (raw_detections a)) as [od|e]; simpl; [|now exists e].
    destruct (foldM_must_raise
                (TemporalMerger.merge_brand_metric
                   (TemporalMerger.acc_cumulative_duration_seconds acc))
                (brand_metrics a) m Hm) with (acc := TemporalMerger.acc_combined_brand_metrics acc)
      as [e ->]; [|now exists e].
    intros D. unfold TemporalMerger.merge_brand_metric, TemporalMerger.absorb.
    set (c := TemporalMerger.acc_cumulative_duration_seconds acc).
    destruct Hd as [Hd | [Hd | Hd]].
    + destruct (mapM_Raise _ _ _ _ Hd (Hr c)) as [e ->]. now exists e.
    + destruct (mapM _ (appearances m)) as [?|e]; simpl; [|now exists e].
      destruct (mapM_Raise _ _ _ _ Hd (Hr c)) as [e ->]. now exists e.
    + destruct (mapM _ (appearances m)) as [?|e]; simpl; [|now exists e].
      destruct (mapM _ (ad_placements m)) as [?|e]; simpl; [|now exists e].
      destruct (mapM_Raise _ _ _ _ Hd (Hr c)) as [e ->]. now exists e.
Qed.

Lemma combine_index_error (analyses : list (option Analysis)) (video_ids : list string)
    (a : Analysis) (d : Appearance) (t : Q) :
  In (Some a) analyses -> shifted_by_merge a d -> timeline d = Some [t] ->
  TemporalMerger.combine_video_analyses analyses video_ids = Raise index_error.
Proof.
  intros Ha Hd Ht. unfold TemporalMerger.combine_video_analyses.
  destruct analyses as [|oa analyses]; [contradiction|].
  destruct (foldM_must_raise TemporalMerger.merge_analysis _ _ Ha
              (merge_analysis_must_raise a d t Hd Ht) TemporalMerger.acc0) as [e He].
  rewrite He. simpl. f_equal.
  revert He. apply (foldM_raises (fun e => e = index_error)).
  intros acc x e0 _. apply merge_analysis_raises.
Qed.

Lemma multi_video_final_failed (video_ids : list string)
    (results : list ParallelOrchestrator.UnitResult) (e : string)
    (job_id : string) (tracker : AnalysisStatus) :
  video_ids <> [] ->
  TemporalMerger.combine_video_analyses (ParallelOrchestrator.successful results) video_ids
  = Raise e ->
  exists j,
    Lifecycle.final job_id
      (ParallelOrchestrator.analyze_multiple_videos_with_progress_updates video_ids results)
      (create_job job_id tracker) = Some j
    /\ status j = failed /\ error j = Some e /\ data j = None.
Proof.
  intros Hne Hc.
  unfold ParallelOrchestrator.analyze_multiple_videos_with_progress_updates.
  rewrite Hc. destruct video_ids as [|v video_ids]; [congruence|].
  set (u0 := ParallelOrchestrator.multi_update "initialization" 0 _ _).
  set (loop := ParallelOrchestrator.loop_updates _ 0 results).
  set (u85 := ParallelOrchestrator.multi_update "finalizing" 85 _ _).
  set (uf := ParallelOrchestrator.multi_failed_update _).
  destruct (final_snoc job_id (u0 :: loop ++ [u85]) uf tracker)
    as [now [jp [Hf [Hd He]]]].
  { constructor; [now split|]. apply Forall_app. split.
    - apply loop_updates_quiet.
    - repeat constructor. }
  replace (u0 :: loop ++ [u85] ++ [uf])%list with ((u0 :: loop ++ [u85]) ++ [uf])%list
    by (simpl; now rewrite <- app_assoc).
  rewrite Hf. eexists. split; [reflexivity|]. simpl.
  repeat split; assumption.
Qed.

(** X21. A detection whose timeline has a single entry passes the single-video
    pipeline, which only counts its exposure when there are two entries, but
    not the merge, which reads the second entry unguarded: when one unit
    succeeded with such a detection among its raw detections or among the
    appearances of a brand, the merge raises an IndexError and the
    multi-video job ends failed, whatever the other units returned. *)
Theorem one_entry_timeline_fails_the_merge
    (video_ids : list string) (results : list ParallelOrchestrator.UnitResult)
    (r : ParallelOrchestrator.UnitResult) (a : Analysis) (d : Appearance) (t : Q)
    (job_id : string) (tracker : AnalysisStatus) :
  video_ids <> [] ->
  In r results ->
  ParallelOrchestrator.success r = true ->
  ParallelOrchestrator.r_data r = Some a ->
  shifted_by_merge a d ->
  timeline d = Some [t] ->
  TemporalMerger.combine_video_analyses (ParallelOrchestrator.successful results) video_ids
  = Raise "list index out of range"
  /\ exists j,
       Lifecycle.final job_id
         (ParallelOrchestrator.analyze_multiple_videos_with_progress_updates
            video_ids results)
         (create_job job_id tracker) = Some j
       /\ status j = failed /\ error j = Some "list index out of range"
       /\ data j = None.
Proof.
  intros Hne Hr Hs Hdata Hd Ht.
  assert (Hc : TemporalMerger.combine_video_analyses
                 (ParallelOrchestrator.successful results) video_ids
               = Raise index_error).
  { apply (combine_index_error _ _ a d t); [|assumption|assumption].
    unfold ParallelOrchestrator.successful. apply in_flat_map. exists r.
    split; [assumption|]. rewrite Hs, Hdata. now left. }
  split; [exact Hc|]. now apply multi_video_final_failed.
Qed.

(** a detection of Nike whose timeline lost its end, and the results of two
    units of which the second saw it *)
Definition clipped : Appearance :=
  set_timeline (Sample.detection "Nike" 5 15 "replay" "primary") [5%Q].

Definition results_with_clipped : list ParallelOrchestrator.UnitResult :=
  [ ParallelOrchestrator.unit_result "v1"
      (SingleVideo.outcome
         (Sample.world [Sample.detection "Nike" 10 20 "game_action" "secondary"] 600 60)
         "v1" ["Nike"]);
    ParallelOrchestrator.unit_result "v2"
      (SingleVideo.outcome (Sample.world [clipped] 300 80) "v2" ["Nike"]) ].

Lemma one_entry_timeline_example :
  map ParallelOrchestrator.success results_with_clipped = [true; true]
  /\ exists j,
       Lifecycle.final "job"
         (ParallelOrchestrator.analyze_multiple_videos_with_progress_updates
            ["v1"; "v2"] results_with_clipped)
         (create_job "job" JobTracker.init) = Some j
       /\ status j = failed /\ error j = Some "list index out of range"
       /\ data j = None.
Proof.
  split; [vm_compute; reflexivity|].
  let r := eval vm_compute in
             (SingleVideo.outcome (Sample.world [clipped] 300 80) "v2" ["Nike"]) in
  match r with
  | Return ?a =>
      let d := eval vm_compute in (hd clipped (raw_detections a)) in
      refine (proj2 (one_entry_timeline_fails_the_merge
                       ["v1"; "v2"] results_with_clipped
                       (ParallelOrchestrator.unit_result "v2" (Return a)) a d 5
                       "job" JobTracker.init _ _ _ _ _ _));
      [ discriminate
      | right; left; vm_compute; reflexivity
      | reflexivity
      | reflexivity
      | left; left; reflexivity
      | reflexivity ]
  end.
Defined.

(** ** Partial failure and the one-entry timeline (C6) *)

Lemma kept_detection_is_published (w : Collaborators) (vid : string)
    (selected_brands : list string) (brand_appearances : list Appearance)
    (a : Analysis) (d : Appearance) :
  client_analyze w = Return brand_appearances ->
  SingleVideo.outcome w vid selected_brands = Return a ->
  In d brand_appearances -> kept d = true ->
  In (SingleVideo.ensure_category d) (raw_detections a).
Proof.
  intros Hd Ho Hin Hk. apply outcome_inv in Ho as [apps [Hd' [_ [Hraw _]]]].
  rewrite Hd in Hd'. injection Hd' as <-. rewrite Hraw.
  apply (Permutation_in _
           (Permutation_sym (collect_brand_data_perm brand_appearances []))).
  cbn [all_appearances values map flat_map app]. apply in_map.
  apply filter_In. now split.
Qed.

(** C6. Three videos analysed in parallel, exactly one of which fails, in
    any completion order: every future returns and two analyses succeed; yet
    when one of the two successful units was given, by the vision service, a
    detection of a valid brand whose timeline has a single entry - which the
    single-video pipeline accepts (line 1337) - the merge of the two
    successful results raises at the unguarded [original_timeline[1]] (line
    1689), and the job ends failed with that error and no data instead of
    completed with the two results. *)
Theorem partial_failure_lost_to_one_entry_timeline
    (w0 w1 w2 : Collaborators) (v0 v1 v2 : string) (selected_brands : list string)
    (order : list nat) (pool_tracker : AnalysisStatus)
    (job_id : string) (tracker : AnalysisStatus)
    (i : nat) (w : Collaborators) (v : string) (a : Analysis)
    (brand_appearances : list Appearance) (d : Appearance) (t : Q) :
  Permutation order [0; 1; 2]%nat ->
  List.length (filter is_raise [ SingleVideo.outcome w0 v0 selected_brands;
                                 SingleVideo.outcome w1 v1 selected_brands;
                                 SingleVideo.outcome w2 v2 selected_brands ]) = 1%nat ->
  nth_error [w0; w1; w2] i = Some w ->
  nth_error [v0; v1; v2] i = Some v ->
  SingleVideo.outcome w v selected_brands = Return a ->
  client_analyze w = Return brand_appearances ->
  In d brand_appearances -> kept d = true -> timeline d = Some [t] ->
  exists results j,
    ParallelOrchestrator.results_of
      (fst (ParallelOrchestrator.as_completed [w0; w1; w2] [v0; v1; v2]
              selected_brands order pool_tracker)) = Some results
    /\ List.length (ParallelOrchestrator.successful results) = 2%nat
    /\ TemporalMerger.combine_video_analyses
         (ParallelOrchestrator.successful results) [v0; v1; v2]
       = Raise "list index out of range"
    /\ Lifecycle.final job_id
         (ParallelOrchestrator.analyze_multiple_videos_with_progress_updates
            [v0; v1; v2] results)
         (create_job job_id tracker) = Some j
    /\ status j = failed /\ error j = Some "list index out of range"
    /\ data j = None.
Proof.
  intros Hperm Hone Ew Ev Eo Hd Hin Hk Ht.
  set (worlds := [w0; w1; w2]) in *. set (video_ids := [v0; v1; v2]) in *.
  set (ok := flat_map (analyses_of worlds video_ids selected_brands) order).
  assert (Hlen : List.length ok = 2%nat).
  { subst ok.
    rewrite (Permutation_length
               (Permutation_flat_map (analyses_of worlds video_ids selected_brands) Hperm)).
    unfold analyses_of, worlds, video_ids. cbn [flat_map nth_error].
    destruct (SingleVideo.outcome w0 v0 selected_brands),
             (SingleVideo.outcome w1 v1 selected_brands),
             (SingleVideo.outcome w2 v2 selected_brands);
      simpl in Hone |- *; congruence. }
  set (results := flat_map (future worlds video_ids selected_brands) order).
  assert (Hsucc : ParallelOrchestrator.successful results = map Some ok)
    by apply successful_futures.
  assert (Ha : In (Some a) (ParallelOrchestrator.successful results)).
  { rewrite Hsucc. apply in_map. subst ok. apply in_flat_map. exists i. split.
    - apply (Permutation_in _ (Permutation_sym Hperm)).
      assert (Hi : (i < 3)%nat)
        by (change 3%nat with (List.length worlds); apply nth_error_Some; congruence).
      simpl. lia.
    - unfold analyses_of. rewrite Ew, Ev, Eo. now left. }
  assert (Hc : TemporalMerger.combine_video_analyses
                 (ParallelOrchestrator.successful results) video_ids
               = Raise index_error).
  { apply (combine_index_error _ _ a (SingleVideo.ensure_category d) t Ha).
    - left. exact (kept_detection_is_published w v selected_brands _ a d Hd Eo Hin Hk).
    - now rewrite ensure_category_timeline. }
  destruct (multi_video_final_failed video_ids results index_error job_id tracker)
    as [j [Hj [Hs [He Hdata]]]]; [discriminate | exact Hc |].
  exists results, j.
  split; [apply as_completed_results|].
  split; [now rewrite Hsucc, length_map|].
  split; [exact Hc|]. split; [exact Hj|]. split; [exact Hs|].
  split; [exact He | exact Hdata].
Qed.

Lemma partial_failure_lost_example :
  exists results j,
    ParallelOrchestrator.results_of
      (fst (ParallelOrchestrator.as_completed
              [ Sample.world [Sample.detection "Nike" 10 20 "game_action" "secondary"] 600 60;
                Sample.world_down;
                Sample.world [clipped] 300 80 ]
              ["v1"; "v2"; "v3"] ["Nike"] [2; 0; 1]%nat init)) = Some results
    /\ map ParallelOrchestrator.success results = [true; true; false]
    /\ List.length (ParallelOrchestrator.successful results) = 2%nat
    /\ Lifecycle.final "multi-1"
         (ParallelOrchestrator.analyze_multiple_videos_with_progress_updates
            ["v1"; "v2"; "v3"] results)
         (create_job "multi-1" init) = Some j
    /\ status j = failed /\ error j = Some "list index out of range"
    /\ data j = None.
Proof.
  let r := eval vm_compute in
             (SingleVideo.outcome (Sample.world [clipped] 300 80) "v3" ["Nike"]) in
  match r with
  | Return ?a =>
      destruct (partial_failure_lost_to_one_entry_timeline
                  (Sample.world [Sample.detection "Nike" 10 20 "game_action" "secondary"]
                                600 60)
                  Sample.world_down
                  (Sample.world [clipped] 300 80)
                  "v1" "v2" "v3" ["Nike"] [2; 0; 1]%nat init "multi-1" init
                  2%nat (Sample.world [clipped] 300 80) "v3" a [clipped] clipped 5)
        as [results [j [Hr [Hn [_ [Hj [Hs [He Hd]]]]]]]];
      [ apply perm_trans with [0; 2; 1]%nat;
          [ apply (perm_swap 0%nat 2%nat [1%nat])
          | apply perm_skip; apply perm_swap ]
      | vm_compute; reflexivity
      | reflexivity
      | reflexivity
      | vm_compute; reflexivity
      | reflexivity
      | left; reflexivity
      | vm_compute; reflexivity
      | reflexivity
      | exists results, j;
        split; [exact Hr|];
        split;
          [ rewrite as_completed_results in Hr; injection Hr as <-;
            vm_compute; reflexivity |];
        split; [exact Hn|];
        split; [exact Hj|];
        split; [exact Hs|];
        split; [exact He | exact Hd] ]
  end.
Defined.

(** ** The parallel driver *)

(** X22. A unit never polls for ever: the pipeline it calls runs to its terminal
    report before the loop reads the job.  It returns on the first turn, with
    the id of its video; it reports success with the published analysis as
    data exactly when the pipeline published one, and otherwise failure with
    the message of the exception.  Its temporary job stays in the registry,
    in the terminal status. *)
Theorem unit_returns_what_the_pipeline_published
    (w : Collaborators) (video_id : string) (selected_brands : list string)
    (tracker : AnalysisStatus) :
  let run := ParallelOrchestrator.analyze_single_video_parallel
               w video_id selected_brands tracker in
  let temp_job_id := video_id ++ "-temp-" ++ SingleVideo.str_nat (clock tracker) in
  exists r j,
    fst run = ParallelOrchestrator.Finished r
    /\ ParallelOrchestrator.r_video_id r = video_id
    /\ get_job temp_job_id (snd run) = Some j
    /\ match SingleVideo.outcome w video_id selected_brands with
       | Return a =>
           ParallelOrchestrator.success r = true
           /\ ParallelOrchestrator.r_data r = Some a
           /\ ParallelOrchestrator.r_error r = None
           /\ status j = completed
       | Raise e =>
           ParallelOrchestrator.success r = false
           /\ ParallelOrchestrator.r_data r = None
           /\ ParallelOrchestrator.r_error r = Some e
           /\ status j = failed
       end.
Proof.
  intros run temp_job_id.
  pose proof (analyze_single_video_parallel_result w video_id selected_brands tracker) as Hr.
  fold run in Hr.
  destruct (single_video_final w video_id selected_brands temp_job_id tracker)
    as [j [Hj Ho]].
  exists (ParallelOrchestrator.unit_result video_id
            (SingleVideo.outcome w video_id selected_brands)), j.
  split; [exact Hr|].
  split; [now destruct (SingleVideo.outcome w video_id selected_brands)|].
  split; [exact Hj|].
  destruct (SingleVideo.outcome w video_id selected_brands) as [a|e]; simpl;
    repeat split; tauto.
Qed.

Lemma progress_of_closed_form (k total : nat) :
  (0 < total)%nat ->
  ParallelOrchestrator.progress_of k total = (80 * Z.of_nat k / Z.of_nat total)%Z.
Proof.
  intros Ht. rewrite (progress_of_floor k total Ht). unfold ratio.
  destruct total as [|n]; [lia|].
  unfold Qfloor, Qdiv, Qmult, Qinv, inject_Z. cbn [Qnum Qden].
  rewrite Nat2Z.inj_succ. 
  destruct (Z.succ (Z.of_nat n)) as [|p|p] eqn:E; [lia| |lia].
  cbn [Qnum Qden]. f_equal; [lia|]. now rewrite !Pos.mul_1_l, Pos.mul_1_r.
Qed.

Lemma loop_updates_progress_values (total : nat)
    (results : list ParallelOrchestrator.UnitResult) :
  (0 < total)%nat ->
  forall done,
    map u_progress (ParallelOrchestrator.loop_updates total done results)
    = map (fun k => Some (80 * Z.of_nat k / Z.of_nat total)%Z)
          (seq (S done) (List.length results)).
Proof.
  intros Ht. induction results as [|r results IH]; intros done; [reflexivity|].
  cbn [ParallelOrchestrator.loop_updates map List.length seq].
  rewrite IH. f_equal. cbn [ParallelOrchestrator.multi_update u_progress].
  now rewrite progress_of_closed_form.
Qed.

(** X23. The progress a multi-video job reports: 0 at the start, then after the
    k-th returned unit the integer part of 80k/n, whether the unit succeeded
    or not - so exactly 80 once all n units are back - then 85 before the
    merge. *)
Theorem multi_video_progress_values
    (video_ids : list string) (results : list ParallelOrchestrator.UnitResult) :
  video_ids <> [] ->
  List.length results = List.length video_ids ->
  let n := Z.of_nat (List.length video_ids) in
  exists closing,
    map u_progress
        (ParallelOrchestrator.analyze_multiple_videos_with_progress_updates
           video_ids results)
    = (Some 0%Z
       :: map (fun k => Some (80 * Z.of_nat k / n)%Z) (seq 1 (List.length results))
       ++ [Some 85%Z; u_progress closing])%list
    /\ (80 * Z.of_nat (List.length results) / n = 80)%Z
    /\ (u_status closing = Some completed \/ u_status closing = Some failed).
Proof.
  intros Hne Hlen n.
  unfold ParallelOrchestrator.analyze_multiple_videos_with_progress_updates.
  destruct video_ids as [|v video_ids]; [congruence|].
  set (total := List.length (v :: video_ids)) in *.
  assert (Ht : (0 < total)%nat) by (subst total; simpl; lia).
  set (merged := TemporalMerger.combine_video_analyses _ _).
  exists (match merged with
          | Return c =>
              ParallelOrchestrator.multi_completed_update
                (List.length (ParallelOrchestrator.successful results)) total c
          | Raise e => ParallelOrchestrator.multi_failed_update e
          end).
  split; [|split].
  - cbn [map]. f_equal. rewrite !map_app.
    rewrite (loop_updates_progress_values total results Ht 0). f_equal.
    now destruct merged.
  - rewrite Hlen. subst n. apply Z.div_mul. lia.
  - destruct merged; [left | right]; reflexivity.
Qed.

Lemma multi_video_progress_example :
  map u_progress
      (ParallelOrchestrator.analyze_multiple_videos_with_progress_updates
         ["v1"; "v2"; "v3"]
         [Sample.failure "v2";
          ParallelOrchestrator.unit_result "v1" (Return Sample.video1);
          Sample.failure "v3"])
  = [Some 0; Some 26; Some 53; Some 80; Some 85; Some 100]%Z
  /\ exists closing,
       map u_progress
           (ParallelOrchestrator.analyze_multiple_videos_with_progress_updates
              ["v1"; "v2"; "v3"]
              [Sample.failure "v2";
               ParallelOrchestrator.unit_result "v1" (Return Sample.video1);
               Sample.failure "v3"])
       = (Some 0%Z
          :: map (fun k => Some (80 * Z.of_nat k / 3)%Z) (seq 1 3)
          ++ [Some 85%Z; u_progress closing])%list
       /\ (80 * 3 / 3 = 80)%Z
       /\ (u_status closing = Some completed \/ u_status closing = Some failed).
Proof.
  split; [vm_compute; reflexivity|].
  apply (multi_video_progress_values
           ["v1"; "v2"; "v3"]
           [Sample.failure "v2";
            ParallelOrchestrator.unit_result "v1" (Return Sample.video1);
            Sample.failure "v3"]); [discriminate | reflexivity].
Defined.

Lemma successful_shiftable (results : list ParallelOrchestrator.UnitResult) :
  (forall r, In r results -> ParallelOrchestrator.success r = true ->
             exists a, ParallelOrchestrator.r_data r = Some a /\ shiftable_analysis a) ->
  exists l,
    ParallelOrchestrator.successful results = map Some l
    /\ Forall shiftable_analysis l
    /\ List.length l = List.length (filter ParallelOrchestrator.success results).
Proof.
  induction results as [|r results IH]; intros H.
  - exists []. repeat split. constructor.
  - destruct IH as [l [Hl [Hs Hn]]]; [intros r0 Hr0; apply H; now right|].
    unfold ParallelOrchestrator.successful in *. cbn [flat_map filter].
    destruct (ParallelOrchestrator.success r) eqn:E.
    + destruct (H r (or_introl eq_refl) E) as [a [Ha Hsa]].
      exists (a :: l). rewrite Ha, Hl. simpl. repeat split; [now constructor | now rewrite Hn].
    + exists l. now repeat split.
Qed.

(** X24. A multi-video job, for any number of videos and any mix of outcomes
    (the successful analyses carrying no one-entry timeline): the job ends
    completed exactly when at least one unit succeeded, with the merge of the
    successful analyses - one window per successful unit - as data and no
    error; when every unit failed it ends failed with the merge's "No
    successful analyses to combine" and no data. *)
Theorem multi_video_job_completes_iff_a_unit_succeeded
    (video_ids : list string) (results : list ParallelOrchestrator.UnitResult)
    (job_id : string) (tracker : AnalysisStatus) :
  video_ids <> [] ->
  (forall r, In r results -> ParallelOrchestrator.success r = true ->
             exists a, ParallelOrchestrator.r_data r = Some a /\ shiftable_analysis a) ->
  exists j,
    Lifecycle.final job_id
      (ParallelOrchestrator.analyze_multiple_videos_with_progress_updates video_ids results)
      (create_job job_id tracker) = Some j
    /\ (status j = completed
        <-> exists r, In r results /\ ParallelOrchestrator.success r = true)
    /\ (status j = completed ->
        exists c,
          data j = Some (MultiVideo c) /\ error j = None
          /\ individual_analyses c = ParallelOrchestrator.successful results
          /\ List.length (videos_analyzed (combined_summary c))
             = List.length (filter ParallelOrchestrator.success results))
    /\ (status j <> completed ->
        status j = failed /\ data j = None
        /\ error j = Some "No successful analyses to combine").
Proof.
  intros Hne Hok.
  destruct (successful_shiftable results Hok) as [l [Hl [Hs Hn]]].
  destruct l as [|a l].
  - assert (Hnone : forall r, In r results -> ParallelOrchestrator.success r = false).
    { intros r Hr. destruct (ParallelOrchestrator.success r) eqn:E; [|reflexivity].
      exfalso. assert (Hin : In r (filter ParallelOrchestrator.success results))
        by (apply filter_In; now split).
      destruct (filter ParallelOrchestrator.success results); [contradiction | discriminate]. }
    destruct (multi_video_final_failed video_ids results
                "No successful analyses to combine" job_id tracker Hne)
      as [j [Hj [Hst [He Hd]]]]; [now rewrite Hl|].
    exists j. split; [exact Hj|]. split; [|split].
    + split; [congruence|]. intros [r [Hr Hsr]]. rewrite (Hnone r Hr) in Hsr. discriminate.
    + congruence.
    + now intros _.
  - destruct (combine_some_total (a :: l) video_ids) as [c [Hc [Hi Hv]]];
      [discriminate | assumption |].
    rewrite <- Hl in Hc, Hi.
    destruct (multi_video_final_completed video_ids results c job_id tracker Hne Hc)
      as [j [Hj [Hst [Hd He]]]].
    exists j. split; [exact Hj|]. split; [|split].
    + split; [|intros _; exact Hst]. intros _.
      destruct (filter ParallelOrchestrator.success results) as [|r rs] eqn:Ef;
        [discriminate|].
      assert (Hin : In r (filter ParallelOrchestrator.success results))
        by (rewrite Ef; now left).
      apply filter_In in Hin. now exists r.
    + intros _. exists c. repeat split; try assumption.
      rewrite <- Hn, <- (length_map vi_video_id), Hv. now rewrite length_map.
    + intros H. contradiction.
Qed.

Lemma multi_video_job_example :
  exists j,
    Lifecycle.final "job"
      (ParallelOrchestrator.analyze_multiple_videos_with_progress_updates
         ["v1"; "v2"; "v3"; "v4"]
         [Sample.failure "v2";
          ParallelOrchestrator.unit_result "v3" (Return Sample.video3);
          Sample.failure "v4";
          ParallelOrchestrator.unit_result "v1" (Return Sample.video1)])
      (create_job "job" JobTracker.init) = Some j
    /\ status j = completed
    /\ exists c,
         data j = Some (MultiVideo c) /\ error j = None
         /\ List.length (videos_analyzed (combined_summary c)) = 2%nat.
Proof.
  destruct (multi_video_job_completes_iff_a_unit_succeeded
              ["v1"; "v2"; "v3"; "v4"]
              [Sample.failure "v2";
               ParallelOrchestrator.unit_result "v3" (Return Sample.video3);
               Sample.failure "v4";
               ParallelOrchestrator.unit_result "v1" (Return Sample.video1)]
              "job" JobTracker.init)
    as [j [Hj [Hiff [Hc _]]]].
  - discriminate.
  - intros r [<- | [<- | [<- | [<- | []]]]]; try discriminate; intros _;
      eexists; (split; [reflexivity|]);
      split; repeat constructor; intros t; discriminate.
  - assert (Hst : status j = completed).
    { apply Hiff. eexists. split; [right; left; reflexivity | reflexivity]. }
    exists j. split; [exact Hj|]. split; [exact Hst|].
    destruct (Hc Hst) as [c [Hd [He [_ Hn]]]].
    exists c. repeat split; assumption.
Defined.

(** ** The validation loop of the synchronous endpoint *)

(** the test of line 2176: the record has the keys [brand] and [timeline] *)
Definition salvageable (a : Appearance) : bool :=
  match brand a, timeline a with
  | Some _, Some _ => true
  | _, _ => false
  end.

Lemma validate_one_cases (a : Appearance) :
  SyncEndpoint.validate_one a
  = if BrandAppearanceModel.valid a
    then ([BrandAppearanceModel.model_dump a], [])
    else (if salvageable a then [a] else [],
          ["Skipping invalid appearance: validation error for BrandAppearance"]).
Proof.
  unfold SyncEndpoint.validate_one, BrandAppearanceModel.validate, salvageable.
  destruct (BrandAppearanceModel.valid a); [reflexivity|].
  destruct (brand a), (timeline a); reflexivity.
Qed.

Lemma valid_has_keys (a : Appearance) :
  BrandAppearanceModel.valid a = true -> brand a <> None /\ timeline a <> None.
Proof.
  unfold BrandAppearanceModel.valid. intros H.
  repeat (apply andb_prop in H as [H ?]).
  destruct (brand a); [|discriminate]. destruct (timeline a); [|discriminate].
  split; discriminate.
Qed.

(** X25. The loop of lines 2168-2178 accounts for every record it is given: a
    valid record is replaced by its validated dump, an invalid record that
    has the keys brand and timeline is kept as it is, any other is dropped;
    the order is kept; one warning is logged per invalid record, kept or
    not.  Every record that leaves the loop has the keys brand and
    timeline. *)
Theorem validation_loop_accounts_for_every_record (raw_brand_data : list Appearance) :
  let brand_data := fst (SyncEndpoint.validate_appearances raw_brand_data) in
  let warnings := snd (SyncEndpoint.validate_appearances raw_brand_data) in
  let invalid := fun a => negb (BrandAppearanceModel.valid a) in
  brand_data
  = flat_map (fun a => if BrandAppearanceModel.valid a
                       then [BrandAppearanceModel.model_dump a]
                       else if salvageable a then [a] else [])
             raw_brand_data
  /\ List.length warnings = List.length (filter invalid raw_brand_data)
  /\ (List.length brand_data
      + List.length (filter (fun a => invalid a && negb (salvageable a)) raw_brand_data)
      = List.length raw_brand_data)%nat
  /\ forall x, In x brand_data -> brand x <> None /\ timeline x <> None.
Proof.
  cbv zeta. induction raw_brand_data as [|a rest [IH1 [IH2 [IH3 IH4]]]].
  - repeat split; contradiction.
  - rewrite validate_appearances_cons, validate_one_cases. cbn [fst snd flat_map filter].
    destruct (BrandAppearanceModel.valid a) eqn:Ev; cbn [fst snd negb andb].
    + split; [now rewrite IH1|]. split; [exact IH2|].
      split; [simpl; lia|].
      intros x [<- | Hx]; [|now apply IH4].
      apply (valid_has_keys a Ev).
    + destruct (salvageable a) eqn:Es; cbn [negb app List.length].
      * split; [now rewrite IH1|]. split; [now rewrite IH2|].
        split; [lia|].
        intros x [<- | Hx]; [|now apply IH4].
        unfold salvageable in Es. destruct (brand a), (timeline a); try discriminate.
        split; discriminate.
      * split; [now rewrite IH1|]. split; [now rewrite IH2|].
        split; [lia | exact IH4].
Qed.

(** X26. A record that passed validation: it has no key outside the schema, a
    name, a timeline of two entries with a positive exposure, and one of the
    two sponsorship categories, so the aggregation loop never recomputes its
    category; validating it again returns it unchanged. *)
Theorem validated_record_is_well_formed (a v : Appearance) :
  BrandAppearanceModel.validate a = Return v ->
  BrandAppearanceModel.validate v = Return v
  /\ extra v = []
  /\ (exists b, brand v = Some b /\ b <> "")
  /\ (exists t0 t1 e,
        timeline v = Some [t0; t1] /\ (t0 < t1)%Q
        /\ SyncEndpoint.exposure_of v = Some e /\ (0 < e)%Q)
  /\ (sponsorship_category v = Some "ad_placement"
      \/ sponsorship_category v = Some "in_game_placement")
  /\ SingleVideo.ensure_category v = v.
Proof.
  unfold BrandAppearanceModel.validate.
  destruct (BrandAppearanceModel.valid a) eqn:Ev; [|discriminate].
  intros [= <-].
  assert (Hv : BrandAppearanceModel.valid (BrandAppearanceModel.model_dump a) = true)
    by exact Ev.
  split; [now rewrite Hv|]. split; [reflexivity|].
  unfold BrandAppearanceModel.valid in Ev.
  apply andb_prop in Ev as [Ev _]. apply andb_prop in Ev as [Ev _].
  apply andb_prop in Ev as [Ev _]. apply andb_prop in Ev as [Ev _].
  apply andb_prop in Ev as [Ev _]. apply andb_prop in Ev as [Ev _].
  apply andb_prop in Ev as [Ev Hcat]. apply andb_prop in Ev as [Ev _].
  apply andb_prop in Ev as [Htl Hb].
  unfold BrandAppearanceModel.model_dump, SyncEndpoint.exposure_of,
    SingleVideo.ensure_category. cbn [brand timeline sponsorship_category].
  split; [|split; [|split]].
  - destruct (brand a) as [b|]; [|discriminate]. exists b. split; [reflexivity|].
    intros ->. discriminate.
  - unfold BrandAppearanceModel.timeline_ok in Htl.
    destruct (timeline a) as [[|t0 [|t1 [|? ?]]]|]; try discriminate.
    exists t0, t1, (t1 - t0)%Q. split; [reflexivity|].
    assert (Hlt : (t0 < t1)%Q).
    { apply Qnot_le_lt. intros Hle. apply Qle_bool_iff in Hle. rewrite Hle in Htl.
      discriminate. }
    split; [exact Hlt|]. split; [reflexivity|].
    unfold Qminus. rewrite <- (Qplus_opp_r t0).
    apply Qplus_lt_l. exact Hlt.
  - destruct (sponsorship_category a) as [cat|]; [|discriminate].
    unfold BrandAppearanceModel.literal, BrandAppearanceModel.categories, PyStr.mem in Hcat.
    cbn [existsb] in Hcat.
    destruct (String.eqb cat "ad_placement") eqn:E1;
      [apply String.eqb_eq in E1; subst cat; now left|].
    destruct (String.eqb cat "in_game_placement") eqn:E2;
      [apply String.eqb_eq in E2; subst cat; now right|].
    discriminate.
  - destruct (sponsorship_category a); [reflexivity | discriminate].
Qed.

Lemma validated_record_example :
  exists v,
    BrandAppearanceModel.validate Sample.interview = Return v
    /\ BrandAppearanceModel.validate v = Return v
    /\ extra v = []
    /\ SingleVideo.ensure_category v = v.
Proof.
  exists (BrandAppearanceModel.model_dump Sample.interview).
  destruct (validated_record_is_well_formed
              Sample.interview (BrandAppearanceModel.model_dump Sample.interview))
    as [H1 [H2 [_ [_ [_ H3]]]]]; [reflexivity|].
  repeat split; assumption.
Defined.

(** ** The aggregation loop of the synchronous endpoint *)

Lemma mem_In (c : string) (l : list string) : PyStr.mem c l = true <-> In c l.
Proof.
  unfold PyStr.mem. rewrite existsb_exists. split.
  - intros [x [Hx E]]. apply String.eqb_eq in E. now subst.
  - intros H. exists c. split; [assumption | apply String.eqb_refl].
Qed.

(** what holds of the entry [s] kept under the key [k] *)
Record summary_ok (k : string) (s : SyncEndpoint.BrandSummary) : Prop := {
  so_members :
    forall x, In x (SyncEndpoint.bs_appearances s) ->
              get (brand x) "Unknown" = k /\ sponsorship_category x <> None;
  so_prominence :
    SyncEndpoint.bs_prominence_scores s
    = map SyncEndpoint.prominence_score (SyncEndpoint.bs_appearances s);
  so_sentiment :
    SyncEndpoint.bs_sentiment_scores s
    = map SyncEndpoint.sentiment_score_of (SyncEndpoint.bs_appearances s);
  so_attention :
    SyncEndpoint.bs_viewer_attention_scores s
    = map SyncEndpoint.attention_score (SyncEndpoint.bs_appearances s);
  so_ad :
    SyncEndpoint.bs_ad_placements s = filter is_ad (SyncEndpoint.bs_appearances s);
  so_in_game :
    SyncEndpoint.bs_in_game_placements s
    = filter (fun x => negb (is_ad x)) (SyncEndpoint.bs_appearances s);
  so_time :
    (SyncEndpoint.bs_total_exposure_time s
     == SyncEndpoint.bs_ad_placement_time s + SyncEndpoint.bs_in_game_placement_time s)%Q;
  so_contexts :
    NoDup (SyncEndpoint.bs_contexts s)
    /\ forall c, In c (SyncEndpoint.bs_contexts s)
                 <-> exists x, In x (SyncEndpoint.bs_appearances s)
                               /\ get (context x) "unknown" = c
}.

Lemma new_summary_ok (k : string) : summary_ok k SyncEndpoint.new_brand_summary.
Proof.
  constructor; simpl; try reflexivity.
  - intros x [].
  - split; [constructor|]. intros c. split; [intros [] | intros [x [[] _]]].
Qed.

Lemma record_appearance_summary_ok (k : string) (x : Appearance)
    (s : SyncEndpoint.BrandSummary) :
  get (brand x) "Unknown" = k -> sponsorship_category x <> None ->
  summary_ok k s -> summary_ok k (SyncEndpoint.record_appearance x s).
Proof.
  intros Hb Hc [Hm Hp Hs Hat Ha Hg Ht [Hnd Hctx]]. constructor; simpl.
  - intros y Hy. apply in_app_or in Hy as [Hy | [<- | []]]; [now apply Hm | now split].
  - now rewrite map_app, Hp.
  - now rewrite map_app, Hs.
  - now rewrite map_app, Hat.
  - rewrite filter_app, Ha. simpl. fold (is_ad x).
    destruct (is_ad x); [reflexivity | now rewrite app_nil_r].
  - rewrite filter_app, Hg. simpl. fold (is_ad x).
    destruct (is_ad x); simpl; [now rewrite app_nil_r | reflexivity].
  - fold (is_ad x). destruct (SyncEndpoint.exposure_of x) as [e|]; [|exact Ht].
    destruct (is_ad x); rewrite Ht; ring.
  - set (ctx := get (context x) "unknown").
    destruct (PyStr.mem ctx (SyncEndpoint.bs_contexts s)) eqn:E.
    + apply mem_In in E. split; [exact Hnd|]. intros c. rewrite Hctx. split.
      * intros [y [Hy Hyc]]. exists y. split; [apply in_or_app; now left | exact Hyc].
      * intros [y [Hy Hyc]]. apply in_app_or in Hy as [Hy | [<- | []]].
        -- now exists y.
        -- apply Hctx. now rewrite <- Hyc.
    + assert (Hn : ~ In ctx (SyncEndpoint.bs_contexts s)).
      { intros H. apply mem_In in H. congruence. }
      split.
      * apply NoDup_app; [exact Hnd | repeat constructor; intros [] |].
        intros c Hc1 [<- | []]. contradiction.
      * intros c. rewrite in_app_iff, Hctx. split.
        -- intros [[y [Hy Hyc]] | [<- | []]].
           ++ exists y. split; [apply in_or_app; now left | exact Hyc].
           ++ exists x. split; [apply in_or_app; right; now left | reflexivity].
        -- intros [y [Hy Hyc]]. apply in_app_or in Hy as [Hy | [<- | []]].
           ++ left. now exists y.
           ++ right. now left.
Qed.

Lemma summarize_ok (brand_data : list Appearance) :
  let bs := SyncEndpoint.summarize brand_data in
  NoDup (keys bs) /\ (forall k s, In (k, s) bs -> summary_ok k s).
Proof.
  unfold SyncEndpoint.summarize.
  apply (fold_left_invariant
           (fun bs => NoDup (keys bs) /\ (forall k s, In (k, s) bs -> summary_ok k s))).
  - split; [constructor | intros k s []].
  - intros bs x [Hnd Hok]. unfold SyncEndpoint.summarize_appearance.
    set (k := get (brand x) "Unknown").
    split; [now apply NoDup_keys_assign|].
    intros k0 s0 Hin. apply In_assign in Hin as [[= -> ->] | Hin]; [|now apply Hok].
    destruct (ensure_category_set x) as [Hb Hc].
    apply record_appearance_summary_ok; [now rewrite Hb | exact Hc |].
    destruct (lookup k bs) as [s1|] eqn:L; simpl.
    + apply lookup_In in L. now apply Hok.
    + apply new_summary_ok.
Qed.

Definition summarized (bs : dict SyncEndpoint.BrandSummary) : list Appearance :=
  flat_map SyncEndpoint.bs_appearances (values bs).

Lemma summarized_assign (k : string) (x : Appearance) (bs : dict SyncEndpoint.BrandSummary) :
  Permutation
    (summarized
       (assign k (SyncEndpoint.record_appearance x
                    (get (lookup k bs) SyncEndpoint.new_brand_summary)) bs))
    (summarized bs ++ [x]).
Proof.
  unfold summarized. induction bs as [|[k' s'] bs IH]; simpl.
  - reflexivity.
  - destruct (String.eqb k' k) eqn:E; simpl.
    + rewrite <- !app_assoc. apply Permutation_app_head. apply Permutation_app_comm.
    + rewrite <- app_assoc. apply Permutation_app_head. exact IH.
Qed.

Lemma summarize_perm (brand_data : list Appearance) :
  forall bs,
    Permutation (summarized (fold_left SyncEndpoint.summarize_appearance brand_data bs))
                (summarized bs ++ map SingleVideo.ensure_category brand_data).
Proof.
  induction brand_data as [|x l IH]; intros bs; simpl.
  - now rewrite app_nil_r.
  - rewrite IH. unfold SyncEndpoint.summarize_appearance at 1.
    rewrite summarized_assign, <- app_assoc. reflexivity.
Qed.

Lemma sync_scores_in_range (x : Appearance) :
  (2 # 10 <= SyncEndpoint.prominence_score x <= 1)%Q
  /\ (- (1) <= SyncEndpoint.sentiment_score_of x <= 1)%Q
  /\ (3 # 10 <= SyncEndpoint.attention_score x <= 1)%Q.
Proof.
  unfold SyncEndpoint.prominence_score, SyncEndpoint.sentiment_score_of,
    SyncEndpoint.attention_score.
  repeat split;
    repeat match goal with |- context [if ?b then _ else _] => destruct b end;
    discriminate.
Qed.

(** X27. The aggregation loop of the synchronous endpoint files every record it
    is given - it applies no brand filter and does not strip the name -
    under the value of its brand key, 'Unknown' when there is none, each
    with its sponsorship category filled in: none lost, none added.  In
    every entry the three score lists run parallel to the appearances, with
    prominence in [0.2, 1], sentiment in [-1, 1] and attention in [0.3, 1];
    ad and in-game placements split the appearances by category, and their
    exposure times add up to the total; the contexts are those of the
    appearances, each once. *)
Theorem sync_summary_is_consistent (brand_data : list Appearance) :
  let brand_summary := SyncEndpoint.summarize brand_data in
  NoDup (keys brand_summary)
  /\ Permutation (flat_map SyncEndpoint.bs_appearances (values brand_summary))
                 (map SingleVideo.ensure_category brand_data)
  /\ forall k s, In (k, s) brand_summary ->
       (forall x, In x (SyncEndpoint.bs_appearances s) ->
                  get (brand x) "Unknown" = k /\ sponsorship_category x <> None)
       /\ SyncEndpoint.bs_prominence_scores s
          = map SyncEndpoint.prominence_score (SyncEndpoint.bs_appearances s)
       /\ SyncEndpoint.bs_sentiment_scores s
          = map SyncEndpoint.sentiment_score_of (SyncEndpoint.bs_appearances s)
       /\ SyncEndpoint.bs_viewer_attention_scores s
          = map SyncEndpoint.attention_score (SyncEndpoint.bs_appearances s)
       /\ Forall (fun q => (2 # 10 <= q <= 1)%Q) (SyncEndpoint.bs_prominence_scores s)
       /\ Forall (fun q => (- (1) <= q <= 1)%Q) (SyncEndpoint.bs_sentiment_scores s)
       /\ Forall (fun q => (3 # 10 <= q <= 1)%Q) (SyncEndpoint.bs_viewer_attention_scores s)
       /\ SyncEndpoint.bs_ad_placements s
          = filter (fun x => is_ (sponsorship_category x) "ad_placement")
                   (SyncEndpoint.bs_appearances s)
       /\ SyncEndpoint.bs_in_game_placements s
          = filter (fun x => negb (is_ (sponsorship_category x) "ad_placement"))
                   (SyncEndpoint.bs_appearances s)
       /\ (SyncEndpoint.bs_total_exposure_time s
           == SyncEndpoint.bs_ad_placement_time s
              + SyncEndpoint.bs_in_game_placement_time s)%Q
       /\ NoDup (SyncEndpoint.bs_contexts s)
       /\ forall c, In c (SyncEndpoint.bs_contexts s)
                    <-> exists x, In x (SyncEndpoint.bs_appearances s)
                                  /\ get (context x) "unknown" = c.
Proof.
  intros brand_summary.
  destruct (summarize_ok brand_data) as [Hnd Hok]. fold brand_summary in Hnd, Hok.
  split; [exact Hnd|]. split.
  - exact (summarize_perm brand_data []).
  - intros k s Hin. destruct (Hok k s Hin) as [Hm Hp Hs Hat Ha Hg Ht [Hc1 Hc2]].
    split; [exact Hm|]. split; [exact Hp|]. split; [exact Hs|]. split; [exact Hat|].
    split; [rewrite Hp; apply Forall_map, Forall_forall; intros x _;
            apply sync_scores_in_range|].
    split; [rewrite Hs; apply Forall_map, Forall_forall; intros x _;
            apply sync_scores_in_range|].
    split; [rewrite Hat; apply Forall_map, Forall_forall; intros x _;
            apply sync_scores_in_range|].
    split; [exact Ha|]. split; [exact Hg|]. split; [exact Ht|].
    split; [exact Hc1 | exact Hc2].
Qed.

(** ** The estimate of social mentions *)











(** ** The appearances of a merged brand *)

(** a list field of the entries that the merge extends with shifted copies *)
Definition extended (field : BrandMetric -> list Appearance) : Prop :=
  (forall b, field (TemporalMerger.new_combined b) = [])
  /\ forall c combined m e,
       TemporalMerger.absorb c combined m = Return e ->
       field e = (field combined ++ map (shifted c) (field m))%list.

(** the [field] lists of the entries of brand [b], video after video, each
    shifted by the start of its video *)
Fixpoint shifted_field (field : BrandMetric -> list Appearance) (b : string)
    (from : Q) (l : list Analysis) : list Appearance :=
  match l with
  | [] => []
  | a :: l' =>
      (flat_map (fun e => map (shifted from) (field e))
                (filter (brand_is b) (brand_metrics a))
       ++ shifted_field field b (from + video_duration_minutes (summary a) * 60)%Q l')%list
  end.

Lemma foldM_merge_extended (field : BrandMetric -> list Appearance) (b : string) (c : Q)
    (ms : list BrandMetric) :
  extended field ->
  forall D D',
    foldM (TemporalMerger.merge_brand_metric c) ms D = Return D' ->
    field (entry_of b D')
    = (field (entry_of b D)
       ++ flat_map (fun e => map (shifted c) (field e)) (filter (brand_is b) ms))%list.
Proof.
  intros [_ Hop]. induction ms as [|m ms IH]; intros D D' H; simpl in H.
  - injection H as <-. simpl. now rewrite app_nil_r.
  - destruct (TemporalMerger.merge_brand_metric c D m) as [D1|] eqn:E; [|discriminate].
    cbn [bind] in H. apply IH in H. rewrite H. clear H IH.
    apply merge_brand_metric_inv in E as [e [He ->]].
    cbn [filter].
    destruct (brand_is b m) eqn:Eb; unfold brand_is in Eb.
    + apply String.eqb_eq in Eb. subst b. rewrite entry_of_assign_same.
      cbn [flat_map]. rewrite (Hop _ _ _ _ He). unfold entry_of.
      now rewrite <- app_assoc.
    + apply String.eqb_neq in Eb. now rewrite entry_of_assign_other.
Qed.

Lemma merged_extended (field : BrandMetric -> list Appearance) (b : string)
    (l : list Analysis) :
  extended field ->
  forall acc acc',
    foldM TemporalMerger.merge_analysis (map Some l) acc = Return acc' ->
    field (entry_of b (TemporalMerger.acc_combined_brand_metrics acc'))
    = (field (entry_of b (TemporalMerger.acc_combined_brand_metrics acc))
       ++ shifted_field field b (TemporalMerger.acc_cumulative_duration_seconds acc) l)%list.
Proof.
  intros Hf. induction l as [|a l IH]; intros acc acc' H; cbn [map foldM] in H.
  - injection H as <-. simpl. now rewrite app_nil_r.
  - destruct (TemporalMerger.merge_analysis acc (Some a)) as [acc1|] eqn:E; [|discriminate].
    cbn [bind] in H. rewrite (IH _ _ H). clear IH H.
    apply merge_analysis_inv in E as [od [D [_ [HD [-> [_ [_ ->]]]]]]].
    rewrite (foldM_merge_extended field b _ _ Hf _ _ HD).
    cbn [shifted_field]. now rewrite <- app_assoc.
Qed.

Lemma absorb_lists (c : Q) (combined m e : BrandMetric) :
  TemporalMerger.absorb c combined m = Return e ->
  appearances e = (appearances combined ++ map (shifted c) (appearances m))%list
  /\ ad_placements e = (ad_placements combined ++ map (shifted c) (ad_placements m))%list
  /\ in_game_placements e
     = (in_game_placements combined ++ map (shifted c) (in_game_placements m))%list.
Proof.
  unfold TemporalMerger.absorb. intros H.
  destruct (mapM _ (appearances m)) as [oa|] eqn:E1; [|discriminate].
  destruct (mapM _ (ad_placements m)) as [oad|] eqn:E2; [|discriminate].
  destruct (mapM _ (in_game_placements m)) as [oig|] eqn:E3; [|discriminate].
  simpl in H. injection H as <-. simpl.
  now rewrite (mapM_offset_shifted _ _ _ E1), (mapM_offset_shifted _ _ _ E2),
    (mapM_offset_shifted _ _ _ E3).
Qed.

(** X29. For any number of videos, the appearances listed under a merged brand
    are the appearances of its per-video entries, video after video in the
    order of the argument, each shifted by the summed durations of the
    videos before its own; and so are its ad placements and its in-game
    placements. *)
Theorem merged_appearances_are_shifted_copies
    (analyses : list (option Analysis)) (video_ids : list string)
    (c : Combined) (m : BrandMetric) :
  TemporalMerger.combine_video_analyses analyses video_ids = Return c ->
  In m (combined_brand_metrics c) ->
  appearances m = shifted_field appearances (bm_brand m) 0 (somes analyses)
  /\ ad_placements m = shifted_field ad_placements (bm_brand m) 0 (somes analyses)
  /\ in_game_placements m
     = shifted_field in_game_placements (bm_brand m) 0 (somes analyses).
Proof.
  intros Hc Hin.
  destruct (merged_entry analyses video_ids c m Hc Hin) as [acc [v [Hacc [Hm [Hb Hv]]]]].
  rewrite foldM_merge_somes in Hacc.
  assert (Hlist : forall field, extended field ->
                    field v = shifted_field field (bm_brand m) 0 (somes analyses)).
  { intros field Hf. rewrite <- Hv.
    rewrite (merged_extended field (bm_brand m) _ Hf _ _ Hacc).
    destruct Hf as [Hz _]. unfold entry_of. simpl. now rewrite Hz. }
  assert (Hfin : appearances m = appearances v /\ ad_placements m = ad_placements v
                 /\ in_game_placements m = in_game_placements v).
  { rewrite Hm. unfold TemporalMerger.finalize. cbn. repeat split. }
  destruct Hfin as [-> [-> ->]].
  repeat split; apply Hlist; (split; [reflexivity|]); intros c0 cb m0 e H;
    now destruct (absorb_lists _ _ _ _ H) as [H1 [H2 H3]].
Qed.

Lemma merged_appearances_example :
  exists c m,
    TemporalMerger.combine_video_analyses
      [Some Sample.video3; Some Sample.video1; Some Sample.video2]
      ["v3"; "v1"; "v2"] = Return c
    /\ In m (combined_brand_metrics c)
    /\ bm_brand m = "Nike"
    /\ timelines_of m = [[310; 320]; [905; 915]]%Q
    /\ appearances m
       = shifted_field appearances "Nike" 0
           [Sample.video3; Sample.video1; Sample.video2].
Proof.
  let r := eval vm_compute in
             (TemporalMerger.combine_video_analyses
                [Some Sample.video3; Some Sample.video1; Some Sample.video2]
                ["v3"; "v1"; "v2"]) in
  match r with
  | Return ?c =>
      exists c;
      let ms := eval vm_compute in (combined_brand_metrics c) in
      match ms with
      | ?m :: _ => exists m;
          assert (Hc : TemporalMerger.combine_video_analyses
                         [Some Sample.video3; Some Sample.video1; Some Sample.video2]
                         ["v3"; "v1"; "v2"] = Return c) by (vm_compute; reflexivity);
          assert (Hin : In m (combined_brand_metrics c)) by (left; reflexivity);
          split; [exact Hc|];
          split; [exact Hin|];
          split; [reflexivity|];
          split; [vm_compute; reflexivity|];
          exact (proj1 (merged_appearances_are_shifted_copies _ _ c m Hc Hin))
      end
  end.
Defined.

(** ** Detections stay inside the window of their video *)

Lemma merged_videos_grow (l : list Analysis) :
  forall acc acc',
    foldM TemporalMerger.merge_analysis (map Some l) acc = Return acc' ->
    exists ws,
      TemporalMerger.acc_videos_analyzed acc'
      = (TemporalMerger.acc_videos_analyzed acc ++ ws)%list.
Proof.
  induction l as [|a l IH]; intros acc acc' H; cbn [map foldM] in H.
  - injection H as <-. exists []. now rewrite app_nil_r.
  - destruct (TemporalMerger.merge_analysis acc (Some a)) as [acc1|] eqn:E; [|discriminate].
    cbn [bind] in H. destruct (IH _ _ H) as [ws Hws].
    apply merge_analysis_window in E as [v [Hv _]].
    exists (v :: ws). rewrite Hws, Hv. now rewrite <- app_assoc.
Qed.

(** the detections of [a] lie between 0 and the duration of the video *)
Definition within_video (a : Analysis) : Prop :=
  forall d t0 t1 rest,
    In d (raw_detections a) -> timeline d = Some (t0 :: t1 :: rest) ->
    (0 <= t0 /\ t1 <= video_duration_minutes (summary a) * 60)%Q.

Lemma shifted_timeline (offset : Q) (d : Appearance) (t0 t1 : Q) :
  timeline (shifted offset d) = Some [t0; t1] ->
  exists x0 x1 rest,
    timeline d = Some (x0 :: x1 :: rest)
    /\ t0 = (x0 + offset)%Q /\ t1 = (x1 + offset)%Q.
Proof.
  unfold shifted. destruct (timeline d) as [[|x0 [|x1 rest]]|] eqn:E;
    try (rewrite E; discriminate).
  simpl. intros [= <- <-]. now exists x0, x1, rest.
Qed.

Lemma merged_detections_in_windows (l : list Analysis) :
  Forall within_video l ->
  forall acc acc',
    foldM TemporalMerger.merge_analysis (map Some l) acc = Return acc' ->
    forall d' t0 t1,
      In d' (shifted_detections (TemporalMerger.acc_cumulative_duration_seconds acc) l) ->
      timeline d' = Some [t0; t1] ->
      exists v,
        In v (TemporalMerger.acc_videos_analyzed acc')
        /\ (start_time_seconds v <= t0 /\ t1 <= end_time_seconds v)%Q.
Proof.
  induction 1 as [|a l Ha Hl IH]; intros acc acc' H d' t0 t1 Hd Ht; [contradiction|].
  cbn [map foldM] in H.
  destruct (TemporalMerger.merge_analysis acc (Some a)) as [acc1|] eqn:E; [|discriminate].
  cbn [bind] in H.
  apply merge_analysis_window in E
    as [v [Hv [_ [Hdur [Hs [He [Hcum _]]]]]]].
  cbn [shifted_detections] in Hd. apply in_app_or in Hd as [Hd | Hd].
  - apply in_map_iff in Hd as [d [<- Hd]].
    apply shifted_timeline in Ht as [x0 [x1 [rest [Hx [-> ->]]]]].
    destruct (Ha d x0 x1 rest Hd Hx) as [H0 H1].
    destruct (merged_videos_grow l _ _ H) as [ws Hws].
    exists v. split.
    + rewrite Hws, Hv. apply in_or_app. left. apply in_or_app. right. now left.
    + rewrite He, Hs, Hdur. split.
      * rewrite <- (Qplus_0_l (TemporalMerger.acc_cumulative_duration_seconds acc)) at 1.
        apply Qplus_le_compat; [exact H0 | apply Qle_refl].
      * rewrite (Qplus_comm x1). apply Qplus_le_compat; [apply Qle_refl | exact H1].
  - apply (IH acc1 acc' H d' t0 t1); [|exact Ht].
    now rewrite Hcum, He, Hs, Hdur.
Qed.

(** X30. When the detections of every merged video lie between 0 and the
    duration of their video, every raw detection of the combined result
    lies inside one of the windows of [videos_analyzed]: the shifted
    timelines of one video never run into the next. *)
Theorem merged_detections_stay_in_their_window
    (analyses : list (option Analysis)) (video_ids : list string) (c : Combined) :
  TemporalMerger.combine_video_analyses analyses video_ids = Return c ->
  (forall a, In (Some a) analyses -> within_video a) ->
  forall d' t0 t1,
    In d' (c_raw_detections c) -> timeline d' = Some [t0; t1] ->
    exists v,
      In v (videos_analyzed (combined_summary c))
      /\ (start_time_seconds v <= t0 /\ t1 <= end_time_seconds v)%Q.
Proof.
  intros Hc Hin d' t0 t1 Hd Ht.
  apply combine_inv in Hc as [acc [Hacc [_ [Hvs [Hraw _]]]]].
  rewrite foldM_merge_somes in Hacc. rewrite Hvs. rewrite Hraw in Hd.
  rewrite (merged_detections _ _ _ Hacc) in Hd.
  apply (merged_detections_in_windows (somes analyses)) with (acc := TemporalMerger.acc0)
    (d' := d'); try assumption.
  apply Forall_forall. intros a Ha. apply Hin. now apply In_somes.
Qed.

Lemma merged_detections_window_example :
  exists c d' v,
    TemporalMerger.combine_video_analyses
      [Some Sample.video1; Some Sample.video3] ["v1"; "v3"] = Return c
    /\ In d' (c_raw_detections c)
    /\ brand d' = Some "Adidas"
    /\ In v (videos_analyzed (combined_summary c))
    /\ (start_time_seconds v <= 630 /\ 645 <= end_time_seconds v)%Q.
Proof.
  let r := eval vm_compute in
             (TemporalMerger.combine_video_analyses
                [Some Sample.video1; Some Sample.video3] ["v1"; "v3"]) in
  match r with
  | Return ?c =>
      exists c;
      let ds := eval vm_compute in (c_raw_detections c) in
      match ds with
      | [_; ?d] =>
          exists d;
          assert (Hc : TemporalMerger.combine_video_analyses
                         [Some Sample.video1; Some Sample.video3] ["v1"; "v3"]
                       = Return c) by (vm_compute; reflexivity);
          assert (Hd : In d (c_raw_detections c)) by (right; left; reflexivity);
          let tl := eval vm_compute in (timeline d) in
          match tl with
          | Some [?x0; ?x1] =>
              destruct (merged_detections_stay_in_their_window
                          [Some Sample.video1; Some Sample.video3] ["v1"; "v3"] c Hc)
                with (d' := d) (t0 := x0) (t1 := x1)
                as [v [Hv [Hb0 Hb1]]];
              [ intros a [[= <-] | [[= <-] | []]] d0 y0 y1 rest
                       [<- | []] [= <- <- _]; split; discriminate
              | exact Hd
              | reflexivity
              | exists v;
                split; [exact Hc|];
                split; [exact Hd|];
                split; [reflexivity|];
                split; [exact Hv|];
                split;
                  [ apply (Qle_trans _ x0); [exact Hb0 | discriminate]
                  | apply (Qle_trans _ x1); [discriminate | exact Hb1] ] ]
          end
      end
  end.
Defined.

(** ** The two loops of the synchronous endpoint on three records *)

(** a record without the key [brand] *)
Definition nameless : Appearance :=
  mkAppearance (Some [1; 2]%Q) None (Some "logo") None None None None None None None [].

Lemma validation_loop_example :
  fst (SyncEndpoint.validate_appearances [Sample.interview; Sample.reversed; nameless])
  = [BrandAppearanceModel.model_dump Sample.interview; Sample.reversed]
  /\ List.length
       (snd (SyncEndpoint.validate_appearances [Sample.interview; Sample.reversed; nameless]))
     = 2%nat.
Proof.
  destruct (validation_loop_accounts_for_every_record
              [Sample.interview; Sample.reversed; nameless]) as [H1 [H2 _]].
  split; [rewrite H1 | rewrite H2]; reflexivity.
Defined.

Lemma sync_summary_example :
  exists s,
    In ("Nike", s) (SyncEndpoint.summarize [Sample.interview; Sample.reversed])
    /\ SyncEndpoint.bs_appearances s = [Sample.interview; Sample.reversed]
    /\ SyncEndpoint.bs_prominence_scores s
       = map SyncEndpoint.prominence_score (SyncEndpoint.bs_appearances s)
    /\ NoDup (SyncEndpoint.bs_contexts s).
Proof.
  let bs := eval vm_compute in
              (SyncEndpoint.summarize [Sample.interview; Sample.reversed]) in
  match bs with
  | [(_, ?s)] =>
      exists s;
      assert (Hin : In ("Nike", s)
                       (SyncEndpoint.summarize [Sample.interview; Sample.reversed]))
        by (left; vm_compute; reflexivity);
      destruct (sync_summary_is_consistent [Sample.interview; Sample.reversed])
        as [_ [_ H]];
      destruct (H "Nike" s Hin) as [_ [Hp [_ [_ [_ [_ [_ [_ [_ [_ [Hnd _]]]]]]]]]]];
      split; [exact Hin|];
      split; [reflexivity|];
      split; [exact Hp | exact Hnd]
  end.
Defined.

(** ** A unit whose vision service is down *)

Lemma unit_returns_example :
  exists r j,
    fst (ParallelOrchestrator.analyze_single_video_parallel
           Sample.world_down "v1" ["Nike"] JobTracker.init)
    = ParallelOrchestrator.Finished r
    /\ ParallelOrchestrator.success r = false
    /\ ParallelOrchestrator.r_error r = Some "connection refused"
    /\ get_job "v1-temp-0"
         (snd (ParallelOrchestrator.analyze_single_video_parallel
                 Sample.world_down "v1" ["Nike"] JobTracker.init)) = Some j
    /\ status j = failed.
Proof.
  destruct (unit_returns_what_the_pipeline_published
              Sample.world_down "v1" ["Nike"] JobTracker.init)
    as [r [j [Hr [_ [Hj Ho]]]]].
  exists r, j. cbn in Ho. destruct Ho as [Hs [_ [He Hst]]].
  repeat split; assumption.
Defined.
